(** * Universal Integration Framework: webhook pipeline and OAuth set-up

    A shallow embedding of the TypeScript sources
    ([webhooks/validator.ts], [webhooks/processor.ts], [webhooks/manager.ts],
    [oauth/provider.ts], [oauth/providers/*.ts], [integration.ts],
    [api/client.ts]) together
    with the properties that the specification states about them.

    JavaScript strings are sequences of UTF-16 code units; [Buffer.from]
    turns them into UTF-8 bytes.  Exceptions are explicit: a function that
    may throw returns a [completion].  Objects that are mutated through a
    reference (the delivery records of the processor) live in a heap. *)

From Stdlib Require Import ZArith NArith QArith Qminmax Lqa Lia List Ascii String.
From Stdlib.Strings Require Byte.
From stdpp Require Import base option list gmap strings pretty fin_maps.

Local Open Scope N_scope.

(* ===================================================================== *)
(** * JavaScript values *)
(* ===================================================================== *)

Module Js.

(** A string is a list of UTF-16 code units (numbers below [2^16]). *)
Abbreviation JsString := (list N).

(** A string literal of the source, one code unit per character (the
    literals are ASCII). *)
Definition js (s : string) : JsString :=
  N_of_ascii <$> list_ascii_of_string s.

(** What [throw] carries: an [Error] object (or an instance of a
    subclass) with its message, or any other value. *)
Inductive JsThrown : Type :=
| ErrorObject (ctor : string) (message : JsString)
| OtherValue.

(** The outcome of evaluating a call. *)
Inductive completion (A : Type) : Type :=
| Normal (a : A)
| Throw (e : JsThrown).
Global Arguments Normal {A} a.
Global Arguments Throw {A} e.

Definition bind {A B} (c : completion A) (k : A → completion B) : completion B :=
  match c with
  | Normal a => k a
  | Throw e => Throw e
  end.

(** [error instanceof Error ? error.message : fallback] *)
Definition message_or (e : JsThrown) (fallback : JsString) : JsString :=
  match e with
  | ErrorObject _ m => m
  | OtherValue => fallback
  end.

(** Truthiness of a value of type [string | undefined]: [undefined] and
    the empty string are falsy. *)
Definition truthy (o : option JsString) : bool :=
  match o with
  | Some (_ :: _) => true
  | _ => false
  end.

(** [a || b] on values of type [string | undefined]. *)
Definition or_else (a b : option JsString) : option JsString :=
  if truthy a then a else b.

(** [s || d] where [d] is a string: the result is a string. *)
Definition or_default (a : option JsString) (d : JsString) : JsString :=
  match a with
  | Some (c :: s) => c :: s
  | _ => d
  end.

(** [String.prototype.toLowerCase] on the ASCII letters.  Header names are
    ASCII tokens; other code units are left as they are. *)
Definition toLowerCase (s : JsString) : JsString :=
  (λ c, if (65 <=? c) && (c <=? 90) then c + 32 else c) <$> s.

(** [Array.prototype.join]. *)
Fixpoint join (sep : JsString) (l : list JsString) : JsString :=
  match l with
  | [] => []
  | [x] => x
  | x :: rest => x ++ sep ++ join sep rest
  end.

(** [String.prototype.substr(start, length)]. *)
Definition substr (start len : nat) (s : JsString) : JsString :=
  take len (drop start s).

(** The parsed body of a request, typed [any] in the source.  Of an
    object only the four fields read by the event classifier matter;
    they hold [string | undefined]. *)
Inductive JsBody : Type :=
| BodyUndefined
| BodyNull
| BodyBoolean (b : bool)
| BodyNumber (z : Z)
| BodyString (s : JsString)
| BodyObject (fields : gmap JsString JsString).

(** [!!body] *)
Definition body_truthy (b : JsBody) : bool :=
  match b with
  | BodyUndefined | BodyNull => false
  | BodyBoolean b => b
  | BodyNumber z => negb (z =? 0)%Z
  | BodyString s => truthy (Some s)
  | BodyObject _ => true
  end.

End Js.
Export Js.

(* ===================================================================== *)
(** * The Node.js runtime: buffers, hex, HMAC, URLs *)
(* ===================================================================== *)

Module Node.

Abbreviation byte := Byte.byte.

#[global] Instance byte_eq_dec : EqDecision byte := Byte.byte_eq_dec.

(** The low eight bits of a number, as a byte. *)
Definition byte_of_N (n : N) : byte :=
  default Byte.x00 (Byte.of_N (N.land n 0xFF)).

Definition is_high_surrogate (c : N) : bool := (0xD800 <=? c) && (c <=? 0xDBFF).
Definition is_low_surrogate (c : N) : bool := (0xDC00 <=? c) && (c <=? 0xDFFF).

(** UTF-8 encoding of one code point. *)
Definition utf8_encode (cp : N) : list byte :=
  if cp <? 0x80 then
    [byte_of_N cp]
  else if cp <? 0x800 then
    [byte_of_N (N.lor 0xC0 (N.shiftr cp 6));
     byte_of_N (N.lor 0x80 (N.land cp 0x3F))]
  else if cp <? 0x10000 then
    [byte_of_N (N.lor 0xE0 (N.shiftr cp 12));
     byte_of_N (N.lor 0x80 (N.land (N.shiftr cp 6) 0x3F));
     byte_of_N (N.lor 0x80 (N.land cp 0x3F))]
  else
    [byte_of_N (N.lor 0xF0 (N.shiftr cp 18));
     byte_of_N (N.lor 0x80 (N.land (N.shiftr cp 12) 0x3F));
     byte_of_N (N.lor 0x80 (N.land (N.shiftr cp 6) 0x3F));
     byte_of_N (N.lor 0x80 (N.land cp 0x3F))].

(** [Buffer.from(s)] (and what [hmac.update(s)] and
    [createHmac(_, s)] hash): the UTF-8 encoding of the string.  A
    surrogate pair is one code point; a surrogate that is not part of a
    pair is encoded as U+FFFD. *)
Fixpoint Buffer_from (s : JsString) : list byte :=
  match s with
  | [] => []
  | c :: rest =>
      if is_high_surrogate c then
        match rest with
        | d :: rest' =>
            if is_low_surrogate d then
              utf8_encode (0x10000 + (c - 0xD800) * 0x400 + (d - 0xDC00))
                ++ Buffer_from rest'
            else utf8_encode 0xFFFD ++ Buffer_from rest
        | [] => utf8_encode 0xFFFD
        end
      else if is_low_surrogate c then utf8_encode 0xFFFD ++ Buffer_from rest
      else utf8_encode c ++ Buffer_from rest
  end.

(** [crypto.timingSafeEqual(a, b)]: throws a [RangeError] when the two
    buffers differ in length, and compares them otherwise. *)
Definition timingSafeEqual (a b : list byte) : completion bool :=
  if bool_decide (length a = length b) then Normal (bool_decide (a = b))
  else Throw (ErrorObject "RangeError"
                (js "Input buffers must have the same byte length")).

(** [buf.toString("hex")]: two lowercase hexadecimal digits per byte. *)
Definition hex_digit (d : N) : N :=
  if d <? 10 then 48 + d else 87 + d.

Definition hex_of_byte (b : byte) : JsString :=
  [hex_digit (N.shiftr (Byte.to_N b) 4); hex_digit (N.land (Byte.to_N b) 0xF)].

Definition toString_hex (bs : list byte) : JsString :=
  bs ≫= hex_of_byte.

(** [buf.toString("base64url")]: the URL-safe alphabet, no padding. *)
Definition base64url_digit (d : N) : N :=
  if d <? 26 then 65 + d
  else if d <? 52 then 97 + (d - 26)
  else if d <? 62 then 48 + (d - 52)
  else if d =? 62 then 45
  else 95.

Fixpoint toString_base64url (bs : list byte) : JsString :=
  match bs with
  | [] => []
  | [a] =>
      let a := Byte.to_N a in
      [base64url_digit (N.shiftr a 2);
       base64url_digit (N.shiftl (N.land a 3) 4)]
  | [a; b] =>
      let a := Byte.to_N a in
      let b := Byte.to_N b in
      [base64url_digit (N.shiftr a 2);
       base64url_digit (N.lor (N.shiftl (N.land a 3) 4) (N.shiftr b 4));
       base64url_digit (N.shiftl (N.land b 0xF) 2)]
  | a :: b :: c :: rest =>
      let a := Byte.to_N a in
      let b := Byte.to_N b in
      let c := Byte.to_N c in
      [base64url_digit (N.shiftr a 2);
       base64url_digit (N.lor (N.shiftl (N.land a 3) 4) (N.shiftr b 4));
       base64url_digit (N.lor (N.shiftl (N.land b 0xF) 2) (N.shiftr c 6));
       base64url_digit (N.land c 0x3F)]
        ++ toString_base64url rest
  end.

Inductive HashAlgorithm : Type := sha256 | sha1.

(** The name given to [crypto.createHmac] and [crypto.createHash]. *)
Definition algorithm_name (a : HashAlgorithm) : JsString :=
  match a with
  | sha256 => js "sha256"
  | sha1 => js "sha1"
  end.

(** Length of a digest in bytes. *)
Definition digest_size (a : HashAlgorithm) : nat :=
  match a with
  | sha256 => 32
  | sha1 => 20
  end.

(** What the sources use of Node's libraries without defining it: the
    hash functions of [crypto], the decoding of a [Buffer] into a string
    and the WHATWG [URL] class. *)
Class Runtime : Type := {
  (** [crypto.createHmac(a, key).update(data).digest()] *)
  hmac_digest : HashAlgorithm → list byte → list byte → list byte;
  hmac_digest_length : ∀ a key data,
    length (hmac_digest a key data) = digest_size a;
  (** [crypto.createHash(a).update(data).digest()] *)
  hash_digest : HashAlgorithm → list byte → list byte;
  (** [buf.toString()] *)
  Buffer_toString : list byte → JsString;
  (** [new URL(s)], which throws on a string that is not a URL *)
  URL : Type;
  URL_new : JsString → completion URL;
  (** [url.searchParams.append(key, value)] *)
  searchParams_append : URL → JsString → JsString → URL;
  (** [url.toString()] *)
  URL_toString : URL → JsString;
}.

End Node.
Export Node.

(* ===================================================================== *)
(** * Shared configuration types ([types/index.ts]) *)
(* ===================================================================== *)

Inductive BackoffStrategy : Type := linear | exponential.

(** [maxRetries] is a count.  Its type, [number], and its schema,
    [z.number().min(0).max(10)], admit fractions as well; the model covers
    the integral values, and what is stated below about numbers of
    attempts is stated for those.  The two delays are milliseconds and may
    be fractional once jitter is added, so they are rationals. *)
Record RetryPolicy : Type := {
  maxRetries : Z;
  backoffStrategy : BackoffStrategy;
  baseDelay : Q;
  maxDelay : Q;
}.

Inductive SignatureMethod : Type := hmac_sha256 | hmac_sha1.

Record WebhookConfig : Type := {
  endpoint : JsString;
  secret : option JsString;
  events : list JsString;
  signatureHeader : option JsString;
  signatureMethod : option SignatureMethod;
  retryPolicy : option RetryPolicy;
}.

(** The identifiers of the caller.  The tokens and the metadata bag, which
    the code below only passes on, are left out. *)
Record IntegrationContext : Type := {
  userId : option JsString;
  organizationId : option JsString;
  installationId : option JsString;
}.

Record IntegrationError : Type := {
  code : JsString;
  message : JsString;
  details : option JsThrown;
  retryable : option bool;
}.

(* ===================================================================== *)
(** * Webhook types ([webhooks/types.ts]) *)
(* ===================================================================== *)

(** [rawBody: string | Buffer] *)
Inductive RawBody : Type :=
| RawString (s : JsString)
| RawBuffer (b : list byte).

(** [headers] is typed as always present; the validator nevertheless tests
    it, so here it may be absent. *)
Record WebhookPayload : Type := {
  headers : option (gmap JsString JsString);
  body : JsBody;
  rawBody : RawBody;
  timestamp : Z;
  signature : option JsString;
}.

Record WebhookValidationResult : Type := {
  isValid : bool;
  validation_error : option JsString;
  validation_event : option JsString;
}.

(** The [data] field, which the processor only passes on, is left out. *)
Record WebhookProcessingResult : Type := {
  success : bool;
  event : option JsString;
  error : option IntegrationError;
  shouldRetry : option bool;
}.

(** The interface [WebhookSignatureValidator]. *)
Record WebhookSignatureValidator : Type := {
  validate : JsString → JsString → JsString → completion bool;
  generate : JsString → JsString → JsString;
}.

(* ===================================================================== *)
(** * Signature validators and the webhook validator
      ([webhooks/validator.ts]) *)
(* ===================================================================== *)

Section Validator.
Context `{Runtime}.

(** [crypto.createHmac(a, secret).update(payload).digest("hex")] *)
Definition createHmac_hex (a : HashAlgorithm) (secret payload : JsString) : JsString :=
  toString_hex (hmac_digest a (Buffer_from secret) (Buffer_from payload)).

(** [HmacSha256Validator.generate] *)
Definition HmacSha256Validator_generate (payload secret : JsString) : JsString :=
  js "sha256=" ++ createHmac_hex sha256 secret payload.

(** [HmacSha256Validator.validate] *)
Definition HmacSha256Validator_validate
    (payload signature secret : JsString) : completion bool :=
  let expectedSignature := HmacSha256Validator_generate payload secret in
  timingSafeEqual (Buffer_from signature) (Buffer_from expectedSignature).

Definition HmacSha256Validator : WebhookSignatureValidator := {|
  validate := HmacSha256Validator_validate;
  generate := HmacSha256Validator_generate;
|}.

(** [HmacSha1Validator.generate] *)
Definition HmacSha1Validator_generate (payload secret : JsString) : JsString :=
  js "sha1=" ++ createHmac_hex sha1 secret payload.

(** [HmacSha1Validator.validate] *)
Definition HmacSha1Validator_validate
    (payload signature secret : JsString) : completion bool :=
  let expectedSignature := HmacSha1Validator_generate payload secret in
  timingSafeEqual (Buffer_from signature) (Buffer_from expectedSignature).

Definition HmacSha1Validator : WebhookSignatureValidator := {|
  validate := HmacSha1Validator_validate;
  generate := HmacSha1Validator_generate;
|}.

(** The map built by the constructor of [WebhookValidator].  Both members
    of [SignatureMethod] are keys, so the lookup in [validateSignature]
    and [generateSignature] always finds a validator and their
    "Unsupported signature method" branch is never taken. *)
Definition signatureValidators (method : SignatureMethod) : WebhookSignatureValidator :=
  match method with
  | hmac_sha256 => HmacSha256Validator
  | hmac_sha1 => HmacSha1Validator
  end.

(** The hash algorithm behind a signature method. *)
Definition algorithm_of (method : SignatureMethod) : HashAlgorithm :=
  match method with
  | hmac_sha256 => sha256
  | hmac_sha1 => sha1
  end.

(** [WebhookValidator.validateSignature] (private).  [hdrs] is
    [payload.headers], known to be present at the call. *)
Definition validateSignature
    (payload : WebhookPayload) (hdrs : gmap JsString JsString)
    (secret : JsString) (method : SignatureMethod)
    (signatureHeader : JsString) : completion bool :=
  let validator := signatureValidators method in
  let receivedSignature := hdrs !! toLowerCase signatureHeader in
  if negb (truthy receivedSignature) then Normal false
  else
    let rawBody :=
      match rawBody payload with
      | RawString s => s
      | RawBuffer b => Buffer_toString b
      end in
    validate validator rawBody (default [] receivedSignature) secret.

Definition eventHeaders : list JsString :=
  [js "x-github-event"; js "x-gitlab-event"; js "x-event-key";
   js "x-event-type"; js "event-type"].

(** The [for] loop of [extractEventType]: the first header of the list
    with a truthy value. *)
Fixpoint first_event_header
    (names : list JsString) (hdrs : gmap JsString JsString) : option JsString :=
  match names with
  | [] => None
  | header :: rest =>
      let event := hdrs !! toLowerCase header in
      if truthy event then event else first_event_header rest hdrs
  end.

(** [WebhookValidator.extractEventType] (private) *)
Definition extractEventType
    (payload : WebhookPayload) (hdrs : gmap JsString JsString)
    (config : WebhookConfig) : option JsString :=
  match first_event_header eventHeaders hdrs with
  | Some event => Some event
  | None =>
      match body payload with
      | BodyObject fields =>
          or_else
            (or_else
               (or_else (fields !! js "event_type") (fields !! js "type"))
               (fields !! js "action"))
            (fields !! js "event")
      | _ => None
      end
  end.

(** [config.events.includes(event)] *)
Definition includes (l : list JsString) (x : JsString) : bool :=
  bool_decide (x ∈ l).

(** The body of the [try] block of [WebhookValidator.validate]. *)
Definition validate_try
    (payload : WebhookPayload) (config : WebhookConfig)
    : completion WebhookValidationResult :=
  match body_truthy (body payload), headers payload with
  | true, Some hdrs =>
      bind
        (if truthy (secret config) && truthy (signature payload) then
           validateSignature payload hdrs
             (default [] (secret config))
             (default hmac_sha256 (signatureMethod config))
             (or_default (signatureHeader config) (js "x-hub-signature-256"))
         else Normal true)
        (λ isSignatureValid,
           if negb isSignatureValid then
             Normal {| isValid := false;
                       validation_error := Some (js "Invalid signature");
                       validation_event := None |}
           else
             let event := extractEventType payload hdrs config in
             if (0 <? length (events config))%nat && truthy event
                && negb (includes (events config) (default [] event)) then
               Normal {| isValid := false;
                         validation_error :=
                           Some (js "Unsupported event type: " ++ default [] event);
                         validation_event := None |}
             else
               Normal {| isValid := true;
                         validation_error := None;
                         validation_event := event |})
  | _, _ =>
      Normal {| isValid := false;
                validation_error := Some (js "Missing required payload data");
                validation_event := None |}
  end.

(** [WebhookValidator.validate]: whatever the [try] block throws becomes
    an invalid verdict. *)
Definition WebhookValidator_validate
    (payload : WebhookPayload) (config : WebhookConfig) : WebhookValidationResult :=
  match validate_try payload config with
  | Normal r => r
  | Throw e =>
      {| isValid := false;
         validation_error :=
           Some (js "Validation error: " ++ message_or e (js "Unknown error"));
         validation_event := None |}
  end.

(** [WebhookValidator.generateSignature] *)
Definition WebhookValidator_generateSignature
    (payload secret : JsString) (method : SignatureMethod) : JsString :=
  generate (signatureValidators method) payload secret.

End Validator.

(* ===================================================================== *)
(** * The webhook processor ([webhooks/processor.ts]) *)
(* ===================================================================== *)

Inductive DeliveryStatus : Type := pending | delivered | failed | retrying.

Record WebhookRetryAttempt : Type := {
  attempt : Z;
  attempt_timestamp : Z;
  attempt_error : JsString;
  nextRetry : option Z;
}.

Record WebhookDelivery : Type := {
  id : JsString;
  url : JsString;
  delivery_event : JsString;
  delivery_payload : JsBody;
  delivery_headers : option (gmap JsString JsString);
  delivery_timestamp : Z;
  status : DeliveryStatus;
  attempts : list WebhookRetryAttempt;
}.

(** What one call reads from its surroundings: the clock ([Date.now()] and
    [new Date()], in milliseconds; the readings within one call are taken
    to be equal), the draw of [Math.random()] that enters the jitter, the
    base-36 rendering [Math.random().toString(36)] of the draw that enters
    a delivery id, and the state of the outside world that an event
    handler may consult. *)
Record Env : Type := {
  now : Z;
  random : Q;
  random36 : JsString;
  outside : nat;
}.

(** [WebhookHandler]: an asynchronous function that resolves to a result
    or rejects. *)
Definition WebhookHandler : Type :=
  WebhookPayload → IntegrationContext → Env → completion WebhookProcessingResult.

(** The fields of a processor.  [eventHandlers] holds the handlers
    registered with [on] (the properties that a JavaScript object inherits
    from [Object.prototype] are not modelled).  The [Map] of deliveries
    holds references: [deliveries] maps an id to the address in [heap] of
    the record that [set] stored under it, and a record is mutated at its
    address. *)
Record WebhookProcessor : Type := {
  eventHandlers : gmap JsString WebhookHandler;
  deliveries : gmap JsString nat;
  heap : list WebhookDelivery;
}.

(** A number in a template string, for integers: its decimal digits. *)
Definition decimal (z : Z) : JsString := js (pretty z).

(** [new Date(t)] keeps the integral part of [t]. *)
Definition Date_of (t : Q) : Z := Z.quot (Qnum t) (Zpos (Qden t)).

Section Processor.
Context `{Runtime}.

(** [new WebhookProcessor()] *)
Definition WebhookProcessor_new : WebhookProcessor :=
  {| eventHandlers := ∅; deliveries := ∅; heap := [] |}.

(** [on(event, handler)] *)
Definition on (event : JsString) (handler : WebhookHandler)
    (this : WebhookProcessor) : WebhookProcessor :=
  {| eventHandlers := <[event := handler]> (eventHandlers this);
     deliveries := deliveries this;
     heap := heap this |}.

(** [recordDelivery(delivery)]: the object literal passed in is a new
    object; the map entry of its id now refers to it. *)
Definition recordDelivery (delivery : WebhookDelivery)
    (this : WebhookProcessor) : WebhookProcessor :=
  {| eventHandlers := eventHandlers this;
     deliveries := <[id delivery := length (heap this)]> (deliveries this);
     heap := heap this ++ [delivery] |}.

(** [generateDeliveryId()] *)
Definition generateDeliveryId (env : Env) : JsString :=
  js "delivery_" ++ decimal (now env) ++ js "_" ++ substr 2 9 (random36 env).

(** [getDefaultRetryPolicy()] *)
Definition getDefaultRetryPolicy : RetryPolicy :=
  {| maxRetries := 3;
     backoffStrategy := exponential;
     baseDelay := 1000;
     maxDelay := 60000 |}.

(** [calculateRetryDelay(attempt, policy)]; [rnd] is the value that
    [Math.random()] returns in the exponential branch. *)
Definition calculateRetryDelay (attempt : nat) (policy : RetryPolicy) (rnd : Q) : Q :=
  match backoffStrategy policy with
  | linear =>
      Qmin (baseDelay policy * inject_Z (Z.of_nat attempt + 1)) (maxDelay policy)
  | exponential =>
      let exponentialDelay := (baseDelay policy * inject_Z (2 ^ Z.of_nat attempt))%Q in
      let jitter := (rnd * (1 # 10) * exponentialDelay)%Q in
      Qmin (exponentialDelay + jitter) (maxDelay policy)
  end.

(** [getDelivery(deliveryId)]: the address and the current contents of
    the record stored under the id. *)
Definition getDelivery (deliveryId : JsString) (this : WebhookProcessor)
    : option (nat * WebhookDelivery) :=
  l ← deliveries this !! deliveryId;
  d ← heap this !! l;
  Some (l, d).

(** An assignment to a field of the record at address [l], or a [push]
    to its [attempts]. *)
Definition mutate (l : nat) (f : WebhookDelivery → WebhookDelivery)
    (this : WebhookProcessor) : WebhookProcessor :=
  {| eventHandlers := eventHandlers this;
     deliveries := deliveries this;
     heap := alter f l (heap this) |}.

Definition set_status (s : DeliveryStatus) (d : WebhookDelivery) : WebhookDelivery :=
  {| id := id d; url := url d; delivery_event := delivery_event d;
     delivery_payload := delivery_payload d;
     delivery_headers := delivery_headers d;
     delivery_timestamp := delivery_timestamp d;
     status := s; attempts := attempts d |}.

Definition push_attempt (a : WebhookRetryAttempt) (d : WebhookDelivery) : WebhookDelivery :=
  {| id := id d; url := url d; delivery_event := delivery_event d;
     delivery_payload := delivery_payload d;
     delivery_headers := delivery_headers d;
     delivery_timestamp := delivery_timestamp d;
     status := status d; attempts := attempts d ++ [a] |}.

(** A failure result whose only content is its error. *)
Definition failure (e : IntegrationError) (retry : option bool) : WebhookProcessingResult :=
  {| success := false; event := None; error := Some e; shouldRetry := retry |}.

(** [result.error?.message || ""] *)
Definition error_message (result : WebhookProcessingResult) : JsString :=
  match error result with
  | Some e => message e
  | None => []
  end.

(** [process(payload, config, context)] *)
Definition process
    (payload : WebhookPayload) (config : WebhookConfig)
    (context : IntegrationContext) (env : Env) (this : WebhookProcessor)
    : completion WebhookProcessingResult * WebhookProcessor :=
  let validationResult := WebhookValidator_validate payload config in
  if negb (isValid validationResult) then
    (Normal (failure
       {| code := js "VALIDATION_FAILED";
          message := or_default (validation_error validationResult)
                       (js "Webhook validation failed");
          details := None;
          retryable := Some false |} None), this)
  else
    let event := validation_event validationResult in
    if negb (truthy event) then
      (Normal (failure
         {| code := js "NO_EVENT_TYPE";
            message := js "Could not determine event type from webhook payload";
            details := None;
            retryable := Some false |} None), this)
    else
      let event := default [] event in
      let handler :=
        match eventHandlers this !! event with
        | Some h => Some h
        | None => eventHandlers this !! js "*"
        end in
      match handler with
      | None =>
          (Normal (failure
             {| code := js "NO_HANDLER";
                message := js "No handler registered for event: " ++ event;
                details := None;
                retryable := Some false |} None), this)
      | Some handler =>
          match handler payload context env with
          | Normal result =>
              (Normal result,
               recordDelivery
                 {| id := generateDeliveryId env;
                    url := endpoint config;
                    delivery_event := event;
                    delivery_payload := body payload;
                    delivery_headers := headers payload;
                    delivery_timestamp := timestamp payload;
                    status := if success result then delivered else failed;
                    attempts :=
                      [{| attempt := 1;
                          attempt_timestamp := now env;
                          attempt_error := error_message result;
                          nextRetry := None |}] |} this)
          | Throw error =>
              let processingError :=
                {| code := js "PROCESSING_ERROR";
                   message := message_or error (js "Unknown processing error");
                   details := Some error;
                   retryable := Some true |} in
              (Normal (failure processingError (Some true)),
               recordDelivery
                 {| id := generateDeliveryId env;
                    url := endpoint config;
                    delivery_event := event;
                    delivery_payload := body payload;
                    delivery_headers := headers payload;
                    delivery_timestamp := timestamp payload;
                    status := failed;
                    attempts :=
                      [{| attempt := 1;
                          attempt_timestamp := now env;
                          attempt_error := message processingError;
                          nextRetry := None |}] |} this)
          end
      end.

(** [retry(deliveryId, payload, config, context)] *)
Definition retry
    (deliveryId : JsString) (payload : WebhookPayload) (config : WebhookConfig)
    (context : IntegrationContext) (env : Env) (this : WebhookProcessor)
    : WebhookProcessingResult * WebhookProcessor :=
  match getDelivery deliveryId this with
  | None =>
      (failure
         {| code := js "DELIVERY_NOT_FOUND";
            message := js "Delivery " ++ deliveryId ++ js " not found";
            details := None;
            retryable := Some false |} None, this)
  | Some (delivery, contents) =>
      let retryPolicy := default getDefaultRetryPolicy (retryPolicy config) in
      let attemptCount := length (attempts contents) in
      if (maxRetries retryPolicy <=? Z.of_nat attemptCount)%Z then
        (failure
           {| code := js "MAX_RETRIES_EXCEEDED";
              message := js "Maximum retry attempts ("
                           ++ decimal (maxRetries retryPolicy) ++ js ") exceeded";
              details := None;
              retryable := Some false |} None,
         mutate delivery (set_status failed) this)
      else
        let delay := calculateRetryDelay attemptCount retryPolicy (random env) in
        (* await this.sleep(delay) *)
        let this := mutate delivery (set_status retrying) this in
        match process payload config context env this with
        | (Normal result, this) =>
            let this :=
              mutate delivery
                (push_attempt
                   {| attempt := Z.of_nat attemptCount + 1;
                      attempt_timestamp := now env;
                      attempt_error := error_message result;
                      nextRetry :=
                        if default false (shouldRetry result)
                        then Some (Date_of (inject_Z (now env) + delay))
                        else None |}) this in
            let this :=
              if success result then mutate delivery (set_status delivered) this
              else if negb (default false (shouldRetry result))
                   then mutate delivery (set_status failed) this
                   else this in
            (result, this)
        | (Throw error, this) =>
            let retryError :=
              {| code := js "RETRY_FAILED";
                 message := message_or error (js "Retry failed");
                 details := None;
                 retryable :=
                   Some (bool_decide (Z.of_nat attemptCount < maxRetries retryPolicy - 1)%Z) |} in
            let this :=
              mutate delivery
                (push_attempt
                   {| attempt := Z.of_nat attemptCount + 1;
                      attempt_timestamp := now env;
                      attempt_error := message retryError;
                      nextRetry :=
                        if default false (retryable retryError)
                        then Some (Date_of (inject_Z (now env) + delay))
                        else None |}) this in
            (failure retryError (retryable retryError), this)
        end
  end.

End Processor.

(* ===================================================================== *)
(** * OAuth providers ([oauth/types.ts], [oauth/provider.ts],
      [oauth/providers/*.ts]) *)
(* ===================================================================== *)

Record OAuthConfig : Type := {
  clientId : JsString;
  clientSecret : option JsString;
  redirectUri : JsString;
  scopes : list JsString;
  authUrl : option JsString;
  tokenUrl : option JsString;
  userInfoUrl : option JsString;
  usePKCE : option bool;
}.

(** The metadata bag, which the providers do not read, is left out. *)
Record OAuthState : Type := {
  state : JsString;
  codeVerifier : option JsString;
  state_redirectUri : JsString;
  state_scopes : list JsString;
  state_userId : option JsString;
}.

Record OAuthAuthorizationResult : Type := {
  authorizationUrl : JsString;
  result_state : JsString;
  result_codeVerifier : option JsString;
}.

Record OAuthTokens : Type := {
  accessToken : option JsString;
  refreshToken : option JsString;
  expiresAt : option Z;
  tokenType : option JsString;
  scope : option JsString;
}.

Record PKCEChallenge : Type := {
  pkce_codeVerifier : JsString;
  codeChallenge : JsString;
  codeChallengeMethod : JsString;
}.

(** The body of a token endpoint's JSON response. *)
Record TokenResponse : Type := {
  access_token : option JsString;
  refresh_token : option JsString;
  expires_in : option Z;
  token_type : option JsString;
  response_scope : option JsString;
}.

(** [OAuthTokenResult]: the tokens and, if it was fetched, the body of the
    user-info response. *)
Record OAuthTokenResult : Type := {
  result_tokens : OAuthTokens;
  result_userInfo : option TokenResponse;
}.

(** A request sent through the provider's HTTP client. *)
Inductive HttpRequest : Type :=
| Post (target : JsString) (fields : list (JsString * option JsString))
| Get (target : JsString) (authorization : JsString).

(** The surroundings of the OAuth code: the operating system's random
    source (an endless sequence of bytes and how many were drawn), the
    requests sent so far, the remote side's answer to the latest request,
    and the clock. *)
Record World : Type := {
  entropy : nat → byte;
  drawn : nat;
  requests : list HttpRequest;
  server : list HttpRequest → completion TokenResponse;
  clock : Z;
  clock36 : JsString;
  math_random36 : JsString;
}.

(** A computation that may read and change the surroundings and may throw. *)
Definition IO (A : Type) : Type := World → completion A * World.

Definition io_ret {A} (a : A) : IO A := λ w, (Normal a, w).
Definition io_throw {A} (e : JsThrown) : IO A := λ w, (Throw e, w).
Definition io_bind {A B} (m : IO A) (k : A → IO B) : IO B :=
  λ w, match m w with
       | (Normal a, w') => k a w'
       | (Throw e, w') => (Throw e, w')
       end.
(** [try { m } catch (error) { h error }] *)
Definition io_catch {A} (m : IO A) (h : JsThrown → IO A) : IO A :=
  λ w, match m w with
       | (Normal a, w') => (Normal a, w')
       | (Throw e, w') => h e w'
       end.
Definition io_lift {A} (c : completion A) : IO A := λ w, (c, w).

Notation "x <~ m ;; k" := (io_bind m (λ x, k))
  (at level 100, m at next level, right associativity).

(** [crypto.randomBytes(n)] *)
Definition randomBytes (n : nat) : IO (list byte) :=
  λ w, (Normal (entropy w <$> seq (drawn w) n),
        {| entropy := entropy w; drawn := drawn w + n;
           requests := requests w; server := server w;
           clock := clock w; clock36 := clock36 w;
           math_random36 := math_random36 w |}).

(** [this.httpClient.post(...)] and [this.httpClient.get(...)]: the request
    goes out, then the answer comes back or the call rejects. *)
Definition http (request : HttpRequest) : IO TokenResponse :=
  λ w, let sent := requests w ++ [request] in
       (server w sent,
        {| entropy := entropy w; drawn := drawn w;
           requests := sent; server := server w;
           clock := clock w; clock36 := clock36 w;
           math_random36 := math_random36 w |}).

Inductive ProviderClass : Type :=
| GitHubOAuth | VercelOAuth | NetlifyOAuth | SlackOAuth | CustomOAuth.

(** An instance of a subclass of the abstract class [OAuthProvider]. *)
Record OAuthProvider : Type := {
  class : ProviderClass;
  provider_name : JsString;
  provider_config : OAuthConfig;
}.

Section OAuth.
Context `{Runtime}.

(** [{ ...config, authUrl: config.authUrl || a, tokenUrl: config.tokenUrl
    || t, userInfoUrl: config.userInfoUrl || u }] *)
Definition with_default_urls (config : OAuthConfig) (a t u : JsString) : OAuthConfig :=
  {| clientId := clientId config;
     clientSecret := clientSecret config;
     redirectUri := redirectUri config;
     scopes := scopes config;
     authUrl := Some (or_default (authUrl config) a);
     tokenUrl := Some (or_default (tokenUrl config) t);
     userInfoUrl := Some (or_default (userInfoUrl config) u);
     usePKCE := usePKCE config |}.

(** [new GitHubOAuth(config)] *)
Definition GitHubOAuth_new (config : OAuthConfig) : IO OAuthProvider :=
  io_ret {| class := GitHubOAuth; provider_name := js "github";
            provider_config :=
              with_default_urls config
                (js "https://github.com/login/oauth/authorize")
                (js "https://github.com/login/oauth/access_token")
                (js "https://api.github.com/user") |}.

(** [new VercelOAuth(config)] *)
Definition VercelOAuth_new (config : OAuthConfig) : IO OAuthProvider :=
  io_ret {| class := VercelOAuth; provider_name := js "vercel";
            provider_config :=
              with_default_urls config
                (js "https://vercel.com/oauth/authorize")
                (js "https://api.vercel.com/v2/oauth/access_token")
                (js "https://api.vercel.com/v2/user") |}.

(** [new NetlifyOAuth(config)] *)
Definition NetlifyOAuth_new (config : OAuthConfig) : IO OAuthProvider :=
  io_ret {| class := NetlifyOAuth; provider_name := js "netlify";
            provider_config :=
              with_default_urls config
                (js "https://app.netlify.com/authorize")
                (js "https://api.netlify.com/oauth/token")
                (js "https://api.netlify.com/api/v1/user") |}.

(** [new SlackOAuth(config)] *)
Definition SlackOAuth_new (config : OAuthConfig) : IO OAuthProvider :=
  io_ret {| class := SlackOAuth; provider_name := js "slack";
            provider_config :=
              with_default_urls config
                (js "https://slack.com/oauth/v2/authorize")
                (js "https://slack.com/api/oauth.v2.access")
                (js "https://slack.com/api/users.identity") |}.

(** [new CustomOAuth(name, config)]: the check comes before [super]. *)
Definition CustomOAuth_new (name : JsString) (config : OAuthConfig) : IO OAuthProvider :=
  if negb (truthy (authUrl config)) || negb (truthy (tokenUrl config)) then
    io_throw (ErrorObject "Error"
                (js "Custom OAuth provider requires authUrl and tokenUrl"))
  else
    io_ret {| class := CustomOAuth; provider_name := name;
              provider_config := config |}.

(** [generateState()] of the provider base class *)
Definition generateState : IO JsString :=
  bytes <~ randomBytes 16;;
  io_ret (toString_hex bytes).

(** [generatePKCEChallenge()] *)
Definition generatePKCEChallenge : IO PKCEChallenge :=
  bytes <~ randomBytes 32;;
  let codeVerifier := toString_base64url bytes in
  let codeChallenge :=
    toString_base64url (hash_digest sha256 (Buffer_from codeVerifier)) in
  io_ret {| pkce_codeVerifier := codeVerifier;
            codeChallenge := codeChallenge;
            codeChallengeMethod := js "S256" |}.

(** [buildAuthUrl(baseUrl, params)]; [params] in insertion order. *)
Definition buildAuthUrl (baseUrl : JsString) (params : list (JsString * JsString))
    : IO JsString :=
  url <~ io_lift (URL_new baseUrl);;
  io_ret (URL_toString
            (foldl (λ u '(key, value), searchParams_append u key value) url params)).

(** [this.config.authUrl!]: an absent value reaches [new URL] as
    [undefined]. *)
Definition authUrl_of (this : OAuthProvider) : JsString :=
  default (js "undefined") (authUrl (provider_config this)).

(** The five parameters every provider starts from. *)
Definition base_params (this : OAuthProvider) (st : OAuthState)
    (sep authState : JsString) : list (JsString * JsString) :=
  [(js "client_id", clientId (provider_config this));
   (js "redirect_uri", state_redirectUri st);
   (js "scope", join sep (state_scopes st));
   (js "state", authState);
   (js "response_type", js "code")].

(** [getAuthorizationUrl] of [GitHubOAuth] and of [CustomOAuth], whose
    bodies are the same: optional PKCE. *)
Definition getAuthorizationUrl_pkce (this : OAuthProvider) (st : OAuthState)
    : IO OAuthAuthorizationResult :=
  authState <~ generateState;;
  let params := base_params this st (js " ") authState in
  if default false (usePKCE (provider_config this)) then
    pkce <~ generatePKCEChallenge;;
    let params :=
      params ++ [(js "code_challenge", codeChallenge pkce);
                 (js "code_challenge_method", codeChallengeMethod pkce)] in
    authorizationUrl <~ buildAuthUrl (authUrl_of this) params;;
    io_ret {| authorizationUrl := authorizationUrl;
              result_state := authState;
              result_codeVerifier := Some (pkce_codeVerifier pkce) |}
  else
    authorizationUrl <~ buildAuthUrl (authUrl_of this) params;;
    io_ret {| authorizationUrl := authorizationUrl;
              result_state := authState;
              result_codeVerifier := None |}.

(** [getAuthorizationUrl] of [VercelOAuth], [NetlifyOAuth] (scopes joined
    by a space) and [SlackOAuth] (by a comma). *)
Definition getAuthorizationUrl_plain (sep : JsString)
    (this : OAuthProvider) (st : OAuthState) : IO OAuthAuthorizationResult :=
  authState <~ generateState;;
  let params := base_params this st sep authState in
  authorizationUrl <~ buildAuthUrl (authUrl_of this) params;;
  io_ret {| authorizationUrl := authorizationUrl;
            result_state := authState;
            result_codeVerifier := None |}.

(** [provider.getAuthorizationUrl(state)], by the provider's class. *)
Definition getAuthorizationUrl (this : OAuthProvider) (st : OAuthState)
    : IO OAuthAuthorizationResult :=
  match class this with
  | GitHubOAuth | CustomOAuth => getAuthorizationUrl_pkce this st
  | VercelOAuth | NetlifyOAuth => getAuthorizationUrl_plain (js " ") this st
  | SlackOAuth => getAuthorizationUrl_plain (js ",") this st
  end.

(** [parseTokenResponse(data)] *)
Definition parseTokenResponse (data : TokenResponse) (w : World) : OAuthTokens :=
  {| accessToken := access_token data;
     refreshToken := refresh_token data;
     expiresAt :=
       match expires_in data with
       | Some s => if (s =? 0)%Z then None else Some (clock w + s * 1000)%Z
       | None => None
       end;
     tokenType := Some (or_default (token_type data) (js "Bearer"));
     scope := response_scope data |}.

(** [refreshTokens(refreshToken)] of the provider base class *)
Definition refreshTokens (this : OAuthProvider) (refreshToken : JsString)
    : IO OAuthTokens :=
  if negb (truthy (tokenUrl (provider_config this))) then
    io_throw (ErrorObject "Error"
                (js "Token URL not configured for " ++ provider_name this
                   ++ js " provider"))
  else
    response <~
      http (Post (default [] (tokenUrl (provider_config this)))
              [(js "grant_type", Some (js "refresh_token"));
               (js "refresh_token", Some refreshToken);
               (js "client_id", Some (clientId (provider_config this)));
               (js "client_secret", clientSecret (provider_config this))]);;
    λ w, (Normal (parseTokenResponse response w), w).

(** [parseTokenResponse(data)] as a step of a computation: it reads the
    clock. *)
Definition parsed (data : TokenResponse) : IO OAuthTokens :=
  λ w, (Normal (parseTokenResponse data w), w).

(** [createAuthHeaders(tokens)]: the value of the one header it builds,
    [Authorization].  An absent access token appears as [undefined]. *)
Definition createAuthHeaders (tokens : OAuthTokens) : JsString :=
  or_default (tokenType tokens) (js "Bearer") ++ js " "
    ++ default (js "undefined") (accessToken tokens).

(** [this.config.tokenUrl!] and [this.config.userInfoUrl!] where a request
    is sent to them.  The constructors of the provider classes make the
    token URL present, and all but [CustomOAuth] the user-info URL. *)
Definition tokenUrl_of (this : OAuthProvider) : JsString :=
  default [] (tokenUrl (provider_config this)).

Definition userInfoUrl_of (this : OAuthProvider) : JsString :=
  default [] (userInfoUrl (provider_config this)).

(** [validateTokens(tokens)] of the provider base class.  [getUserInfo]
    is abstract there: it stands for the method of the subclass. *)
Definition validateTokens {A} (getUserInfo : OAuthTokens → IO A)
    (tokens : OAuthTokens) : IO bool :=
  io_catch
    (λ w,
       let expired :=
         match expiresAt tokens with
         | Some t => (t <=? clock w)%Z
         | None => false
         end in
       if expired then io_ret false w
       else (_ <~ getUserInfo tokens;; io_ret true) w)
    (λ _, io_ret false).

(** [getUserInfo(tokens)] of [GitHubOAuth] and of [NetlifyOAuth]: the
    body of the response, whatever it holds. *)
Definition GitHubOAuth_getUserInfo (this : OAuthProvider) (tokens : OAuthTokens)
    : IO TokenResponse :=
  http (Get (userInfoUrl_of this) (createAuthHeaders tokens)).

Definition NetlifyOAuth_getUserInfo (this : OAuthProvider) (tokens : OAuthTokens)
    : IO TokenResponse :=
  http (Get (userInfoUrl_of this) (createAuthHeaders tokens)).

(** [getUserInfo(tokens)] of [CustomOAuth] *)
Definition CustomOAuth_getUserInfo (this : OAuthProvider) (tokens : OAuthTokens)
    : IO TokenResponse :=
  if negb (truthy (userInfoUrl (provider_config this))) then
    io_throw (ErrorObject "Error"
                (js "User info URL not configured for custom provider"))
  else
    http (Get (userInfoUrl_of this) (createAuthHeaders tokens)).

(** [exchangeCodeForTokens(code, state)] of [GitHubOAuth] *)
Definition GitHubOAuth_exchangeCodeForTokens (this : OAuthProvider)
    (code : JsString) (st : OAuthState) : IO OAuthTokenResult :=
  let tokenParams :=
    [(js "client_id", Some (clientId (provider_config this)));
     (js "client_secret", clientSecret (provider_config this));
     (js "code", Some code);
     (js "redirect_uri", Some (state_redirectUri st))]
    ++ (if truthy (codeVerifier st)
        then [(js "code_verifier", codeVerifier st)] else []) in
  response <~ http (Post (tokenUrl_of this) tokenParams);;
  tokens <~ parsed response;;
  userInfo <~ GitHubOAuth_getUserInfo this tokens;;
  io_ret {| result_tokens := tokens; result_userInfo := Some userInfo |}.

(** [exchangeCodeForTokens(code, state)] of [NetlifyOAuth] *)
Definition NetlifyOAuth_exchangeCodeForTokens (this : OAuthProvider)
    (code : JsString) (st : OAuthState) : IO OAuthTokenResult :=
  let tokenParams :=
    [(js "client_id", Some (clientId (provider_config this)));
     (js "client_secret", clientSecret (provider_config this));
     (js "code", Some code);
     (js "redirect_uri", Some (state_redirectUri st));
     (js "grant_type", Some (js "authorization_code"))] in
  response <~ http (Post (tokenUrl_of this) tokenParams);;
  tokens <~ parsed response;;
  userInfo <~ NetlifyOAuth_getUserInfo this tokens;;
  io_ret {| result_tokens := tokens; result_userInfo := Some userInfo |}.

(** [exchangeCodeForTokens(code, state)] of [CustomOAuth] *)
Definition CustomOAuth_exchangeCodeForTokens (this : OAuthProvider)
    (code : JsString) (st : OAuthState) : IO OAuthTokenResult :=
  let tokenParams :=
    [(js "grant_type", Some (js "authorization_code"));
     (js "client_id", Some (clientId (provider_config this)));
     (js "code", Some code);
     (js "redirect_uri", Some (state_redirectUri st))]
    ++ (if negb (default false (usePKCE (provider_config this)))
           && truthy (clientSecret (provider_config this))
        then [(js "client_secret", clientSecret (provider_config this))] else [])
    ++ (if truthy (codeVerifier st)
        then [(js "code_verifier", codeVerifier st)] else []) in
  response <~ http (Post (tokenUrl_of this) tokenParams);;
  tokens <~ parsed response;;
  if truthy (userInfoUrl (provider_config this)) then
    userInfo <~ CustomOAuth_getUserInfo this tokens;;
    io_ret {| result_tokens := tokens; result_userInfo := Some userInfo |}
  else
    io_ret {| result_tokens := tokens; result_userInfo := None |}.

End OAuth.


(* ===================================================================== *)
(** * The integration façade ([integration.ts]): OAuth set-up *)
(* ===================================================================== *)

Inductive SupportedProvider : Type :=
| github | vercel | netlify | slack | discord | custom.

Record IntegrationConfig : Type := {
  name : JsString;
  version : JsString;
  provider : SupportedProvider;
  oauth : option OAuthConfig;
  webhooks : option WebhookConfig;
}.

Inductive IntegrationEvent : Type :=
| oauth_authorized | oauth_refreshed | oauth_revoked
| webhook_received | webhook_failed.

(** What calling a subscriber does: it returns (a value or a promise that
    settles either way), or it throws before returning. *)
Inductive SubscriberOutcome : Type :=
| Returned
| ReturnedRejection (e : JsThrown)
| Threw (e : JsThrown).

(** [EventHandler], for the data that [initializeOAuth] emits. *)
Definition EventHandler : Type :=
  IntegrationEvent → OAuthAuthorizationResult → IntegrationContext → SubscriberOutcome.

(** The fields of an [Integration].  A missing entry of the handler map
    and an empty array behave alike. *)
Record Integration : Type := {
  config : IntegrationConfig;
  oauthProvider : option OAuthProvider;
  integration_eventHandlers : IntegrationEvent → list EventHandler;
}.

(** [IntegrationResult<{ authUrl: string; state: string }>] *)
Record AuthorizationData : Type := {
  data_authUrl : JsString;
  data_state : JsString;
}.

Record IntegrationResult : Type := {
  result_success : bool;
  result_data : option AuthorizationData;
  result_error : option IntegrationError;
}.

Section Integration.
Context `{Runtime}.

(** [initializeOAuthProvider()] (private): the provider object for the
    configuration, if it has an [oauth] part. *)
Definition initializeOAuthProvider (config : IntegrationConfig) : IO (option OAuthProvider) :=
  match oauth config with
  | None => io_ret None
  | Some o =>
      match provider config with
      | github => p <~ GitHubOAuth_new o;; io_ret (Some p)
      | vercel => p <~ VercelOAuth_new o;; io_ret (Some p)
      | netlify => p <~ NetlifyOAuth_new o;; io_ret (Some p)
      | slack => p <~ SlackOAuth_new o;; io_ret (Some p)
      | custom => p <~ CustomOAuth_new (name config) o;; io_ret (Some p)
      | discord =>
          io_throw (ErrorObject "Error" (js "Unsupported OAuth provider: discord"))
      end
  end.

(** [generateState()] of [Integration] (private):
    [Math.random().toString(36).substring(2) + Date.now().toString(36)] *)
Definition Integration_generateState : IO JsString :=
  λ w, (Normal (drop 2 (math_random36 w) ++ clock36 w), w).

(** The [handlers.map(...)] of [emitEvent]: the subscribers are called in
    order; a rejection is caught and logged, a [throw] leaves the loop. *)
Fixpoint call_subscribers (handlers : list EventHandler)
    (event : IntegrationEvent) (data : OAuthAuthorizationResult)
    (context : IntegrationContext) : completion unit :=
  match handlers with
  | [] => Normal ()
  | handler :: rest =>
      match handler event data context with
      | Returned | ReturnedRejection _ => call_subscribers rest event data context
      | Threw e => Throw e
      end
  end.

(** [emitEvent(event, data, context)] (private) *)
Definition emitEvent (event : IntegrationEvent) (data : OAuthAuthorizationResult)
    (context : IntegrationContext) (this : Integration) : IO unit :=
  io_lift (call_subscribers (integration_eventHandlers this event) event data context).

(** [initializeOAuth(context)] *)
Definition initializeOAuth (context : IntegrationContext) (this : Integration)
    : IO IntegrationResult :=
  match oauth (config this), oauthProvider this with
  | Some oauth, Some oauthProvider =>
      io_catch
        (st <~ Integration_generateState;;
         result <~ getAuthorizationUrl oauthProvider
                     {| state := st;
                        codeVerifier := None;
                        state_redirectUri := redirectUri oauth;
                        state_scopes := scopes oauth;
                        state_userId := userId context |};;
         _ <~ emitEvent oauth_authorized result context this;;
         io_ret {| result_success := true;
                   result_data :=
                     Some {| data_authUrl := authorizationUrl result;
                             data_state := result_state result |};
                   result_error := None |})
        (λ error,
           io_ret {| result_success := false;
                     result_data := None;
                     result_error :=
                       Some {| code := js "OAUTH_INIT_FAILED";
                               message :=
                                 message_or error (js "OAuth initialization failed");
                               details := Some error;
                               retryable := Some true |} |})
  | _, _ =>
      io_ret {| result_success := false;
                result_data := None;
                result_error :=
                  Some {| code := js "OAUTH_NOT_CONFIGURED";
                          message := js "OAuth is not configured for this integration";
                          details := None;
                          retryable := Some false |} |}
  end.

End Integration.

(* ===================================================================== *)
(** * Subscribers to integration events *)
(* ===================================================================== *)

#[global] Instance IntegrationEvent_eq_dec : EqDecision IntegrationEvent.
Proof. solve_decision. Defined.

(** [EventHandler<T>]: a subscriber that is handed data of type [D]. *)
Definition Subscriber (D : Type) : Type :=
  IntegrationEvent → D → IntegrationContext → SubscriberOutcome.

(** The [handlers.map(...)] of the two [emitEvent] methods, for any data:
    the subscribers are called in order; a rejection is caught and logged,
    a [throw] leaves the loop. *)
Fixpoint notify {D} (handlers : list (Subscriber D)) (event : IntegrationEvent)
    (data : D) (context : IntegrationContext) : completion unit :=
  match handlers with
  | [] => Normal ()
  | handler :: rest =>
      match handler event data context with
      | Returned | ReturnedRejection _ => notify rest event data context
      | Threw e => Throw e
      end
  end.

(** [on(event, handler)] of [WebhookManager] and of [Integration], on the
    map from an event to its subscribers.  An event without an entry and
    an event with an empty array behave alike. *)
Definition subscribe {D} (event : IntegrationEvent) (handler : Subscriber D)
    (handlers : IntegrationEvent → list (Subscriber D))
    : IntegrationEvent → list (Subscriber D) :=
  λ e, if decide (e = event) then handlers e ++ [handler] else handlers e.

(* ===================================================================== *)
(** * The webhook manager ([webhooks/manager.ts]) *)
(* ===================================================================== *)

(** What the manager hands to the subscribers of [webhook.received] and of
    [webhook.failed]. *)
Inductive WebhookEventData : Type :=
| Received (event : JsString)
| Failed (error : option IntegrationError).

(** The fields of a manager (the validator has no state). *)
Record WebhookManager : Type := {
  processor : WebhookProcessor;
  configs : gmap JsString WebhookConfig;
  manager_eventHandlers : IntegrationEvent → list (Subscriber WebhookEventData);
}.

Section Manager.
Context `{Runtime}.

(** [new WebhookManager()] *)
Definition WebhookManager_new : WebhookManager :=
  {| processor := WebhookProcessor_new;
     configs := ∅;
     manager_eventHandlers := λ _, [] |}.

(** [register(integrationId, config)] *)
Definition register (integrationId : JsString) (config : WebhookConfig)
    (this : WebhookManager) : WebhookManager :=
  {| processor := processor this;
     configs := <[integrationId := config]> (configs this);
     manager_eventHandlers := manager_eventHandlers this |}.

(** [unregister(integrationId)] *)
Definition unregister (integrationId : JsString) (this : WebhookManager) : WebhookManager :=
  {| processor := processor this;
     configs := delete integrationId (configs this);
     manager_eventHandlers := manager_eventHandlers this |}.

(** [getConfig(integrationId)] *)
Definition getConfig (integrationId : JsString) (this : WebhookManager)
    : option WebhookConfig :=
  configs this !! integrationId.

(** [onWebhookEvent(event, handler)] *)
Definition onWebhookEvent (event : JsString) (handler : WebhookHandler)
    (this : WebhookManager) : WebhookManager :=
  {| processor := on event handler (processor this);
     configs := configs this;
     manager_eventHandlers := manager_eventHandlers this |}.

(** [on(event, handler)] of the manager *)
Definition WebhookManager_on (event : IntegrationEvent)
    (handler : Subscriber WebhookEventData) (this : WebhookManager) : WebhookManager :=
  {| processor := processor this;
     configs := configs this;
     manager_eventHandlers := subscribe event handler (manager_eventHandlers this) |}.

(** [getDelivery(deliveryId)] of the manager *)
Definition WebhookManager_getDelivery (deliveryId : JsString) (this : WebhookManager)
    : option (nat * WebhookDelivery) :=
  getDelivery deliveryId (processor this).

(** [normalizeHeaders(headers)] (private).  The argument is the list that
    [Object.entries(headers)] yields, whose keys are distinct.  Objects
    used as maps are finite maps here: what a lookup would find on
    [Object.prototype], and the key [__proto__], are left aside. *)
Definition normalizeHeaders (entries : list (JsString * JsString))
    : gmap JsString JsString :=
  foldl (λ normalized '(key, value), <[toLowerCase key := value]> normalized)
        ∅ entries.

(** [extractSignature(headers, config)] (private) *)
Definition extractSignature
    (hdrs : gmap JsString JsString) (config : WebhookConfig) : option JsString :=
  let signatureHeader := or_default (signatureHeader config) (js "x-hub-signature-256") in
  hdrs !! toLowerCase signatureHeader.

(** [emitEvent(event, data, context)] of the manager (private) *)
Definition WebhookManager_emitEvent (event : IntegrationEvent)
    (data : WebhookEventData) (context : IntegrationContext)
    (this : WebhookManager) : completion unit :=
  notify (manager_eventHandlers this event) event data context.

(** The payload that [handleWebhook] builds: the headers normalised, the
    signature read from the headers as they came. *)
Definition received_payload (rawHeaders : list (JsString * JsString))
    (body : JsBody) (rawBody : RawBody) (config : WebhookConfig) (env : Env)
    : WebhookPayload :=
  {| headers := Some (normalizeHeaders rawHeaders);
     body := body;
     rawBody := rawBody;
     timestamp := now env;
     signature := extractSignature (list_to_map rawHeaders) config |}.

(** [handleWebhook(integrationId, headers, body, rawBody, context)];
    [rawHeaders] are the entries of [headers]. *)
Definition WebhookManager_handleWebhook
    (integrationId : JsString) (rawHeaders : list (JsString * JsString))
    (body : JsBody) (rawBody : RawBody) (context : IntegrationContext)
    (env : Env) (this : WebhookManager)
    : completion WebhookProcessingResult * WebhookManager :=
  match configs this !! integrationId with
  | None =>
      (Normal (failure
         {| code := js "NO_CONFIG";
            message := js "No webhook configuration found for integration: "
                         ++ integrationId;
            details := None;
            retryable := Some false |} None), this)
  | Some config =>
      let payload := received_payload rawHeaders body rawBody config env in
      let processed := process payload config context env (processor this) in
      let this :=
        {| processor := processed.2;
           configs := configs this;
           manager_eventHandlers := manager_eventHandlers this |} in
      (bind processed.1 (λ result,
         bind
           (if success result && truthy (event result) then
              WebhookManager_emitEvent webhook_received
                (Received (default [] (event result))) context this
            else if negb (success result) then
              WebhookManager_emitEvent webhook_failed
                (Failed (error result)) context this
            else Normal ())
           (λ _, Normal result)),
       this)
  end.

(** [validateSignature(integrationId, payload, signature)]: compares the
    two strings with [===]. *)
Definition WebhookManager_validateSignature
    (integrationId payload signature : JsString) (this : WebhookManager) : bool :=
  match configs this !! integrationId with
  | None => false
  | Some config =>
      if negb (truthy (secret config)) then false
      else
        let expectedSignature :=
          WebhookValidator_generateSignature payload (default [] (secret config))
            (default hmac_sha256 (signatureMethod config)) in
        bool_decide (expectedSignature = signature)
  end.

(** [generateSignature(integrationId, payload)] *)
Definition WebhookManager_generateSignature
    (integrationId payload : JsString) (this : WebhookManager) : option JsString :=
  match configs this !! integrationId with
  | None => None
  | Some config =>
      if negb (truthy (secret config)) then None
      else
        Some (WebhookValidator_generateSignature payload (default [] (secret config))
                (default hmac_sha256 (signatureMethod config)))
  end.

End Manager.

(* ===================================================================== *)
(** * The integration façade ([integration.ts]): construction, token
      exchange, refresh and webhooks *)
(* ===================================================================== *)

(** What an [Integration] hands to its subscribers: the result of
    [getAuthorizationUrl] ([initializeOAuth]), the tokens and the user
    ([completeOAuth]), the new tokens ([refreshTokens]). *)
Inductive IntegrationEventData : Type :=
| AuthorizationIssued (result : OAuthAuthorizationResult)
| TokensIssued (result : OAuthTokenResult)
| TokensRefreshed (tokens : OAuthTokens).

(** All the fields of an [Integration]. *)
Record IntegrationInstance : Type := {
  instance_config : IntegrationConfig;
  instance_oauthProvider : option OAuthProvider;
  webhookManager : WebhookManager;
  instance_eventHandlers : IntegrationEvent → list (Subscriber IntegrationEventData);
}.

(** The part of an instance that [initializeOAuth] reads. *)
Definition as_Integration (this : IntegrationInstance) : Integration :=
  {| config := instance_config this;
     oauthProvider := instance_oauthProvider this;
     integration_eventHandlers := λ event,
       (λ (handler : Subscriber IntegrationEventData) e result context,
          handler e (AuthorizationIssued result) context)
         <$> instance_eventHandlers this event |}.

(** [IntegrationResult<T>] *)
Record IntegrationResultOf (D : Type) : Type := {
  outcome_success : bool;
  outcome_data : option D;
  outcome_error : option IntegrationError;
}.
Global Arguments outcome_success {D} _.
Global Arguments outcome_data {D} _.
Global Arguments outcome_error {D} _.

(** [\d] *)
Definition is_digit (c : N) : bool := (48 <=? c) && (c <=? 57).

(** The pieces of a string between the occurrences of [sep]. *)
Fixpoint split_on (sep : N) (s : JsString) : list JsString :=
  match s with
  | [] => [[]]
  | c :: rest =>
      if c =? sep then [] :: split_on sep rest
      else
        match split_on sep rest with
        | piece :: pieces => (c :: piece) :: pieces
        | [] => [[c]]
        end
  end.

(** [/^\d+\.\d+\.\d+$/.test(s)] *)
Definition is_version (s : JsString) : bool :=
  match split_on 46 s with
  | [a; b; c] =>
      forallb (λ piece, (0 <? length piece)%nat && forallb is_digit piece) [a; b; c]
  | _ => false
  end.

Section Facade.
Context `{Runtime}.

(** [z.string().url()]: the string is accepted by [new URL]. *)
Definition is_url (s : JsString) : bool :=
  match URL_new s with
  | Normal _ => true
  | Throw _ => false
  end.

(** [schema.optional()] *)
Definition optional {A} (check : A → bool) (value : option A) : bool :=
  from_option check true value.

(** The schema of a retry policy. *)
Definition RetryPolicy_safeParse (policy : RetryPolicy) : bool :=
  (0 <=? maxRetries policy)%Z && (maxRetries policy <=? 10)%Z
  && Qle_bool 100 (baseDelay policy) && Qle_bool 1000 (maxDelay policy).

(** [IntegrationConfigSchema.safeParse(config).success], for a
    configuration without [description] and without an [api] part. *)
Definition IntegrationConfigSchema_safeParse (config : IntegrationConfig) : bool :=
  (0 <? length (name config))%nat
  && is_version (version config)
  && optional
       (λ o, is_url (redirectUri o)
             && optional is_url (authUrl o)
             && optional is_url (tokenUrl o)
             && optional is_url (userInfoUrl o))
       (oauth config)
  && optional
       (λ c, is_url (endpoint c) && optional RetryPolicy_safeParse (retryPolicy c))
       (webhooks config).

(** [initializeWebhooks()] (private) *)
Definition initializeWebhooks (config : IntegrationConfig) (manager : WebhookManager)
    : WebhookManager :=
  match webhooks config with
  | None => manager
  | Some c => register (name config) c manager
  end.

(** [new Integration(config)].  [issues] is the text that the validation
    library gives for what it found wrong. *)
Definition Integration_new (issues : JsString) (config : IntegrationConfig)
    : IO IntegrationInstance :=
  if negb (IntegrationConfigSchema_safeParse config) then
    io_throw (ErrorObject "Error"
                (js "Invalid integration configuration: " ++ issues))
  else
    oauthProvider <~ initializeOAuthProvider config;;
    io_ret {| instance_config := config;
              instance_oauthProvider := oauthProvider;
              webhookManager := initializeWebhooks config WebhookManager_new;
              instance_eventHandlers := λ _, [] |}.

(** [on(event, handler)] of [Integration] *)
Definition Integration_on (event : IntegrationEvent)
    (handler : Subscriber IntegrationEventData) (this : IntegrationInstance)
    : IntegrationInstance :=
  {| instance_config := instance_config this;
     instance_oauthProvider := instance_oauthProvider this;
     webhookManager := webhookManager this;
     instance_eventHandlers := subscribe event handler (instance_eventHandlers this) |}.

(** [emitEvent(event, data, context)] of [Integration] (private), for any
    of the data it is called with. *)
Definition Integration_emitEvent (event : IntegrationEvent)
    (data : IntegrationEventData) (context : IntegrationContext)
    (this : IntegrationInstance) : IO unit :=
  io_lift (notify (instance_eventHandlers this event) event data context).

(** The result of the OAuth operations on an integration without OAuth. *)
Definition oauth_not_configured {D} : IntegrationResultOf D :=
  {| outcome_success := false;
     outcome_data := None;
     outcome_error :=
       Some {| code := js "OAUTH_NOT_CONFIGURED";
               message := js "OAuth is not configured for this integration";
               details := None;
               retryable := Some false |} |}.

(** [completeOAuth(code, state, context)].  The call
    [this.oauthProvider.exchangeCodeForTokens] is dispatched on the class
    of the provider: [exchangeCodeForTokens] stands for the method of that
    class. *)
Definition completeOAuth
    (exchangeCodeForTokens : OAuthProvider → JsString → OAuthState → IO OAuthTokenResult)
    (code st : JsString) (context : IntegrationContext) (this : IntegrationInstance)
    : IO (IntegrationResultOf OAuthTokenResult) :=
  match oauth (instance_config this), instance_oauthProvider this with
  | Some oauth, Some oauthProvider =>
      io_catch
        (let oauthState :=
           {| state := st;
              codeVerifier := None;
              state_redirectUri := redirectUri oauth;
              state_scopes := scopes oauth;
              state_userId := userId context |} in
         result <~ exchangeCodeForTokens oauthProvider code oauthState;;
         _ <~ Integration_emitEvent oauth_authorized (TokensIssued result) context this;;
         io_ret {| outcome_success := true;
                   outcome_data := Some result;
                   outcome_error := None |})
        (λ error,
           io_ret {| outcome_success := false;
                     outcome_data := None;
                     outcome_error :=
                       Some {| code := js "OAUTH_EXCHANGE_FAILED";
                               message :=
                                 message_or error (js "OAuth token exchange failed");
                               details := Some error;
                               retryable := Some true |} |})
  | _, _ => io_ret oauth_not_configured
  end.

(** [refreshTokens(refreshToken, context)] of [Integration]; no provider
    class overrides the [refreshTokens] of the base class. *)
Definition Integration_refreshTokens (refreshToken : JsString)
    (context : IntegrationContext) (this : IntegrationInstance)
    : IO (IntegrationResultOf OAuthTokens) :=
  match instance_oauthProvider this with
  | None => io_ret oauth_not_configured
  | Some oauthProvider =>
      io_catch
        (tokens <~ refreshTokens oauthProvider refreshToken;;
         _ <~ Integration_emitEvent oauth_refreshed (TokensRefreshed tokens) context this;;
         io_ret {| outcome_success := true;
                   outcome_data := Some tokens;
                   outcome_error := None |})
        (λ error,
           io_ret {| outcome_success := false;
                     outcome_data := None;
                     outcome_error :=
                       Some {| code := js "TOKEN_REFRESH_FAILED";
                               message := message_or error (js "Token refresh failed");
                               details := Some error;
                               retryable := Some true |} |})
  end.

(** [handleWebhook(headers, body, rawBody, context)] of [Integration].  The
    [data] of the result, which is only passed on, is left out. *)
Definition Integration_handleWebhook
    (rawHeaders : list (JsString * JsString)) (body : JsBody) (rawBody : RawBody)
    (context : IntegrationContext) (env : Env) (this : IntegrationInstance)
    : IntegrationResultOf unit * IntegrationInstance :=
  match webhooks (instance_config this) with
  | None =>
      ({| outcome_success := false;
          outcome_data := None;
          outcome_error :=
            Some {| code := js "WEBHOOKS_NOT_CONFIGURED";
                    message := js "Webhooks are not configured for this integration";
                    details := None;
                    retryable := Some false |} |}, this)
  | Some _ =>
      let handled :=
        WebhookManager_handleWebhook (name (instance_config this))
          rawHeaders body rawBody context env (webhookManager this) in
      let this :=
        {| instance_config := instance_config this;
           instance_oauthProvider := instance_oauthProvider this;
           webhookManager := handled.2;
           instance_eventHandlers := instance_eventHandlers this |} in
      match handled.1 with
      | Normal result =>
          ({| outcome_success := success result;
              outcome_data := None;
              outcome_error := error result |}, this)
      | Throw error =>
          ({| outcome_success := false;
              outcome_data := None;
              outcome_error :=
                Some {| code := js "WEBHOOK_PROCESSING_FAILED";
                        message := message_or error (js "Webhook processing failed");
                        details := Some error;
                        retryable := Some true |} |}, this)
      end
  end.

End Facade.

(* ===================================================================== *)
(** * The API client ([api/client.ts]): retries *)
(* ===================================================================== *)

(** What [this.httpClient.request(config)] rejects with: an error of
    axios, with the status of the response if there was one, or anything
    else. *)
Inductive RequestError : Type :=
| AxiosError (status : option Z)
| OtherError (e : JsThrown).

(** The surroundings of the client: the outcome of the request sent as
    number [n] (from 0), how many requests were sent, the pauses made, and
    the draw of [Math.random()] taken when the delay after the attempt
    [n] is computed. *)
Record Transport (R : Type) : Type := {
  answer : nat → R + RequestError;
  sent : nat;
  slept : list Q;
  jitter : nat → Q;
}.
Global Arguments answer {R} _ _.
Global Arguments sent {R} _.
Global Arguments slept {R} _.
Global Arguments jitter {R} _ _.

(** [isRetryableError(error)] *)
Definition isRetryableError (error : RequestError) : bool :=
  match error with
  | AxiosError None => true
  | AxiosError (Some status) =>
      (500 <=? status)%Z || (status =? 429)%Z || (status =? 408)%Z
  | OtherError _ => false
  end.

(** [getDefaultRetryPolicy()] of the client *)
Definition ApiClient_getDefaultRetryPolicy : RetryPolicy :=
  {| maxRetries := 3;
     backoffStrategy := exponential;
     baseDelay := 1000;
     maxDelay := 30000 |}.

(** The [for] loop of [executeWithRetry] from [attempt] on, with [fuel]
    iterations left before [attempt] passes [maxRetries]; after the loop
    comes [throw lastError].  The client's [calculateRetryDelay] has the
    body of the processor's. *)
Fixpoint executeWithRetry_loop {R} (retryPolicy : RetryPolicy)
    (fuel attempt : nat) (lastError : option RequestError) (t : Transport R)
    : (R + option RequestError) * Transport R :=
  match fuel with
  | O => (inr lastError, t)
  | S fuel =>
      let requested :=
        {| answer := answer t; sent := S (sent t);
           slept := slept t; jitter := jitter t |} in
      match answer t (sent t) with
      | inl response => (inl response, requested)
      | inr error =>
          if (Z.of_nat attempt =? maxRetries retryPolicy)%Z
             || negb (isRetryableError error)
          then (inr (Some error), requested)
          else
            let delay := calculateRetryDelay attempt retryPolicy (jitter t attempt) in
            executeWithRetry_loop retryPolicy fuel (S attempt) (Some error)
              {| answer := answer t; sent := S (sent t);
                 slept := slept t ++ [delay]; jitter := jitter t |}
      end
  end.

(** [executeWithRetry(config)] (private): the response, or what is thrown
    ([None] for [undefined]).  [retryPolicy] is [this.config.retryPolicy]. *)
Definition executeWithRetry {R} (retryPolicy : option RetryPolicy)
    (t : Transport R) : (R + option RequestError) * Transport R :=
  let retryPolicy := default ApiClient_getDefaultRetryPolicy retryPolicy in
  executeWithRetry_loop retryPolicy (Z.to_nat (maxRetries retryPolicy + 1)) 0 None t.



(* ===================================================================== *)
(** * Notions used in the statements *)
(* ===================================================================== *)

(** Code units in the ASCII range. *)
Definition is_ascii (c : N) : bool := c <? 0x80.

(** The characters [0-9a-f]. *)
Definition is_lower_hex (c : N) : bool :=
  ((48 <=? c) && (c <=? 57)) || ((97 <=? c) && (c <=? 102)).

(** Reads two hexadecimal digits back into a byte. *)
Definition unhex_digit (c : N) : N := if c <? 58 then c - 48 else c - 87.

Definition unhex_byte (s : JsString) : option byte :=
  match s with
  | [h; l] => Byte.of_N (16 * unhex_digit h + unhex_digit l)
  | _ => None
  end.

(** [config] with an empty allow-list: under it the verdict is the outcome
    of the payload check, the signature check and the classification. *)
Definition accept_any_event (config : WebhookConfig) : WebhookConfig :=
  {| endpoint := endpoint config;
     secret := secret config;
     events := [];
     signatureHeader := signatureHeader config;
     signatureMethod := signatureMethod config;
     retryPolicy := retryPolicy config |}.

(** [config] without a secret. *)
Definition without_secret (config : WebhookConfig) : WebhookConfig :=
  {| endpoint := endpoint config;
     secret := None;
     events := events config;
     signatureHeader := signatureHeader config;
     signatureMethod := signatureMethod config;
     retryPolicy := retryPolicy config |}.

(** [config] with the retry policy replaced. *)
Definition with_retryPolicy (policy : RetryPolicy) (config : WebhookConfig) : WebhookConfig :=
  {| endpoint := endpoint config;
     secret := secret config;
     events := events config;
     signatureHeader := signatureHeader config;
     signatureMethod := signatureMethod config;
     retryPolicy := Some policy |}.

(** The bounds that [IntegrationConfigSchema] puts on a retry policy. *)
Definition RetryPolicySchema (policy : RetryPolicy) : Prop :=
  (0 ≤ maxRetries policy ≤ 10)%Z
  ∧ (100 <= baseDelay policy)%Q
  ∧ (1000 <= maxDelay policy)%Q.

(** The policy that [retry] applies. *)
Definition policy_of (config : WebhookConfig) : RetryPolicy :=
  default getDefaultRetryPolicy (retryPolicy config).

(** The largest number of attempts a record can come to hold under
    [policy]. *)
Definition attempts_limit (policy : RetryPolicy) : Z := Z.max 1 (maxRetries policy).

(** Every record holds at most [attempts_limit] attempts. *)
Definition attempts_bounded (policy : RetryPolicy) (this : WebhookProcessor) : Prop :=
  ∀ l d, heap this !! l = Some d →
         (Z.of_nat (length (attempts d)) ≤ attempts_limit policy)%Z.

(** [st] with its [state] field replaced by [supplied]. *)
Definition with_state (supplied : JsString) (st : OAuthState) : OAuthState :=
  {| state := supplied;
     codeVerifier := codeVerifier st;
     state_redirectUri := state_redirectUri st;
     state_scopes := state_scopes st;
     state_userId := state_userId st |}.

(** The next [n] bytes that the random source will hand out. *)
Definition next_bytes (n : nat) (w : World) : list byte :=
  entropy w <$> seq (drawn w) n.

(** The state token in the result of [initializeOAuth], if there is one. *)
Definition state_token (outcome : completion IntegrationResult) : option JsString :=
  match outcome with
  | Normal result => data_state <$> result_data result
  | Throw _ => None
  end.

(** A subscriber that never throws before returning. *)
Definition quiet (handler : EventHandler) : Prop :=
  ∀ event data context e, handler event data context ≠ Threw e.

Section Notions.
Context `{Runtime}.

(** The event and the handler that [process] would invoke, if validation
    passes, an event is classified and a handler is registered for it (or
    the catch-all is). *)
Definition dispatch (payload : WebhookPayload) (config : WebhookConfig)
    (this : WebhookProcessor) : option (JsString * WebhookHandler) :=
  let validationResult := WebhookValidator_validate payload config in
  if isValid validationResult && truthy (validation_event validationResult) then
    let event := default [] (validation_event validationResult) in
    match eventHandlers this !! event with
    | Some h => Some (event, h)
    | None => (λ h, (event, h)) <$> eventHandlers this !! js "*"
    end
  else None.

(** The record that [process] stores after the handler has run. *)
Definition new_delivery (payload : WebhookPayload) (config : WebhookConfig)
    (env : Env) (event : JsString)
    (outcome : completion WebhookProcessingResult) : WebhookDelivery :=
  {| id := generateDeliveryId env;
     url := endpoint config;
     delivery_event := event;
     delivery_payload := body payload;
     delivery_headers := headers payload;
     delivery_timestamp := timestamp payload;
     status :=
       match outcome with
       | Normal result => if success result then delivered else failed
       | Throw _ => failed
       end;
     attempts :=
       [{| attempt := 1;
           attempt_timestamp := now env;
           attempt_error :=
             match outcome with
             | Normal result => error_message result
             | Throw error => message_or error (js "Unknown processing error")
             end;
           nextRetry := None |}] |}.

(** What [process] returns after the handler has run. *)
Definition handler_result (outcome : completion WebhookProcessingResult)
    : WebhookProcessingResult :=
  match outcome with
  | Normal result => result
  | Throw error =>
      failure {| code := js "PROCESSING_ERROR";
                 message := message_or error (js "Unknown processing error");
                 details := Some error;
                 retryable := Some true |} (Some true)
  end.

(** The status assignment that ends a retry whose [process] returned. *)
Definition settle (result : WebhookProcessingResult) (d : WebhookDelivery) : WebhookDelivery :=
  if success result then set_status delivered d
  else if negb (default false (shouldRetry result)) then set_status failed d
  else d.

End Notions.

(** A caller that retries the delivery [deliveryId] with the same payload
    once per element of [envs]. *)
Fixpoint retry_each `{Runtime} (deliveryId : JsString) (payload : WebhookPayload)
    (config : WebhookConfig) (context : IntegrationContext)
    (envs : list Env) (this : WebhookProcessor) : WebhookProcessor :=
  match envs with
  | [] => this
  | env :: rest =>
      retry_each deliveryId payload config context rest
        (retry deliveryId payload config context env this).2
  end.


(** The body fields that [extractEventType] consults, in the order of
    [body.event_type || body.type || body.action || body.event]. *)
Definition eventBodyFields : list JsString :=
  [js "event_type"; js "type"; js "action"; js "event"].

(** What a generated id depends on: the clock reading and the nine
    characters taken from the rendering of the random draw. *)
Definition id_reading (env : Env) : Z * JsString :=
  (now env, substr 2 9 (random36 env)).

(** The attempt that [retry] pushes after [process] has returned [result]. *)
Definition retry_attempt (config : WebhookConfig) (env : Env)
    (d : WebhookDelivery) (result : WebhookProcessingResult) : WebhookRetryAttempt :=
  {| attempt := Z.of_nat (length (attempts d)) + 1;
     attempt_timestamp := now env;
     attempt_error := error_message result;
     nextRetry :=
       if default false (shouldRetry result)
       then Some (Date_of (inject_Z (now env)
                           + calculateRetryDelay (length (attempts d))
                               (policy_of config) (random env)))
       else None |}.

(** The status that a retry leaves on the retried record. *)
Definition status_after (result : WebhookProcessingResult) : DeliveryStatus :=
  if success result then delivered
  else if default false (shouldRetry result) then retrying
  else failed.

(** A call made on a processor.  The calls of a list are made one after
    another, each one completed before the next starts. *)
Inductive Call : Type :=
| CallOn (event : JsString) (handler : WebhookHandler)
| CallProcess (payload : WebhookPayload) (config : WebhookConfig)
    (context : IntegrationContext) (env : Env)
| CallRetry (deliveryId : JsString) (payload : WebhookPayload) (config : WebhookConfig)
    (context : IntegrationContext) (env : Env).

Definition perform `{Runtime} (this : WebhookProcessor) (call : Call) : WebhookProcessor :=
  match call with
  | CallOn event handler => on event handler this
  | CallProcess payload config context env =>
      (process payload config context env this).2
  | CallRetry deliveryId payload config context env =>
      (retry deliveryId payload config context env this).2
  end.

(** Every retry among the calls is made under [policy]. *)
Definition retries_under (policy : RetryPolicy) (call : Call) : Prop :=
  match call with
  | CallRetry _ _ config _ _ => policy_of config = policy
  | _ => True
  end.

(** A subscriber, of any data, that never throws before returning. *)
Definition quiet_subscriber {D} (handler : Subscriber D) : Prop :=
  ∀ event data context e, handler event data context ≠ Threw e.

(** The manager of the integration holds the webhook configuration of the
    integration, if it has one, under the integration's name. *)
Definition webhooks_registered (this : IntegrationInstance) : Prop :=
  configs (webhookManager this) !! name (instance_config this)
    = webhooks (instance_config this).

(** Whether the body of a request holds a value under [key]. *)
Definition sends (key : JsString) (request : HttpRequest) : bool :=
  match request with
  | Post _ fields =>
      existsb (λ field, bool_decide (field.1 = key) && bool_decide (is_Some field.2))
              fields
  | Get _ _ => false
  end.

(** The requests sent between the world [w] and the later world [w']. *)
Definition requests_since (w w' : World) : list HttpRequest :=
  drop (length (requests w)) (requests w').

(** The characters of the URL-safe base-64 alphabet: [A-Za-z0-9_-]. *)
Definition is_base64url (c : N) : bool :=
  ((65 <=? c) && (c <=? 90)) || ((97 <=? c) && (c <=? 122))
  || ((48 <=? c) && (c <=? 57)) || (c =? 45) || (c =? 95).

(** Whether [getAuthorizationUrl] of the provider's class reads [usePKCE]
    and finds it set. *)
Definition adds_pkce (this : OAuthProvider) : bool :=
  match class this with
  | GitHubOAuth | CustomOAuth => default false (usePKCE (provider_config this))
  | VercelOAuth | NetlifyOAuth | SlackOAuth => false
  end.

(** The pauses that [executeWithRetry] makes after the attempts [from],
    ..., [from + n - 1]. *)
Definition pauses {R} (policy : RetryPolicy) (t : Transport R) (from n : nat) : list Q :=
  (λ i, calculateRetryDelay i policy (jitter t i)) <$> seq from n.


(* ===================================================================== *)
(** * Values for running the model on examples *)
(* ===================================================================== *)

Module Toy.

(** A stand-in digest of the right length: the first [n] bytes of the data
    followed by the key, padded with zeros. *)
Definition toy_digest (n : nat) (key data : list byte) : list byte :=
  take n (data ++ key ++ replicate n Byte.x00).

(** A runtime with the stand-in digest.  Strings that start with [http]
    count as URLs; parameters are appended after [&]; a buffer is decoded
    byte by byte. *)
Definition runtime : Runtime.
Proof.
  refine {| hmac_digest a := toy_digest (digest_size a);
            hash_digest a := toy_digest (digest_size a) [];
            Buffer_toString bs := Byte.to_N <$> bs;
            URL := JsString;
            URL_new s :=
              if bool_decide (take 4 s = js "http") then Normal s
              else Throw (ErrorObject "TypeError" (js "Invalid URL"));
            searchParams_append u key value := u ++ js "&" ++ key ++ js "=" ++ value;
            URL_toString u := u |}.
  intros a key data. unfold toy_digest.
  rewrite length_take, !length_app, length_replicate. lia.
Defined.

End Toy.

(** A payload with no event header and an empty object as body. *)
Definition unclassified_payload : WebhookPayload :=
  {| headers := Some ∅;
     body := BodyObject ∅;
     rawBody := RawString (js "{}");
     timestamp := 0;
     signature := None |}.

(** A payload announced as [event] by the [x-github-event] header, carrying
    [sig] (if any) in the [x-hub-signature-256] header. *)
Definition github_payload (event : JsString) (sig : option JsString) : WebhookPayload :=
  {| headers :=
       Some (<[js "x-github-event" := event]>
               (match sig with
                | Some s => {[ js "x-hub-signature-256" := s ]}
                | None => ∅
                end));
     body := BodyObject ∅;
     rawBody := RawString (js "{}");
     timestamp := 0;
     signature := sig |}.

(** A configuration that allows the event [push] only. *)
Definition push_only (secret : option JsString) : WebhookConfig :=
  {| endpoint := js "https://example.com/hook";
     secret := secret;
     events := [js "push"];
     signatureHeader := None;
     signatureMethod := None;
     retryPolicy := None |}.

(** A handler that always rejects. *)
Definition rejecting_handler : WebhookHandler :=
  λ _ _ _, Throw (ErrorObject "Error" (js "database unavailable")).

(** A processor with [rejecting_handler] registered for [push]. *)
Definition push_processor `{Runtime} : WebhookProcessor :=
  on (js "push") rejecting_handler WebhookProcessor_new.

(** The surroundings at clock reading [t]. *)
Definition env_at (t : Z) : Env :=
  {| now := t; random := 0; random36 := js "0.4fzyo82mvyr"; outside := 0 |}.

Definition no_context : IntegrationContext :=
  {| userId := None; organizationId := None; installationId := None |}.

(** A linear policy with [baseDelay = 1000] and [maxDelay = 5000]. *)
Definition linear_1000_5000 : RetryPolicy :=
  {| maxRetries := 3; backoffStrategy := linear;
     baseDelay := 1000; maxDelay := 5000 |}.

(** A GitHub integration with PKCE switched off. *)
Definition github_oauth_config : OAuthConfig :=
  {| clientId := js "client-id";
     clientSecret := Some (js "client-secret");
     redirectUri := js "http://localhost:3000/callback";
     scopes := [js "repo"];
     authUrl := None; tokenUrl := None; userInfoUrl := None;
     usePKCE := None |}.

Definition github_integration : Integration :=
  {| config :=
       {| name := js "test-integration"; version := js "1.0.0";
          provider := github; oauth := Some github_oauth_config;
          webhooks := None |};
     oauthProvider :=
       Some {| class := GitHubOAuth; provider_name := js "github";
               provider_config :=
                 with_default_urls github_oauth_config
                   (js "https://github.com/login/oauth/authorize")
                   (js "https://github.com/login/oauth/access_token")
                   (js "https://api.github.com/user") |};
     integration_eventHandlers := λ _, [] |}.

(** A world whose random source hands out the byte [b] forever and whose
    remote side never answers. *)
Definition constant_world (b : byte) : World :=
  {| entropy := λ _, b;
     drawn := 0;
     requests := [];
     server := λ _, Throw OtherValue;
     clock := 0;
     clock36 := js "0";
     math_random36 := js "0.5" |}.

(** A custom configuration with an authorize URL but no token URL. *)
Definition custom_without_tokenUrl : OAuthConfig :=
  {| clientId := js "client-id";
     clientSecret := None;
     redirectUri := js "http://localhost:3000/callback";
     scopes := [js "read"];
     authUrl := Some (js "https://api.customservice.com/oauth/authorize");
     tokenUrl := None;
     userInfoUrl := None;
     usePKCE := Some true |}.


(** A handler that accepts every payload as a [push]. *)
Definition accepting_handler : WebhookHandler :=
  λ _ _ _, Normal {| success := true; event := Some (js "push");
                     error := None; shouldRetry := None |}.

(** A manager with [push_only secret] registered for ["github-app"] and
    [accepting_handler] registered for [push]. *)
Definition push_manager (secret : option JsString) : WebhookManager :=
  onWebhookEvent (js "push") accepting_handler
    (register (js "github-app") (push_only secret) WebhookManager_new).

(** The headers of a [push] request whose signature header is sent with
    capital letters. *)
Definition capitalised_headers (sig : JsString) : list (JsString * JsString) :=
  [(js "X-Hub-Signature-256", sig); (js "X-GitHub-Event", js "push")].

(** The headers of a [push] request in lower case. *)
Definition lowercase_headers (sig : JsString) : list (JsString * JsString) :=
  [(js "x-hub-signature-256", sig); (js "x-github-event", js "push")].

(** A [push] payload whose body also names an action. *)
Definition push_with_action : WebhookPayload :=
  {| headers := Some {[ js "x-github-event" := js "push" ]};
     body := BodyObject {[ js "action" := js "opened" ]};
     rawBody := RawString (js "{}");
     timestamp := 0;
     signature := None |}.

(** An exponential policy with a negative [baseDelay]. *)
Definition negative_baseDelay : RetryPolicy :=
  {| maxRetries := 3; backoffStrategy := exponential;
     baseDelay := -1000; maxDelay := 60000 |}.

(** The custom configuration of the examples: all three URLs, a client
    secret and PKCE. *)
Definition custom_pkce_config : OAuthConfig :=
  {| clientId := js "your-custom-client-id";
     clientSecret := Some (js "your-custom-client-secret");
     redirectUri := js "http://localhost:3000/auth/custom/callback";
     scopes := [js "read"; js "write"; js "admin"];
     authUrl := Some (js "https://api.customservice.com/oauth/authorize");
     tokenUrl := Some (js "https://api.customservice.com/oauth/token");
     userInfoUrl := Some (js "https://api.customservice.com/user/me");
     usePKCE := Some true |}.

Definition custom_pkce_provider : OAuthProvider :=
  {| class := CustomOAuth; provider_name := js "my-custom-service";
     provider_config := custom_pkce_config |}.

(** An integration with [custom_pkce_provider] and, for webhooks,
    [push_manager]. *)
Definition custom_instance : IntegrationInstance :=
  {| instance_config :=
       {| name := js "github-app"; version := js "1.0.0";
          provider := custom; oauth := Some custom_pkce_config;
          webhooks := Some (push_only None) |};
     instance_oauthProvider := Some custom_pkce_provider;
     webhookManager := push_manager None;
     instance_eventHandlers := λ _, [] |}.

(** A remote side that fails twice with status 503 and then answers. *)
Definition flaky_transport : Transport JsString :=
  {| answer := λ n, if (n <? 2)%nat then inr (AxiosError (Some 503%Z))
                    else inl (js "ok");
     sent := 0%nat;
     slept := [];
     jitter := λ _, 0%Q |}.


(* ===================================================================== *)
(** * Facts about the model *)
(* ===================================================================== *)

Section Facts.
Context `{Runtime}.

Lemma unhex_hex_of_byte b : unhex_byte (hex_of_byte b) = Some b.
Proof. destruct b; reflexivity. Qed.

Lemma hex_of_byte_inj b1 b2 : hex_of_byte b1 = hex_of_byte b2 → b1 = b2.
Proof.
  intros Heq. apply (f_equal unhex_byte) in Heq.
  rewrite !unhex_hex_of_byte in Heq. congruence.
Qed.

Lemma hex_of_byte_lower b : Forall (λ c, is_lower_hex c = true) (hex_of_byte b).
Proof. destruct b; repeat constructor. Qed.

Lemma toString_hex_cons b bs :
  toString_hex (b :: bs) = hex_of_byte b ++ toString_hex bs.
Proof. reflexivity. Qed.

Lemma toString_hex_length bs : length (toString_hex bs) = (2 * length bs)%nat.
Proof.
  induction bs as [|b bs IH]; [done|].
  rewrite toString_hex_cons, length_app, IH. simpl. lia.
Qed.

Lemma toString_hex_lower bs : Forall (λ c, is_lower_hex c = true) (toString_hex bs).
Proof.
  induction bs as [|b bs IH]; [constructor|].
  rewrite toString_hex_cons. apply Forall_app. split; [apply hex_of_byte_lower|done].
Qed.

Lemma toString_hex_inj bs1 bs2 : toString_hex bs1 = toString_hex bs2 → bs1 = bs2.
Proof.
  revert bs2. induction bs1 as [|b1 bs1 IH]; intros [|b2 bs2] Heq; try done.
  rewrite !toString_hex_cons in Heq. simpl in Heq.
  injection Heq as Hh Hl Hrest.
  f_equal; [|by apply IH].
  apply hex_of_byte_inj. unfold hex_of_byte. by rewrite Hh, Hl.
Qed.

Lemma is_lower_hex_ascii c : is_lower_hex c = true → is_ascii c = true.
Proof.
  unfold is_lower_hex, is_ascii. intros Hc.
  apply N.ltb_lt.
  repeat (apply orb_prop in Hc as [Hc|Hc] || apply andb_prop in Hc as [? Hc]);
    apply N.leb_le in Hc; lia.
Qed.

(** On code units below 256, [byte_of_N] loses nothing. *)
Lemma to_N_byte_of_N c : c < 256 → Byte.to_N (byte_of_N c) = c.
Proof.
  intros Hc. unfold byte_of_N.
  change 0xFF with (N.ones 8). rewrite N.land_ones.
  rewrite N.mod_small by (simpl; lia).
  destruct (Byte.of_N c) as [b|] eqn:Hb.
  - simpl. by apply Byte.to_of_N.
  - apply Byte.of_N_None_iff in Hb. lia.
Qed.

Lemma byte_of_N_inj c d : c < 256 → d < 256 → byte_of_N c = byte_of_N d → c = d.
Proof.
  intros Hc Hd Heq. rewrite <- (to_N_byte_of_N c), <- (to_N_byte_of_N d) by done.
  by rewrite Heq.
Qed.

(** The UTF-8 encoding of an ASCII string: one byte per character. *)
Lemma Buffer_from_ascii s :
  Forall (λ c, is_ascii c = true) s → Buffer_from s = byte_of_N <$> s.
Proof.
  induction 1 as [|c s Hc Hs IH]; [done|].
  unfold is_ascii in Hc. apply N.ltb_lt in Hc.
  cbn [Buffer_from].
  replace (is_high_surrogate c) with false
    by (unfold is_high_surrogate; symmetry; apply andb_false_intro1, N.leb_gt; lia).
  replace (is_low_surrogate c) with false
    by (unfold is_low_surrogate; symmetry; apply andb_false_intro1, N.leb_gt; lia).
  unfold utf8_encode. apply N.ltb_lt in Hc. rewrite Hc. simpl. by rewrite IH.
Qed.

Lemma Buffer_from_ascii_inj s t :
  Forall (λ c, is_ascii c = true) s → Forall (λ c, is_ascii c = true) t →
  Buffer_from s = Buffer_from t → s = t.
Proof.
  intros Hs Ht. rewrite !Buffer_from_ascii by done.
  revert t Ht. induction Hs as [|c s Hc Hs IH]; intros [|d t] Ht Heq; try done.
  apply Forall_cons in Ht as [Hd Ht]. simpl in Heq. injection Heq as Hcd Hrest.
  unfold is_ascii in *. apply N.ltb_lt in Hc, Hd.
  f_equal; [apply byte_of_N_inj; [lia|lia|done] | by apply IH].
Qed.

Lemma Buffer_from_ascii_app s t :
  Forall (λ c, is_ascii c = true) s →
  Buffer_from (s ++ t) = Buffer_from s ++ Buffer_from t.
Proof.
  induction 1 as [|c s Hc Hs IH]; [done|].
  unfold is_ascii in Hc. apply N.ltb_lt in Hc.
  cbn [Buffer_from app].
  replace (is_high_surrogate c) with false
    by (unfold is_high_surrogate; symmetry; apply andb_false_intro1, N.leb_gt; lia).
  replace (is_low_surrogate c) with false
    by (unfold is_low_surrogate; symmetry; apply andb_false_intro1, N.leb_gt; lia).
  by rewrite IH, app_assoc.
Qed.

Lemma Buffer_from_ascii_length s :
  Forall (λ c, is_ascii c = true) s → length (Buffer_from s) = length s.
Proof. intros Hs. by rewrite Buffer_from_ascii, length_fmap. Qed.

Lemma timingSafeEqual_refl a : timingSafeEqual a a = Normal true.
Proof.
  unfold timingSafeEqual. rewrite !bool_decide_eq_true_2; done.
Qed.

Lemma timingSafeEqual_same_length a b :
  length a = length b → timingSafeEqual a b = Normal (bool_decide (a = b)).
Proof. intros Hl. unfold timingSafeEqual. by rewrite bool_decide_eq_true_2. Qed.

Lemma timingSafeEqual_throws a b :
  length a ≠ length b →
  timingSafeEqual a b =
    Throw (ErrorObject "RangeError" (js "Input buffers must have the same byte length")).
Proof. intros Hl. unfold timingSafeEqual. by rewrite bool_decide_eq_false_2. Qed.

Lemma generate_format m payload secret :
  generate (signatureValidators m) payload secret =
    algorithm_name (algorithm_of m) ++ js "="
      ++ toString_hex (hmac_digest (algorithm_of m) (Buffer_from secret) (Buffer_from payload)).
Proof. by destruct m. Qed.

Lemma validate_unfold m payload signature secret :
  validate (signatureValidators m) payload signature secret =
    timingSafeEqual (Buffer_from signature)
      (Buffer_from (generate (signatureValidators m) payload secret)).
Proof. by destruct m. Qed.

Lemma generate_ascii m payload secret :
  Forall (λ c, is_ascii c = true) (generate (signatureValidators m) payload secret).
Proof.
  rewrite generate_format. rewrite !Forall_app. split_and!.
  - destruct m; repeat constructor.
  - repeat constructor.
  - eapply Forall_impl; [apply toString_hex_lower|]. apply is_lower_hex_ascii.
Qed.

Lemma generate_length m payload secret :
  length (generate (signatureValidators m) payload secret) =
    (length (algorithm_name (algorithm_of m)) + 1 + 2 * digest_size (algorithm_of m))%nat.
Proof.
  rewrite generate_format, !length_app, toString_hex_length, hmac_digest_length.
  simpl. lia.
Qed.

(** Two generated signatures are the same string exactly when the digests
    are the same. *)
Lemma generate_eq_iff m payload payload' secret :
  generate (signatureValidators m) payload' secret =
    generate (signatureValidators m) payload secret ↔
  hmac_digest (algorithm_of m) (Buffer_from secret) (Buffer_from payload') =
    hmac_digest (algorithm_of m) (Buffer_from secret) (Buffer_from payload).
Proof.
  rewrite !generate_format. split.
  - intros Heq. apply app_inv_head in Heq. apply app_inv_head in Heq.
    by apply toString_hex_inj.
  - by intros ->.
Qed.

(** A signature with the byte length of the expected one is accepted
    exactly when it has the same bytes. *)
Lemma validate_same_length m payload signature secret :
  length (Buffer_from signature) =
    length (Buffer_from (generate (signatureValidators m) payload secret)) →
  validate (signatureValidators m) payload signature secret =
    Normal (bool_decide
              (Buffer_from signature =
                 Buffer_from (generate (signatureValidators m) payload secret))).
Proof. intros Hl. rewrite validate_unfold. by apply timingSafeEqual_same_length. Qed.

Lemma includes_true l x : includes l x = true ↔ x ∈ l.
Proof. unfold includes. apply bool_decide_eq_true. Qed.

Lemma includes_false l x : includes l x = false ↔ x ∉ l.
Proof. unfold includes. apply bool_decide_eq_false. Qed.

Lemma extractEventType_accept_any payload hdrs config :
  extractEventType payload hdrs (accept_any_event config) =
    extractEventType payload hdrs config.
Proof. reflexivity. Qed.

(** The verdict under [config] from the verdict under the same
    configuration with an empty allow-list. *)
Lemma validate_from_accept_any payload config :
  let open := WebhookValidator_validate payload (accept_any_event config) in
  WebhookValidator_validate payload config =
    if isValid open && (0 <? length (events config))%nat
       && truthy (validation_event open)
       && negb (includes (events config) (default [] (validation_event open)))
    then {| isValid := false;
            validation_error :=
              Some (js "Unsupported event type: " ++ default [] (validation_event open));
            validation_event := None |}
    else open.
Proof.
  unfold WebhookValidator_validate, validate_try. simpl.
  destruct (body_truthy (body payload)); [|done].
  destruct (headers payload) as [hdrs|]; [|done].
  match goal with
  | |- context [bind ?c _] => destruct c as [[|]|e]; simpl; [|done|done]
  end.
  rewrite extractEventType_accept_any.
  by destruct (_ && _ && _).
Qed.

(** Without a signature on the payload, the secret plays no part. *)
Lemma validate_try_no_signature payload config :
  truthy (signature payload) = false →
  validate_try payload config = validate_try payload (without_secret config).
Proof.
  intros Hsig. unfold validate_try. rewrite Hsig, andb_false_r. reflexivity.
Qed.

Lemma process_dispatched payload config context env this event handler :
  dispatch payload config this = Some (event, handler) →
  process payload config context env this =
    (Normal (handler_result (handler payload context env)),
     recordDelivery
       (new_delivery payload config env event (handler payload context env)) this).
Proof.
  unfold dispatch, process.
  destruct (isValid _); [|done]. destruct (truthy _); [|done]. simpl.
  destruct (eventHandlers this !! default [] _) as [h|].
  - intros [= <- <-]. by destruct (h payload context env).
  - destruct (eventHandlers this !! js "*") as [h|]; [|done].
    intros [= <- <-]. by destruct (h payload context env).
Qed.

Lemma process_not_dispatched payload config context env this :
  dispatch payload config this = None →
  (process payload config context env this).2 = this.
Proof.
  unfold dispatch, process.
  destruct (isValid _); [|done]. destruct (truthy _); [|done]. simpl.
  destruct (eventHandlers this !! default [] _) as [h|]; [done|].
  by destruct (eventHandlers this !! js "*").
Qed.

(** [process] catches whatever the handler throws: it always returns. *)
Lemma process_returns payload config context env this :
  ∃ result, (process payload config context env this).1 = Normal result.
Proof.
  destruct (dispatch payload config this) as [[event handler]|] eqn:Hd.
  - rewrite (process_dispatched _ _ _ _ _ _ _ Hd). by eexists.
  - revert Hd. unfold dispatch, process.
    destruct (isValid _); [|by eexists]. destruct (truthy _); [|by eexists]. simpl.
    destruct (eventHandlers this !! default [] _) as [h|]; [done|].
    destruct (eventHandlers this !! js "*"); [done|by eexists].
Qed.

Lemma dispatch_recordDelivery payload config d this :
  dispatch payload config (recordDelivery d this) = dispatch payload config this.
Proof. reflexivity. Qed.

Lemma dispatch_mutate payload config l f this :
  dispatch payload config (mutate l f this) = dispatch payload config this.
Proof. reflexivity. Qed.

(** Case analysis on whether [process] reaches a handler, for goals about
    the state it returns. *)
Ltac case_dispatch payload config this :=
  let Hd := fresh "Hd" in
  destruct (dispatch payload config this) as [[? ?]|] eqn:Hd;
  [ rewrite (process_dispatched payload config _ _ this _ _ Hd)
  | rewrite (process_not_dispatched payload config _ _ this Hd) ].

(** The records at the addresses that exist before a call of [process] are
    the same after it. *)
Lemma process_heap_prefix payload config context env this :
  heap this `prefix_of` heap (process payload config context env this).2.
Proof.
  case_dispatch payload config this; [|done].
  simpl. by apply prefix_app_r.
Qed.

Lemma getDelivery_Some deliveryId this l d :
  getDelivery deliveryId this = Some (l, d) ↔
  deliveries this !! deliveryId = Some l ∧ heap this !! l = Some d.
Proof.
  unfold getDelivery. destruct (deliveries this !! deliveryId) as [l'|]; simpl.
  - destruct (heap this !! l') as [d'|] eqn:Hl'; simpl; split.
    + intros [= <- <-]. done.
    + intros [[= <-] Hd]. congruence.
    + done.
    + intros [[= <-] Hd]. congruence.
  - split; [done|]. by intros [? _].
Qed.

Lemma heap_mutate_eq l f this d :
  heap this !! l = Some d → heap (mutate l f this) !! l = Some (f d).
Proof. intros Hd. simpl. by rewrite list_lookup_alter_eq, Hd. Qed.

Lemma attempts_settle result d : attempts (settle result d) = attempts d.
Proof. unfold settle. by repeat case_match. Qed.

Lemma id_settle result d : id (settle result d) = id d.
Proof. unfold settle. by repeat case_match. Qed.

Lemma mutate_id_like l (f : WebhookDelivery → WebhookDelivery) this :
  (∀ d, f d = d) → mutate l f this = this.
Proof.
  intros Hf. destruct this as [hs ds hp]. unfold mutate. simpl. f_equal.
  apply list_eq. intros i. destruct (decide (i = l)) as [->|Hne].
  - rewrite list_lookup_alter_eq. destruct (hp !! l); simpl; by rewrite ?Hf.
  - by rewrite list_lookup_alter_ne.
Qed.

(** An unknown id: [retry] reports it and changes nothing. *)
Lemma retry_not_found deliveryId payload config context env this :
  getDelivery deliveryId this = None →
  retry deliveryId payload config context env this =
    (failure {| code := js "DELIVERY_NOT_FOUND";
                message := js "Delivery " ++ deliveryId ++ js " not found";
                details := None;
                retryable := Some false |} None, this).
Proof. intros Hget. unfold retry. by rewrite Hget. Qed.

(** Once the record holds [maxRetries] attempts or more, [retry] marks it
    failed, adds no attempt and does not call [process]. *)
Lemma retry_refused deliveryId payload config context env this l d :
  getDelivery deliveryId this = Some (l, d) →
  (maxRetries (policy_of config) ≤ Z.of_nat (length (attempts d)))%Z →
  retry deliveryId payload config context env this =
    (failure {| code := js "MAX_RETRIES_EXCEEDED";
                message := js "Maximum retry attempts ("
                             ++ decimal (maxRetries (policy_of config))
                             ++ js ") exceeded";
                details := None;
                retryable := Some false |} None,
     mutate l (set_status failed) this).
Proof.
  intros Hget Hmax. unfold retry. rewrite Hget. simpl.
  fold (policy_of config). apply Z.leb_le in Hmax. by rewrite Hmax.
Qed.

(** A retry that passes both checks: [process] runs on the record marked
    [retrying], one attempt is pushed onto the record and its status is
    settled.  The attempt pushed is the same in the [try] and in the
    [catch] block except for its message and [nextRetry]. *)
Lemma retry_passed deliveryId payload config context env this l d :
  getDelivery deliveryId this = Some (l, d) →
  (Z.of_nat (length (attempts d)) < maxRetries (policy_of config))%Z →
  ∃ (a : WebhookRetryAttempt) (f : WebhookDelivery → WebhookDelivery),
    (retry deliveryId payload config context env this).2 =
      mutate l f
        (mutate l (push_attempt a)
           (process payload config context env
              (mutate l (set_status retrying) this)).2)
    ∧ attempt a = (Z.of_nat (length (attempts d)) + 1)%Z
    ∧ (∀ d', attempts (f d') = attempts d' ∧ id (f d') = id d')
    ∧ (process payload config context env
         (mutate l (set_status retrying) this)).1 =
        Normal (retry deliveryId payload config context env this).1.
Proof.
  intros Hget Hlt. unfold retry. rewrite Hget. simpl.
  fold (policy_of config). apply Z.leb_gt in Hlt. rewrite Hlt.
  destruct (process_returns payload config context env
              (mutate l (set_status retrying) this)) as [result Hres].
  destruct (process _ _ _ _ _) as [outcome this2]. simpl in Hres. subst outcome.
  exists {| attempt := Z.of_nat (length (attempts d)) + 1;
            attempt_timestamp := now env;
            attempt_error := error_message result;
            nextRetry :=
              if default false (shouldRetry result)
              then Some (Date_of (inject_Z (now env)
                                  + calculateRetryDelay (length (attempts d))
                                      (policy_of config) (random env)))
              else None |}, (settle result).
  split_and!; [|reflexivity| |reflexivity].
  - unfold settle. cbn [fst snd].
    destruct (success result); [done|].
    destruct (negb _); [done|].
    by rewrite (mutate_id_like l (λ d, d)).
  - intros d'. by rewrite attempts_settle, id_settle.
Qed.

(** A retry that passes both checks adds exactly one attempt to the
    retried record. *)
Lemma retry_adds_one_attempt deliveryId payload config context env this l d :
  getDelivery deliveryId this = Some (l, d) →
  (Z.of_nat (length (attempts d)) < maxRetries (policy_of config))%Z →
  ∃ d', heap (retry deliveryId payload config context env this).2 !! l = Some d'
        ∧ length (attempts d') = S (length (attempts d))
        ∧ id d' = id d.
Proof.
  intros Hget Hlt.
  destruct (retry_passed deliveryId payload config context env this l d Hget Hlt)
    as (a & f & -> & _ & Hf & _).
  apply getDelivery_Some in Hget as [_ Hd].
  pose proof (heap_mutate_eq l (set_status retrying) this d Hd) as Hd1.
  eapply prefix_lookup_Some in Hd1; [|apply process_heap_prefix].
  eexists. split; [by do 2 (apply heap_mutate_eq)|].
  destruct (Hf (push_attempt a (set_status retrying d))) as [-> ->].
  simpl. rewrite length_app. simpl. split; [lia|done].
Qed.

(** The state after a retry that passes both checks and whose [process]
    reaches a handler: the map has an entry for the generated id, the heap
    has one record more, and only the retried record has changed. *)
Lemma retry_dispatched deliveryId payload config context env this l d event handler :
  getDelivery deliveryId this = Some (l, d) →
  (Z.of_nat (length (attempts d)) < maxRetries (policy_of config))%Z →
  dispatch payload config this = Some (event, handler) →
  let this' := (retry deliveryId payload config context env this).2 in
  deliveries this' = <[generateDeliveryId env := length (heap this)]> (deliveries this)
  ∧ length (heap this') = S (length (heap this))
  ∧ eventHandlers this' = eventHandlers this
  ∧ (∃ d', heap this' !! l = Some d'
           ∧ length (attempts d') = S (length (attempts d)))
  ∧ (∀ l' d', l' ≠ l → heap this !! l' = Some d' → heap this' !! l' = Some d')
  ∧ (∃ d', heap this' !! length (heap this) = Some d'
           ∧ id d' = generateDeliveryId env
           ∧ length (attempts d') = 1%nat).
Proof.
  intros Hget Hlt Hdisp this'. subst this'.
  destruct (retry_adds_one_attempt deliveryId payload config context env this l d
              Hget Hlt) as (d1 & Hd1 & Hlen1 & _).
  revert Hd1.
  destruct (retry_passed deliveryId payload config context env this l d Hget Hlt)
    as (a & f & -> & _ & Hf & _).
  rewrite (process_dispatched payload config context env _ event handler)
    by (by rewrite dispatch_mutate).
  apply getDelivery_Some in Hget as [_ Hd].
  pose proof (lookup_lt_Some _ _ _ Hd) as Hl.
  intros Hd1. cbn [snd]. split_and!.
  - simpl. by rewrite length_alter.
  - simpl. rewrite !length_alter, length_app, length_alter. simpl. lia.
  - reflexivity.
  - by exists d1.
  - intros l' d' Hne Hd'. simpl.
    rewrite !list_lookup_alter_ne by done.
    rewrite lookup_app_l by (rewrite length_alter; by eapply lookup_lt_Some).
    by rewrite list_lookup_alter_ne.
  - exists (new_delivery payload config env event (handler payload context env)).
    split; [|split; reflexivity]. simpl.
    rewrite !list_lookup_alter_ne by lia.
    rewrite lookup_app_r by (rewrite length_alter; lia).
    rewrite length_alter, Nat.sub_diag. reflexivity.
Qed.

Lemma dispatch_same_handlers payload config this this' :
  eventHandlers this' = eventHandlers this →
  dispatch payload config this' = dispatch payload config this.
Proof. intros Heq. unfold dispatch. by rewrite Heq. Qed.

Lemma retry_each_records deliveryId payload config context envs :
  ∀ this l d event handler,
    deliveries this !! deliveryId = Some l →
    heap this !! l = Some d →
    dispatch payload config this = Some (event, handler) →
    (Z.of_nat (length (attempts d) + length envs) ≤ maxRetries (policy_of config))%Z →
    NoDup (generateDeliveryId <$> envs) →
    (∀ env, env ∈ envs → deliveries this !! generateDeliveryId env = None) →
    let this' := retry_each deliveryId payload config context envs this in
    size (deliveries this') = (size (deliveries this) + length envs)%nat
    ∧ length (heap this') = (length (heap this) + length envs)%nat
    ∧ (∃ d', deliveries this' !! deliveryId = Some l
             ∧ heap this' !! l = Some d'
             ∧ length (attempts d') = (length (attempts d) + length envs)%nat)
    ∧ (∀ i env, envs !! i = Some env →
         ∃ d', deliveries this' !! generateDeliveryId env
                 = Some (length (heap this) + i)%nat
               ∧ heap this' !! (length (heap this) + i)%nat = Some d'
               ∧ id d' = generateDeliveryId env
               ∧ length (attempts d') = 1%nat)
    ∧ (∀ id' l', deliveries this !! id' = Some l' → deliveries this' !! id' = Some l')
    ∧ (∀ l' d', l' ≠ l → heap this !! l' = Some d' → heap this' !! l' = Some d').
Proof.
  induction envs as [|env rest IH]; intros this l d event handler Hid Hd Hdisp Hmax Hnodup Hfresh.
  - simpl. rewrite !Nat.add_0_r.
    split_and!; try done; try (by exists d).
  - cbn [retry_each]; cbv zeta.
    assert (getDelivery deliveryId this = Some (l, d)) as Hget
      by (by apply getDelivery_Some).
    assert (Z.of_nat (length (attempts d)) < maxRetries (policy_of config))%Z as Hlt
      by (simpl in Hmax; lia).
    destruct (retry_dispatched deliveryId payload config context env this l d
                event handler Hget Hlt Hdisp)
      as (Hdel & Hlen & Hhandlers & (d1 & Hd1 & Hlen1) & Hother & (dn & Hdn & Hidn & Hlenn)).
    set (this1 := (retry deliveryId payload config context env this).2) in *.
    apply NoDup_cons in Hnodup as [Hnotin Hnodup].
    assert (deliveries this !! generateDeliveryId env = None) as Hnew
      by (apply Hfresh; left).
    assert (generateDeliveryId env ≠ deliveryId) as Hne by congruence.
    assert (l < length (heap this))%nat as Hl by (by eapply lookup_lt_Some).
    destruct (IH this1 l d1 event handler) as (Hsize & Hheap & Hrec & Hnews & Hkeep & Hkeeph).
    + by rewrite Hdel, lookup_insert_ne.
    + done.
    + by rewrite (dispatch_same_handlers _ _ this this1).
    + rewrite Hlen1. simpl in Hmax. lia.
    + done.
    + intros env' Hin. rewrite Hdel, lookup_insert_ne.
      * apply Hfresh. by right.
      * intros Heq. apply Hnotin. rewrite Heq. by apply list_elem_of_fmap_2.
    + split_and!.
      * rewrite Hsize, Hdel, map_size_insert_None by done. simpl. lia.
      * rewrite Hheap, Hlen. simpl. lia.
      * destruct Hrec as (d' & ? & ? & Hlen'). exists d'. split_and!; [done..|].
        rewrite Hlen', Hlen1. simpl. lia.
      * intros [|i] env' Hi; simpl in Hi.
        -- injection Hi as <-. exists dn. rewrite Nat.add_0_r. split_and!; [|  |done..].
           ++ apply Hkeep. rewrite Hdel. apply lookup_insert_eq.
           ++ apply Hkeeph; [lia|done].
        -- destruct (Hnews i env' Hi) as (d' & Hx & Hy & Hz).
           exists d'. rewrite Hlen in Hx, Hy.
           replace (length (heap this) + S i)%nat with (S (length (heap this)) + i)%nat by lia.
           done.
      * intros id' l' Hid'. apply Hkeep. rewrite Hdel, lookup_insert_ne; [done|].
        congruence.
      * intros l' d' Hne' Hd'. apply Hkeeph; [done|]. by apply Hother.
Qed.

Lemma RetryPolicySchema_baseDelay policy :
  RetryPolicySchema policy → (0 <= baseDelay policy)%Q.
Proof. intros (_ & Hbase & _). lra. Qed.

Lemma two_power_nonneg (n : nat) : (0 <= inject_Z (2 ^ Z.of_nat n))%Q.
Proof.
  change 0%Q with (inject_Z 0). rewrite <- Zle_Qle. apply Z.pow_nonneg. lia.
Qed.

Lemma getAuthorizationUrl_with_state this supplied st :
  getAuthorizationUrl this (with_state supplied st) = getAuthorizationUrl this st.
Proof. by destruct this as [[] ? ?]. Qed.

Lemma generateState_run w :
  ∃ w', generateState w = (Normal (toString_hex (next_bytes 16 w)), w')
        ∧ drawn w' = (drawn w + 16)%nat.
Proof. by eexists. Qed.

Lemma io_bind_Normal {A B} (m : IO A) (k : A → IO B) w a w' :
  m w = (Normal a, w') → io_bind m k w = k a w'.
Proof. intros Hm. unfold io_bind. by rewrite Hm. Qed.

Lemma generatePKCEChallenge_run w :
  ∃ pkce w', generatePKCEChallenge w = (Normal pkce, w') ∧ (drawn w ≤ drawn w')%nat.
Proof. eexists _, _. split; [reflexivity|]. simpl. lia. Qed.

Lemma buildAuthUrl_run baseUrl params w r w' :
  buildAuthUrl baseUrl params w = (Normal r, w') → w' = w.
Proof.
  unfold buildAuthUrl, io_bind, io_lift, io_ret.
  destruct (URL_new baseUrl); by intros [= _ <-].
Qed.

Lemma getAuthorizationUrl_pkce_state this st w r w' :
  getAuthorizationUrl_pkce this st w = (Normal r, w') →
  result_state r = toString_hex (next_bytes 16 w) ∧ (drawn w + 16 ≤ drawn w')%nat.
Proof.
  unfold getAuthorizationUrl_pkce.
  destruct (generateState_run w) as (w1 & Hgen & Hdrawn).
  rewrite (io_bind_Normal _ _ _ _ _ Hgen).
  destruct (default false (usePKCE (provider_config this))).
  - destruct (generatePKCEChallenge_run w1) as (pkce & w2 & Hpkce & Hdrawn2).
    rewrite (io_bind_Normal _ _ _ _ _ Hpkce).
    unfold io_bind at 1.
    destruct (buildAuthUrl _ _ w2) as [[u|e] w3] eqn:Hurl; [|done].
    apply buildAuthUrl_run in Hurl as ->.
    unfold io_ret. intros [= <- <-]. split; [done|lia].
  - unfold io_bind at 1.
    destruct (buildAuthUrl _ _ w1) as [[u|e] w3] eqn:Hurl; [|done].
    apply buildAuthUrl_run in Hurl as ->.
    unfold io_ret. intros [= <- <-]. split; [done|lia].
Qed.

Lemma getAuthorizationUrl_plain_state sep this st w r w' :
  getAuthorizationUrl_plain sep this st w = (Normal r, w') →
  result_state r = toString_hex (next_bytes 16 w) ∧ (drawn w + 16 ≤ drawn w')%nat.
Proof.
  unfold getAuthorizationUrl_plain.
  destruct (generateState_run w) as (w1 & Hgen & Hdrawn).
  rewrite (io_bind_Normal _ _ _ _ _ Hgen).
  unfold io_bind at 1.
  destruct (buildAuthUrl _ _ w1) as [[u|e] w3] eqn:Hurl; [|done].
  apply buildAuthUrl_run in Hurl as ->.
  unfold io_ret. intros [= <- <-]. split; [done|lia].
Qed.

Lemma getAuthorizationUrl_state this st w r w' :
  getAuthorizationUrl this st w = (Normal r, w') →
  result_state r = toString_hex (next_bytes 16 w) ∧ (drawn w + 16 ≤ drawn w')%nat.
Proof.
  unfold getAuthorizationUrl.
  destruct (class this);
    eauto using getAuthorizationUrl_pkce_state, getAuthorizationUrl_plain_state.
Qed.
(** [initializeOAuth] always returns; when its result carries a state
    token, the token is the hexadecimal form of the 16 bytes drawn. *)
Lemma initializeOAuth_state_token context this w token :
  state_token (initializeOAuth context this w).1 = Some token →
  token = toString_hex (next_bytes 16 w).
Proof.
  unfold initializeOAuth.
  destruct (oauth (config this)) as [o|]; [|done].
  destruct (oauthProvider this) as [p|]; [|done].
  unfold io_catch, io_bind, Integration_generateState, emitEvent, io_lift, io_ret.
  destruct (getAuthorizationUrl p _ w) as [[r|e] w'] eqn:Hurl; [|done].
  apply getAuthorizationUrl_state in Hurl as [Hstate _].
  destruct (call_subscribers _ _ _ _); cbn [fst state_token result_data fmap option_fmap option_map];
    [|done].
  intros [= <-]. done.
Qed.

Lemma attempts_bounded_process policy payload config context env this :
  attempts_bounded policy this →
  attempts_bounded policy (process payload config context env this).2.
Proof.
  intros Hinv. case_dispatch payload config this; [|done].
  cbn [snd]. intros addr d. simpl.
  intros [Hl | [_ Hl]]%lookup_app_Some; [by eapply Hinv|].
  destruct (addr - length (heap this))%nat; [|done].
  injection Hl as <-. unfold attempts_limit. simpl. lia.
Qed.

Lemma attempts_bounded_mutate policy l f this :
  (∀ d, attempts (f d) = attempts d) →
  attempts_bounded policy this → attempts_bounded policy (mutate l f this).
Proof.
  intros Hf Hinv l' d'. simpl. destruct (decide (l' = l)) as [->|Hne].
  - rewrite list_lookup_alter_eq. destruct (heap this !! l) as [d|] eqn:Hd; [|done].
    intros [= <-]. rewrite Hf. by eapply Hinv.
  - rewrite list_lookup_alter_ne by done. apply Hinv.
Qed.

Lemma call_subscribers_quiet handlers event data context :
  Forall quiet handlers → call_subscribers handlers event data context = Normal ().
Proof.
  induction 1 as [|h handlers Hq _ IH]; [done|]. simpl.
  destruct (h event data context) eqn:Hh; [done..|]. by apply Hq in Hh.
Qed.

Lemma buildAuthUrl_Normal baseUrl params w u :
  URL_new baseUrl = Normal u →
  buildAuthUrl baseUrl params w =
    (Normal (URL_toString
               (foldl (λ u '(key, value), searchParams_append u key value) u params)),
     w).
Proof.
  intros Hurl. unfold buildAuthUrl, io_bind, io_lift, io_ret. by rewrite Hurl.
Qed.

Lemma getAuthorizationUrl_returns this st w u :
  URL_new (authUrl_of this) = Normal u →
  ∃ r w', getAuthorizationUrl this st w = (Normal r, w').
Proof.
  intros Hurl.
  assert (∀ sep, ∃ r w', getAuthorizationUrl_plain sep this st w = (Normal r, w'))
    as Hplain.
  { intros sep. unfold getAuthorizationUrl_plain.
    destruct (generateState_run w) as (w1 & Hgen & _).
    rewrite (io_bind_Normal _ _ _ _ _ Hgen).
    erewrite io_bind_Normal by (by apply buildAuthUrl_Normal).
    by eexists _, _. }
  assert (∃ r w', getAuthorizationUrl_pkce this st w = (Normal r, w')) as Hpkce.
  { unfold getAuthorizationUrl_pkce.
    destruct (generateState_run w) as (w1 & Hgen & _).
    rewrite (io_bind_Normal _ _ _ _ _ Hgen).
    destruct (default false (usePKCE (provider_config this))).
    - destruct (generatePKCEChallenge_run w1) as (pkce & w2 & Hpk & _).
      rewrite (io_bind_Normal _ _ _ _ _ Hpk).
      erewrite io_bind_Normal by (by apply buildAuthUrl_Normal).
      by eexists _, _.
    - erewrite io_bind_Normal by (by apply buildAuthUrl_Normal).
      by eexists _, _. }
  unfold getAuthorizationUrl. by destruct (class this).
Qed.

(** With OAuth configured, an authorize URL that parses and subscribers
    that do not throw, [initializeOAuth] succeeds and its state token is
    the hexadecimal form of the 16 bytes drawn. *)
Lemma initializeOAuth_succeeds context this w o p u :
  oauth (config this) = Some o →
  oauthProvider this = Some p →
  URL_new (authUrl_of p) = Normal u →
  Forall quiet (integration_eventHandlers this oauth_authorized) →
  state_token (initializeOAuth context this w).1 =
    Some (toString_hex (next_bytes 16 w)).
Proof.
  intros Ho Hp Hurl Hquiet.
  destruct (state_token (initializeOAuth context this w).1) as [token|] eqn:Htoken.
  - f_equal. by apply initializeOAuth_state_token in Htoken.
  - exfalso. revert Htoken. unfold initializeOAuth. rewrite Ho, Hp.
    unfold io_catch, io_bind, Integration_generateState, emitEvent, io_lift, io_ret.
    match goal with
    | |- context [getAuthorizationUrl p ?st w] =>
        destruct (getAuthorizationUrl_returns p st w u Hurl) as (r & w' & ->)
    end.
    by rewrite call_subscribers_quiet.
Qed.

Lemma attempts_bounded_retry payload config context env deliveryId this :
  attempts_bounded (policy_of config) this →
  attempts_bounded (policy_of config)
    (retry deliveryId payload config context env this).2.
Proof.
  intros Hinv.
  destruct (getDelivery deliveryId this) as [[l d]|] eqn:Hget.
  - destruct (Z_le_gt_dec (maxRetries (policy_of config))
                (Z.of_nat (length (attempts d)))) as [Hmax|Hlt].
    + rewrite (retry_refused _ _ _ _ _ _ l d) by done.
      by apply attempts_bounded_mutate.
    + destruct (retry_passed deliveryId payload config context env this l d Hget)
        as (a & f & -> & _ & Hf & _); [lia|].
      apply attempts_bounded_mutate; [intros d'; apply Hf|].
      set (this1 := mutate l (set_status retrying) this).
      assert (attempts_bounded (policy_of config)
                (process payload config context env this1).2) as Hinv1
        by (apply attempts_bounded_process; by apply attempts_bounded_mutate).
      apply getDelivery_Some in Hget as [_ Hd].
      pose proof (heap_mutate_eq l (set_status retrying) this d Hd) as Hd1.
      eapply prefix_lookup_Some in Hd1; [|apply process_heap_prefix].
      intros l' d'. simpl. destruct (decide (l' = l)) as [->|Hne].
      * fold this1. rewrite list_lookup_alter_eq, Hd1. intros [= <-]. simpl.
        rewrite length_app. simpl. unfold attempts_limit. lia.
      * rewrite list_lookup_alter_ne by done. apply Hinv1.
  - by rewrite retry_not_found.
Qed.

Lemma validate_try_tampered payload config hdrs sig :
  body_truthy (body payload) = true →
  headers payload = Some hdrs →
  truthy (secret config) = true →
  truthy (signature payload) = true →
  hdrs !! toLowerCase (or_default (signatureHeader config) (js "x-hub-signature-256"))
    = Some sig →
  Buffer_from sig ≠
    Buffer_from
      (generate (signatureValidators (default hmac_sha256 (signatureMethod config)))
         (match rawBody payload with
          | RawString s => s
          | RawBuffer b => Buffer_toString b
          end)
         (default [] (secret config))) →
  isValid (WebhookValidator_validate payload config) = false.
Proof.
  intros Hbody Hhdrs Hsecret Hsig Hheader Hdiff.
  unfold WebhookValidator_validate, validate_try.
  rewrite Hbody, Hhdrs, Hsecret, Hsig. simpl.
  unfold validateSignature. rewrite Hheader.
  destruct (truthy (Some sig)); simpl; [|done].
  rewrite validate_unfold. unfold timingSafeEqual.
  case_bool_decide; simpl; [|done].
  by rewrite bool_decide_eq_false_2.
Qed.

Lemma validate_try_length_mismatch payload config hdrs sig :
  body_truthy (body payload) = true →
  headers payload = Some hdrs →
  truthy (secret config) = true →
  truthy (signature payload) = true →
  hdrs !! toLowerCase (or_default (signatureHeader config) (js "x-hub-signature-256"))
    = Some sig →
  sig ≠ [] →
  length (Buffer_from sig) ≠
    length
      (Buffer_from
         (generate (signatureValidators (default hmac_sha256 (signatureMethod config)))
            (match rawBody payload with
             | RawString s => s
             | RawBuffer b => Buffer_toString b
             end)
            (default [] (secret config)))) →
  validate_try payload config =
    Throw (ErrorObject "RangeError"
             (js "Input buffers must have the same byte length")).
Proof.
  intros Hbody Hhdrs Hsecret Hsig Hheader Hne Hlen.
  unfold validate_try. rewrite Hbody, Hhdrs, Hsecret, Hsig. cbn [andb].
  unfold validateSignature. rewrite Hheader.
  destruct sig as [|c sig]; [done|]. cbn [truthy negb default].
  rewrite validate_unfold, timingSafeEqual_throws by done. reflexivity.
Qed.

(* Generated delivery ids *)

(** The decimal digits of a number hold no underscore. *)
Lemma pretty_N_go_no_underscore x s :
  "_"%char ∉ list_ascii_of_string s →
  "_"%char ∉ list_ascii_of_string (pretty_N_go x s).
Proof.
  revert s. induction (N.lt_wf_0 x) as [x _ IH]; intros s Hs.
  assert (x = 0 ∨ 0 < x)%N as [->|Hx] by lia.
  - by rewrite pretty_N_go_0.
  - rewrite pretty_N_go_step by done. apply IH.
    { by apply N.div_lt. }
    simpl. rewrite not_elem_of_cons. split; [|done].
    unfold pretty_N_char. by repeat case_match.
Qed.

Lemma pretty_Z_no_underscore (z : Z) : "_"%char ∉ list_ascii_of_string (pretty z).
Proof.
  assert (∀ n : N, "_"%char ∉ list_ascii_of_string (pretty n)) as HN.
  { intros n. unfold pretty, pretty_N. case_decide.
    - simpl. rewrite not_elem_of_cons. split; [done|apply not_elem_of_nil].
    - apply pretty_N_go_no_underscore. apply not_elem_of_nil. }
  destruct z as [|p|p]; unfold pretty, pretty_Z.
  - simpl. rewrite not_elem_of_cons. split; [done|apply not_elem_of_nil].
  - apply (HN (Npos p)).
  - simpl. rewrite not_elem_of_cons. split; [done|apply (HN (Npos p))].
Qed.

Lemma js_inj s t : js s = js t → s = t.
Proof.
  unfold js. intros Heq.
  rewrite <-(string_of_list_ascii_of_string s), <-(string_of_list_ascii_of_string t).
  f_equal. revert Heq. generalize (list_ascii_of_string s), (list_ascii_of_string t).
  intros l. induction l as [|a l IH]; intros [|b l'] Heq; try done.
  simpl in Heq. injection Heq as Hab Hl.
  f_equal; [|by apply IH].
  rewrite <-(ascii_N_embedding a), <-(ascii_N_embedding b). by rewrite Hab.
Qed.

Lemma decimal_no_underscore z : 95 ∉ decimal z.
Proof.
  unfold decimal, js. intros Hin.
  apply list_elem_of_fmap in Hin as (a & Ha & Hin).
  apply (pretty_Z_no_underscore z).
  replace "_"%char with a; [done|].
  rewrite <-(ascii_N_embedding a), <-Ha. reflexivity.
Qed.

(** Two strings cut at their first separator. *)
Lemma app_sep_inj {A} (sep : A) d1 d2 s1 s2 :
  sep ∉ d1 → sep ∉ d2 → d1 ++ sep :: s1 = d2 ++ sep :: s2 → d1 = d2 ∧ s1 = s2.
Proof.
  revert d2. induction d1 as [|a d1 IH]; intros [|b d2] H1 H2 Heq; simpl in Heq.
  - by injection Heq as ->.
  - injection Heq as <- _. exfalso. apply H2. left.
  - injection Heq as -> _. exfalso. apply H1. left.
  - injection Heq as -> Heq.
    apply not_elem_of_cons in H1 as [_ H1]. apply not_elem_of_cons in H2 as [_ H2].
    destruct (IH d2 H1 H2 Heq) as [-> ->]. done.
Qed.

(** Two generated ids are the same exactly when they were made from the
    same clock reading and the same nine characters of the random draw. *)
Lemma generateDeliveryId_inj env1 env2 :
  generateDeliveryId env1 = generateDeliveryId env2 ↔ id_reading env1 = id_reading env2.
Proof.
  unfold generateDeliveryId, id_reading. split.
  - intros Heq. apply app_inv_head in Heq.
    change (js "_") with [95] in Heq. cbn [app] in Heq.
    apply app_sep_inj in Heq as [Hnow Hrandom]; try apply decimal_no_underscore.
    unfold decimal in Hnow. apply js_inj in Hnow. apply (inj pretty) in Hnow.
    by rewrite Hnow, Hrandom.
  - intros [= -> ->]. done.
Qed.

(** Runs whose readings differ pairwise generate ids that differ pairwise. *)
Lemma generateDeliveryId_NoDup envs :
  NoDup (id_reading <$> envs) → NoDup (generateDeliveryId <$> envs).
Proof.
  induction envs as [|env envs IH]; [constructor|].
  rewrite !fmap_cons, !NoDup_cons. intros [Hnotin Hnodup]. split; [|by apply IH].
  intros Hin. apply Hnotin.
  apply list_elem_of_fmap in Hin as (env' & Heq & Hin).
  apply generateDeliveryId_inj in Heq. rewrite Heq.
  by apply list_elem_of_fmap_2.
Qed.

(* ASCII strings with the same bytes *)

Lemma to_N_byte_of_N_land n : Byte.to_N (byte_of_N n) = N.land n 0xFF.
Proof.
  assert (N.land n 0xFF < 256) as Hlt.
  { change 0xFF with (N.ones 8). rewrite N.land_ones. by apply N.mod_lt. }
  rewrite <-(to_N_byte_of_N (N.land n 0xFF)) by done.
  unfold byte_of_N. by rewrite <-N.land_assoc, N.land_diag.
Qed.

Lemma ascii_byte_low c : c < 128 → N.testbit (Byte.to_N (byte_of_N c)) 7 = false.
Proof.
  intros Hc. rewrite to_N_byte_of_N by lia.
  destruct (decide (c = 0)) as [->|Hne]; [done|].
  apply N.bits_above_log2. apply N.log2_lt_pow2; [lia|]. simpl. lia.
Qed.

Lemma utf8_encode_head cp :
  128 ≤ cp →
  ∃ b rest, utf8_encode cp = b :: rest ∧ N.testbit (Byte.to_N b) 7 = true.
Proof.
  intros Hcp. unfold utf8_encode.
  replace (cp <? 128) with false by (symmetry; apply N.ltb_ge; lia).
  destruct (cp <? 2048); [|destruct (cp <? 65536)].
  all: eexists _, _; split; [reflexivity|].
  all: by rewrite to_N_byte_of_N_land, N.land_spec, N.lor_spec.
Qed.

Lemma Buffer_from_head_high c s :
  is_ascii c = false →
  ∃ b rest, Buffer_from (c :: s) = b :: rest ∧ N.testbit (Byte.to_N b) 7 = true.
Proof.
  intros Hc. unfold is_ascii in Hc. apply N.ltb_ge in Hc.
  assert (∀ cp more, 128 ≤ cp →
            ∃ b rest, utf8_encode cp ++ more = b :: rest
                      ∧ N.testbit (Byte.to_N b) 7 = true) as Henc.
  { intros cp more Hcp. destruct (utf8_encode_head cp Hcp) as (b & rest & -> & Hb).
    by exists b, (rest ++ more). }
  cbn [Buffer_from].
  destruct (is_high_surrogate c).
  - destruct s as [|d s].
    + rewrite <-(app_nil_r (utf8_encode _)). by apply Henc.
    + destruct (is_low_surrogate d); apply Henc; [lia|done].
  - destruct (is_low_surrogate c); by apply Henc.
Qed.

(** A string with the UTF-8 bytes of an ASCII string is that string. *)

Lemma Buffer_from_eq_ascii s t :
  Forall (λ c, is_ascii c = true) t → Buffer_from s = Buffer_from t → s = t.
Proof.
  intros Ht. rewrite (Buffer_from_ascii t Ht).
  revert t Ht. induction s as [|c s IH]; intros t Ht Heq.
  - by destruct t.
  - destruct (is_ascii c) eqn:Hc.
    + change (c :: s) with ([c] ++ s) in Heq.
      rewrite (Buffer_from_ascii_app [c] s) in Heq by (by apply Forall_singleton).
      rewrite (Buffer_from_ascii [c]) in Heq by (by apply Forall_singleton).
      destruct t as [|d t]; [done|].
      apply Forall_cons in Ht as [Hd Ht]. simpl in Heq. injection Heq as Hcd Hrest.
      unfold is_ascii in Hc, Hd. apply N.ltb_lt in Hc, Hd.
      f_equal; [apply byte_of_N_inj; [lia|lia|done]|by apply IH].
    + destruct (Buffer_from_head_high c s Hc) as (b & rest & Hb & Hbit).
      rewrite Hb in Heq. destruct t as [|d t]; [done|].
      apply Forall_cons in Ht as [Hd _]. simpl in Heq. injection Heq as -> _.
      unfold is_ascii in Hd. apply N.ltb_lt in Hd.
      rewrite ascii_byte_low in Hbit by done. done.
Qed.

(* Event classification *)

Lemma eventHeaders_lower name : name ∈ eventHeaders → toLowerCase name = name.
Proof.
  unfold eventHeaders. rewrite !elem_of_cons, elem_of_nil.
  intros [->|[->|[->|[->|[->|[]]]]]]; reflexivity.
Qed.

Lemma first_event_header_priority names hdrs i name e :
  (∀ n, n ∈ names → toLowerCase n = n) →
  names !! i = Some name →
  hdrs !! name = Some e → e ≠ [] →
  (∀ j earlier, (j < i)%nat → names !! j = Some earlier →
                truthy (hdrs !! earlier) = false) →
  first_event_header names hdrs = Some e.
Proof.
  revert i. induction names as [|n names IH]; intros i Hlow Hi He Hne Hearlier; [done|].
  cbn [first_event_header]. rewrite (Hlow n) by left.
  destruct i as [|i].
  - injection Hi as ->. rewrite He. by destruct e.
  - rewrite (Hearlier 0%nat n) by (done || lia).
    apply (IH i); try done.
    + intros n' Hn'. apply Hlow. by right.
    + intros j earlier Hj Hlook. apply (Hearlier (S j)); [lia|done].
Qed.

Lemma first_event_header_none names hdrs :
  (∀ n, n ∈ names → toLowerCase n = n) →
  (∀ n, n ∈ names → truthy (hdrs !! n) = false) →
  first_event_header names hdrs = None.
Proof.
  induction names as [|n names IH]; intros Hlow Hf; [done|].
  cbn [first_event_header]. rewrite (Hlow n) by left. rewrite (Hf n) by left.
  apply IH; intros n' Hn'; [apply Hlow|apply Hf]; by right.
Qed.

Lemma first_event_header_truthy names hdrs e :
  first_event_header names hdrs = Some e → e ≠ [].
Proof.
  induction names as [|n names IH]; [done|]. cbn [first_event_header].
  destruct (truthy (hdrs !! toLowerCase n)) eqn:Ht; [|done].
  intros Heq. rewrite Heq in Ht. by destruct e.
Qed.

(* Processing and retrying *)




Lemma retry_passed_state deliveryId payload config context env this l d :
  getDelivery deliveryId this = Some (l, d) →
  (Z.of_nat (length (attempts d)) < maxRetries (policy_of config))%Z →
  ∃ result,
    (process payload config context env (mutate l (set_status retrying) this)).1
      = Normal result
    ∧ (retry deliveryId payload config context env this).1 = result
    ∧ heap (retry deliveryId payload config context env this).2 !! l =
        Some (set_status (status_after result)
                (push_attempt (retry_attempt config env d result) d)).
Proof.
  intros Hget Hlt.
  pose proof Hget as Hget'. apply getDelivery_Some in Hget' as [_ Hd].
  pose proof (heap_mutate_eq l (set_status retrying) this d Hd) as Hd1.
  eapply prefix_lookup_Some in Hd1;
    [|apply (process_heap_prefix payload config context env)].
  unfold retry. rewrite Hget. simpl.
  fold (policy_of config). apply Z.leb_gt in Hlt. rewrite Hlt.
  destruct (process_returns payload config context env
              (mutate l (set_status retrying) this)) as [result Hres].
  revert Hd1.
  destruct (process _ _ _ _ _) as [outcome this2]. simpl in Hres. subst outcome.
  intros Hd1. exists result. split; [done|]. split; [done|].
  cbn [fst snd]. unfold status_after.
  set (a := retry_attempt config env d result).
  pose proof (heap_mutate_eq l (push_attempt a) this2 _ Hd1) as Hd2.
  destruct (success result).
  - transitivity (Some (set_status delivered (push_attempt a (set_status retrying d))));
      [|reflexivity].
    apply heap_mutate_eq. exact Hd2.
  - destruct (default false (shouldRetry result)) eqn:Hsr; cbn [negb].
    + subst a. unfold retry_attempt in *. rewrite Hsr in *. exact Hd2.
    + subst a. unfold retry_attempt in *. rewrite Hsr in *.
      match goal with
      | |- _ = Some (set_status failed (push_attempt ?a d)) =>
          transitivity (Some (set_status failed (push_attempt a (set_status retrying d))));
            [|reflexivity]
      end.
      apply heap_mutate_eq. exact Hd2.
Qed.

(* Delays *)

Lemma two_power_doubles (n m : nat) :
  (n < m)%nat → (2 * inject_Z (2 ^ Z.of_nat n) <= inject_Z (2 ^ Z.of_nat m))%Q.
Proof.
  intros Hlt.
  change 2%Q with (inject_Z 2). rewrite <-inject_Z_mult, <-Zle_Qle.
  replace (2 * 2 ^ Z.of_nat n)%Z with (2 ^ Z.of_nat (S n))%Z
    by (rewrite Nat2Z.inj_succ, Z.pow_succ_r; lia).
  apply Z.pow_le_mono_r; lia.
Qed.

(* The webhook manager *)

Lemma toLowerCase_idemp s : toLowerCase (toLowerCase s) = toLowerCase s.
Proof.
  unfold toLowerCase. rewrite <-list_fmap_compose. apply list_fmap_ext.
  intros _ c _. simpl.
  destruct ((65 <=? c) && (c <=? 90)) eqn:Hc; [|by rewrite Hc].
  apply andb_true_iff in Hc as [H1 H2].
  apply N.leb_le in H1, H2.
  replace ((65 <=? c + 32) && (c + 32 <=? 90)) with false; [done|].
  symmetry. apply andb_false_iff. right. apply N.leb_gt. lia.
Qed.

Lemma normalizeHeaders_snoc entries key value :
  normalizeHeaders (entries ++ [(key, value)]) =
    <[toLowerCase key := value]> (normalizeHeaders entries).
Proof. unfold normalizeHeaders. by rewrite foldl_app. Qed.


Lemma normalizeHeaders_unique entries key value :
  NoDup (toLowerCase <$> entries.*1) →
  (key, value) ∈ entries →
  normalizeHeaders entries !! toLowerCase key = Some value.
Proof.
  induction entries as [|[k v] entries IH] using rev_ind; [by intros _ ?%elem_of_nil|].
  rewrite fmap_app, fmap_app. simpl.
  intros [Hnd [Hdisj _]]%NoDup_app Hin.
  rewrite normalizeHeaders_snoc.
  rewrite elem_of_app, list_elem_of_singleton in Hin.
  destruct Hin as [Hin|[= -> ->]].
  - rewrite lookup_insert_ne; [by apply IH|].
    intros Heq. apply (Hdisj (toLowerCase key)).
    + apply list_elem_of_fmap. exists key. split; [done|].
      apply list_elem_of_fmap. by exists (key, value).
    + rewrite <-Heq. apply list_elem_of_singleton. done.
  - apply lookup_insert_eq.
Qed.

Lemma handleWebhook_config integrationId rawHeaders body rawBody context env this config :
  configs this !! integrationId = Some config →
  WebhookManager_handleWebhook integrationId rawHeaders body rawBody context env this =
    let payload := received_payload rawHeaders body rawBody config env in
    let processed := process payload config context env (processor this) in
    let this' :=
      {| processor := processed.2;
         configs := configs this;
         manager_eventHandlers := manager_eventHandlers this |} in
    (bind processed.1 (λ result,
       bind
         (if success result && truthy (event result) then
            WebhookManager_emitEvent webhook_received
              (Received (default [] (event result))) context this'
          else if negb (success result) then
            WebhookManager_emitEvent webhook_failed
              (Failed (error result)) context this'
          else Normal ())
         (λ _, Normal result)),
     this').
Proof. intros Hc. unfold WebhookManager_handleWebhook. by rewrite Hc. Qed.

(** [process] reads the configuration for the endpoint of the record and
    for the verdict only. *)

Lemma process_same_verdict payload config config' context env this :
  WebhookValidator_validate payload config = WebhookValidator_validate payload config' →
  endpoint config = endpoint config' →
  process payload config context env this = process payload config' context env this.
Proof. intros Hv He. unfold process. by rewrite Hv, He. Qed.

Lemma validate_signature_passes payload config hdrs sig raw :
  headers payload = Some hdrs →
  rawBody payload = RawString raw →
  truthy (secret config) = true →
  hdrs !! toLowerCase (or_default (signatureHeader config) (js "x-hub-signature-256"))
    = Some sig →
  sig = generate (signatureValidators (default hmac_sha256 (signatureMethod config)))
          raw (default [] (secret config)) →
  validate_try payload config = validate_try payload (without_secret config).
Proof.
  intros Hh Hraw Hs Hsig ->. unfold validate_try. rewrite Hh. simpl.
  destruct (body_truthy (body payload)); [|done].
  rewrite Hs. simpl. destruct (truthy (signature payload)); [|done].
  unfold validateSignature. rewrite Hsig, Hraw.
  set (m := default hmac_sha256 (signatureMethod config)).
  assert (truthy (Some (generate (signatureValidators m) raw (default [] (secret config))))
            = true) as ->.
  { rewrite generate_format. by destruct m. }
  cbn [negb default]. rewrite validate_unfold, timingSafeEqual_refl. done.
Qed.

Lemma handleWebhook_same_verdict integrationId rawHeaders body rawBody context env
    this config config' :
  configs this !! integrationId = Some config →
  endpoint config' = endpoint config →
  (∀ payload,
     payload = received_payload rawHeaders body rawBody config env →
     WebhookValidator_validate payload config = WebhookValidator_validate payload config') →
  signatureHeader config' = signatureHeader config →
  let handled this := WebhookManager_handleWebhook integrationId rawHeaders body rawBody
                        context env this in
  (handled (register integrationId config' this)).1 = (handled this).1
  ∧ processor (handled (register integrationId config' this)).2
      = processor (handled this).2.
Proof.
  intros Hc He Hv Hh handled. subst handled. cbn beta.
  rewrite (handleWebhook_config _ _ _ _ _ _ this config Hc).
  rewrite (handleWebhook_config _ _ _ _ _ _ (register integrationId config' this) config')
    by apply lookup_insert_eq.
  cbv zeta.
  assert (received_payload rawHeaders body rawBody config' env
            = received_payload rawHeaders body rawBody config env) as ->.
  { unfold received_payload, extractSignature. by rewrite Hh. }
  rewrite (process_same_verdict _ config' config); [done| |done].
  symmetry. by apply Hv.
Qed.

(* Requests of the OAuth providers *)

Lemma http_run request w :
  http request w =
    (server w (requests w ++ [request]),
     {| entropy := entropy w; drawn := drawn w;
        requests := requests w ++ [request]; server := server w;
        clock := clock w; clock36 := clock36 w;
        math_random36 := math_random36 w |}).
Proof. reflexivity. Qed.

Lemma requests_since_app w w' l :
  requests w' = requests w ++ l → requests_since w w' = l.
Proof. unfold requests_since. intros ->. by rewrite drop_app_length. Qed.

(** The requests of [getUserInfo]: at most one [GET]. *)

Lemma CustomOAuth_getUserInfo_requests this tokens w :
  ∃ rest, requests (CustomOAuth_getUserInfo this tokens w).2 = requests w ++ rest
          ∧ Forall (λ r, ∀ key, sends key r = false) rest
          ∧ (length rest ≤ 1)%nat.
Proof.
  unfold CustomOAuth_getUserInfo. destruct (negb _).
  - exists []. rewrite app_nil_r. split_and!; [done|done|simpl; lia].
  - rewrite http_run. eexists [_]. split_and!; [done| |done].
    by apply Forall_singleton.
Qed.

Lemma GitHubOAuth_getUserInfo_requests this tokens w :
  ∃ rest, requests (GitHubOAuth_getUserInfo this tokens w).2 = requests w ++ rest
          ∧ Forall (λ r, ∀ key, sends key r = false) rest
          ∧ (length rest ≤ 1)%nat.
Proof.
  unfold GitHubOAuth_getUserInfo. rewrite http_run. eexists [_]. split_and!; [done| |done].
  by apply Forall_singleton.
Qed.

Lemma truthy_is_Some o : truthy o = true → bool_decide (is_Some o) = true.
Proof. intros Ht. apply bool_decide_eq_true. destruct o; [by eexists|done]. Qed.

Lemma io_bind_run {A B} (m : IO A) (k : A → IO B) w :
  io_bind m k w =
    match m w with
    | (Normal a, w') => k a w'
    | (Throw e, w') => (Throw e, w')
    end.
Proof. reflexivity. Qed.

(** The requests of an exchange by [CustomOAuth]: the token request, then
    at most the user-info request. *)

Lemma CustomOAuth_exchange_requests this code st w :
  ∃ fields rest,
    requests (CustomOAuth_exchangeCodeForTokens this code st w).2
      = requests w ++ Post (tokenUrl_of this) fields :: rest
    ∧ sends (js "client_secret") (Post (tokenUrl_of this) fields) =
        negb (default false (usePKCE (provider_config this)))
        && truthy (clientSecret (provider_config this))
    ∧ sends (js "code_verifier") (Post (tokenUrl_of this) fields) =
        truthy (codeVerifier st)
    ∧ Forall (λ r, ∀ key, sends key r = false) rest
    ∧ (length rest ≤ 1)%nat.
Proof.
  unfold CustomOAuth_exchangeCodeForTokens. cbv zeta.
  match goal with
  | |- context [Post (tokenUrl_of this) ?f] => set (fields := f)
  end.
  exists fields.
  assert (sends (js "client_secret") (Post (tokenUrl_of this) fields) =
            negb (default false (usePKCE (provider_config this)))
            && truthy (clientSecret (provider_config this))
          ∧ sends (js "code_verifier") (Post (tokenUrl_of this) fields) =
              truthy (codeVerifier st)) as [Hsecret Hverifier].
  { subst fields. unfold sends.
    destruct (negb _ && truthy (clientSecret _)) eqn:Hs;
      destruct (truthy (codeVerifier st)) eqn:Hv.
    all: try (apply andb_true_iff in Hs as [_ Hs]; apply truthy_is_Some in Hs).
    all: try apply truthy_is_Some in Hv.
    all: cbn [app existsb fst snd]; rewrite ?Hs, ?Hv; split; reflexivity. }
  rewrite io_bind_run, http_run.
  destruct (server w _) as [response|e].
  - rewrite io_bind_run. unfold parsed at 1.
    destruct (truthy (userInfoUrl (provider_config this))).
    + rewrite io_bind_run.
      match goal with
      | |- context [CustomOAuth_getUserInfo this ?t ?w1] =>
          destruct (CustomOAuth_getUserInfo_requests this t w1) as (rest & Hrest & Hget & Hlen);
          destruct (CustomOAuth_getUserInfo this t w1) as [[userInfo|e] w2]
      end.
      all: exists rest; simpl in Hrest |- *; rewrite Hrest, <-app_assoc; done.
    + exists []. split_and!; try done; simpl; lia.
  - exists []. split_and!; try done; simpl; lia.
Qed.

Lemma GitHubOAuth_exchange_requests this code st w :
  ∃ fields rest,
    requests (GitHubOAuth_exchangeCodeForTokens this code st w).2
      = requests w ++ Post (tokenUrl_of this) fields :: rest
    ∧ sends (js "code_verifier") (Post (tokenUrl_of this) fields) =
        truthy (codeVerifier st)
    ∧ Forall (λ r, ∀ key, sends key r = false) rest
    ∧ (length rest ≤ 1)%nat.
Proof.
  unfold GitHubOAuth_exchangeCodeForTokens. cbv zeta.
  match goal with
  | |- context [Post (tokenUrl_of this) ?f] => set (fields := f)
  end.
  exists fields.
  assert (sends (js "code_verifier") (Post (tokenUrl_of this) fields) =
            truthy (codeVerifier st)) as Hverifier.
  { subst fields. unfold sends.
    destruct (truthy (codeVerifier st)) eqn:Hv.
    - apply truthy_is_Some in Hv. cbn [app existsb fst snd]. rewrite Hv.
      by destruct (bool_decide (is_Some (clientSecret _))).
    - cbn [app existsb fst snd].
      by destruct (bool_decide (is_Some (clientSecret _))). }
  rewrite io_bind_run, http_run.
  destruct (server w _) as [response|e].
  - rewrite io_bind_run. unfold parsed at 1. rewrite io_bind_run.
    match goal with
    | |- context [GitHubOAuth_getUserInfo this ?t ?w1] =>
        destruct (GitHubOAuth_getUserInfo_requests this t w1) as (rest & Hrest & Hget & Hlen);
        destruct (GitHubOAuth_getUserInfo this t w1) as [[userInfo|e] w2]
    end.
    all: exists rest; simpl in Hrest |- *; rewrite Hrest, <-app_assoc; done.
  - exists []. split_and!; try done; simpl; lia.
Qed.

Lemma completeOAuth_requests exchange code st context this w o p :
  oauth (instance_config this) = Some o →
  instance_oauthProvider this = Some p →
  requests (completeOAuth exchange code st context this w).2 =
    requests (exchange p code
                {| state := st; codeVerifier := None;
                   state_redirectUri := redirectUri o;
                   state_scopes := scopes o;
                   state_userId := userId context |} w).2.
Proof.
  intros Ho Hp. unfold completeOAuth. rewrite Ho, Hp.
  unfold io_catch. cbv zeta. rewrite io_bind_run.
  destruct (exchange p code _ w) as [[result|e] w1]; [|done].
  rewrite io_bind_run. unfold Integration_emitEvent, io_lift.
  by destruct (notify _ _ _ _).
Qed.

Lemma completeOAuth_not_configured exchange code st context this w :
  oauth (instance_config this) = None ∨ instance_oauthProvider this = None →
  completeOAuth exchange code st context this w = (Normal oauth_not_configured, w).
Proof.
  unfold completeOAuth. intros [->| ->]; [done|].
  by destruct (oauth (instance_config this)).
Qed.

(* Construction and the subscribers of the façade *)

Lemma notify_quiet {D} (handlers : list (Subscriber D)) event data context :
  Forall quiet_subscriber handlers → notify handlers event data context = Normal ().
Proof.
  induction 1 as [|handler handlers Hq _ IH]; [done|]. simpl.
  destruct (handler event data context) eqn:Hh; [done|done|]. by destruct (Hq _ _ _ _ Hh).
Qed.

Lemma RetryPolicy_safeParse_Schema policy :
  RetryPolicy_safeParse policy = true ↔ RetryPolicySchema policy.
Proof.
  unfold RetryPolicy_safeParse, RetryPolicySchema.
  rewrite !andb_true_iff, !Z.leb_le, !Qle_bool_iff. tauto.
Qed.

Lemma initializeOAuthProvider_world config w :
  (initializeOAuthProvider config w).2 = w.
Proof.
  unfold initializeOAuthProvider. destruct (oauth config) as [o|]; [|done].
  destruct (provider config); try done.
  unfold io_bind, CustomOAuth_new. by destruct (_ || _).
Qed.

Lemma initializeOAuthProvider_throws config w :
  (∃ e, (initializeOAuthProvider config w).1 = Throw e)
  ↔ ∃ o, oauth config = Some o
         ∧ (provider config = discord
            ∨ provider config = custom
              ∧ (truthy (authUrl o) = false ∨ truthy (tokenUrl o) = false)).
Proof.
  unfold initializeOAuthProvider. destruct (oauth config) as [o|].
  - destruct (provider config) eqn:Hp; simpl.
    1-4: split; [by intros [e ?]|]; intros (? & _ & [?|[? _]]); done.
    + split; [|by eexists]. intros _. exists o. split; [done|]. by left.
    + unfold io_bind, CustomOAuth_new.
      destruct (truthy (authUrl o)) eqn:Ha; destruct (truthy (tokenUrl o)) eqn:Ht; simpl.
      * split; [by intros [e ?]|].
        intros (o' & [= <-] & [?|[_ [?|?]]]); congruence.
      * split; [|by eexists]. intros _. exists o. split; [done|]. right. split; [done|].
        by right.
      * split; [|by eexists]. intros _. exists o. split; [done|]. right. split; [done|].
        by left.
      * split; [|by eexists]. intros _. exists o. split; [done|]. right. split; [done|].
        by left.
  - simpl. split; [by intros [e ?]|]. by intros (? & ? & _).
Qed.

Lemma or_default_truthy a d : d ≠ [] → truthy (Some (or_default a d)) = true.
Proof. intros Hd. destruct a as [[|c s]|]; simpl; by destruct d. Qed.

Lemma or_default_keeps a d : truthy a = true → Some (or_default a d) = a.
Proof. by destruct a as [[|c s]|]. Qed.

Lemma Integration_new_run issues config w :
  Integration_new issues config w =
    if negb (IntegrationConfigSchema_safeParse config) then
      (Throw (ErrorObject "Error"
                (js "Invalid integration configuration: " ++ issues)), w)
    else
      match (initializeOAuthProvider config w).1 with
      | Normal oauthProvider =>
          (Normal {| instance_config := config;
                     instance_oauthProvider := oauthProvider;
                     webhookManager := initializeWebhooks config WebhookManager_new;
                     instance_eventHandlers := λ _, [] |}, w)
      | Throw e => (Throw e, w)
      end.
Proof.
  unfold Integration_new. destruct (negb _); [done|].
  rewrite io_bind_run.
  pose proof (initializeOAuthProvider_world config w) as Hw.
  destruct (initializeOAuthProvider config w) as [[p|e] w1]; simpl in Hw; by subst w1.
Qed.

(* The retry loop of the API client *)

Lemma executeWithRetry_loop_step {R} (policy : RetryPolicy) fuel attempt lastError
    (t : Transport R) :
  executeWithRetry_loop policy (S fuel) attempt lastError t =
    let requested :=
      {| answer := answer t; sent := S (sent t);
         slept := slept t; jitter := jitter t |} in
    match answer t (sent t) with
    | inl response => (inl response, requested)
    | inr error =>
        if (Z.of_nat attempt =? maxRetries policy)%Z || negb (isRetryableError error)
        then (inr (Some error), requested)
        else
          executeWithRetry_loop policy fuel (S attempt) (Some error)
            {| answer := answer t; sent := S (sent t);
               slept := slept t ++ [calculateRetryDelay attempt policy (jitter t attempt)];
               jitter := jitter t |}
    end.
Proof. reflexivity. Qed.

Lemma executeWithRetry_loop_spec {R} (policy : RetryPolicy) fuel attempt lastError
    (t : Transport R) :
  (Z.of_nat attempt + Z.of_nat (S fuel) = maxRetries policy + 1)%Z →
  let run := executeWithRetry_loop policy (S fuel) attempt lastError t in
  ∃ n : nat,
    (n ≤ fuel)%nat
    ∧ sent run.2 = (sent t + S n)%nat
    ∧ answer run.2 = answer t
    ∧ jitter run.2 = jitter t
    ∧ slept run.2 = slept t ++ pauses policy t attempt n
    ∧ (∀ i, (i < n)%nat →
         ∃ error, answer t (sent t + i)%nat = inr error
                  ∧ isRetryableError error = true)
    ∧ match run.1 with
      | inl response => answer t (sent t + n)%nat = inl response
      | inr (Some error) =>
          answer t (sent t + n)%nat = inr error
          ∧ (isRetryableError error = false ∨ n = fuel)
      | inr None => False
      end.
Proof.
  revert attempt lastError t.
  induction fuel as [|fuel IH]; intros attempt lastError t Haligned run; subst run.
  - rewrite executeWithRetry_loop_step. cbv zeta.
    destruct (answer t (sent t)) as [response|error] eqn:Hanswer.
    + exists 0%nat. cbn [fst snd sent answer jitter slept]. unfold pauses. simpl.
      rewrite Nat.add_0_r, app_nil_r. split_and!; try done; try lia.
    + replace (Z.of_nat attempt =? maxRetries policy)%Z with true
        by (symmetry; apply Z.eqb_eq; lia).
      cbn [orb]. exists 0%nat. cbn [fst snd sent answer jitter slept].
      unfold pauses. simpl. rewrite Nat.add_0_r, app_nil_r.
      split_and!; try done; try lia.
  - rewrite executeWithRetry_loop_step. cbv zeta.
    destruct (answer t (sent t)) as [response|error] eqn:Hanswer.
    + exists 0%nat. cbn [fst snd sent answer jitter slept]. unfold pauses. simpl.
      rewrite Nat.add_0_r, app_nil_r. split_and!; try done; try lia.
    + replace (Z.of_nat attempt =? maxRetries policy)%Z with false
        by (symmetry; apply Z.eqb_neq; lia).
      cbn [orb]. destruct (isRetryableError error) eqn:Hretryable; cbn [negb].
      * match goal with
        | |- context [executeWithRetry_loop policy (S fuel) (S attempt) ?e ?t'] =>
            destruct (IH (S attempt) e t') as
              (n & Hn & Hsent & Hans & Hjit & Hslept & Hearlier & Hlast); [lia|]
        end.
        cbn [sent answer jitter slept] in Hsent, Hans, Hjit, Hslept, Hearlier, Hlast.
        exists (S n). split_and!.
        -- lia.
        -- rewrite Hsent. lia.
        -- done.
        -- done.
        -- rewrite Hslept, <-app_assoc. f_equal.
        -- intros i Hi. destruct i as [|i].
           ++ rewrite Nat.add_0_r. by exists error.
           ++ destruct (Hearlier i) as (e & He & Hr); [lia|].
              exists e. split; [|done]. rewrite <-He. f_equal. lia.
        -- revert Hlast.
           replace (sent t + S n)%nat with (S (sent t) + n)%nat by lia.
           destruct (executeWithRetry_loop _ _ _ _ _).1 as [response|[e|]]; try done.
           intros [He [Hr|Hr]]; (split; [done|]); [by left|right; lia].
      * exists 0%nat. cbn [fst snd sent answer jitter slept]. unfold pauses. simpl.
        rewrite Nat.add_0_r, app_nil_r. split_and!; try done; try lia; try by left.
Qed.

(* PKCE *)

Lemma base64url_digit_ok d : is_base64url (base64url_digit d) = true.
Proof.
  unfold base64url_digit, is_base64url.
  destruct (d <? 26) eqn:H1; [apply N.ltb_lt in H1|apply N.ltb_ge in H1].
  { replace ((65 <=? 65 + d) && (65 + d <=? 90)) with true; [done|].
    symmetry. apply andb_true_iff. split; apply N.leb_le; lia. }
  destruct (d <? 52) eqn:H2; [apply N.ltb_lt in H2|apply N.ltb_ge in H2].
  { replace ((97 <=? 97 + (d - 26)) && (97 + (d - 26) <=? 122)) with true;
      [by rewrite orb_true_r|].
    symmetry. apply andb_true_iff. split; apply N.leb_le; lia. }
  destruct (d <? 62) eqn:H3; [apply N.ltb_lt in H3|apply N.ltb_ge in H3].
  { replace ((48 <=? 48 + (d - 52)) && (48 + (d - 52) <=? 57)) with true;
      [by rewrite !orb_true_r|].
    symmetry. apply andb_true_iff. split; apply N.leb_le; lia. }
  by destruct (d =? 62).
Qed.

Lemma toString_base64url_ind (P : list byte → Prop) :
  P [] → (∀ a, P [a]) → (∀ a b, P [a; b]) →
  (∀ a b c rest, P rest → P (a :: b :: c :: rest)) →
  ∀ bs, P bs.
Proof.
  intros H0 H1 H2 H3 bs.
  assert (∀ n bs, (length bs ≤ n)%nat → P bs) as Hn; [|by apply (Hn (length bs))].
  clear bs. induction n as [|n IH]; intros [|a [|b [|c rest]]] Hlen; simpl in Hlen;
    try done; try lia.
  apply H3, IH. lia.
Qed.

Lemma toString_base64url_length bs :
  length (toString_base64url bs) = ((4 * length bs + 2) / 3)%nat.
Proof.
  induction bs as [| | |a b c rest IH] using toString_base64url_ind; try done.
  cbn [toString_base64url length app]. rewrite IH.
  replace (4 * S (S (S (length rest))) + 2)%nat
    with ((4 * length rest + 2) + 4 * 3)%nat by lia.
  rewrite Nat.div_add by done. lia.
Qed.

Lemma toString_base64url_alphabet bs :
  Forall (λ c, is_base64url c = true) (toString_base64url bs).
Proof.
  induction bs as [| | |a b c rest IH] using toString_base64url_ind;
    cbn [toString_base64url app]; repeat (apply Forall_cons; split);
    try apply base64url_digit_ok; try done.
Qed.

Lemma generatePKCEChallenge_spec w :
  generatePKCEChallenge w =
    (Normal {| pkce_codeVerifier := toString_base64url (next_bytes 32 w);
               codeChallenge :=
                 toString_base64url
                   (hash_digest sha256
                      (Buffer_from (toString_base64url (next_bytes 32 w))));
               codeChallengeMethod := js "S256" |},
     {| entropy := entropy w; drawn := drawn w + 32;
        requests := requests w; server := server w;
        clock := clock w; clock36 := clock36 w;
        math_random36 := math_random36 w |}).
Proof. reflexivity. Qed.

Lemma generateState_spec w :
  generateState w =
    (Normal (toString_hex (next_bytes 16 w)),
     {| entropy := entropy w; drawn := drawn w + 16;
        requests := requests w; server := server w;
        clock := clock w; clock36 := clock36 w;
        math_random36 := math_random36 w |}).
Proof. reflexivity. Qed.

Lemma next_bytes_length n w : length (next_bytes n w) = n.
Proof. unfold next_bytes. by rewrite length_fmap, length_seq. Qed.

End Facts.


(* ===================================================================== *)
(** * The properties stated by the specification *)
(* ===================================================================== *)

(** C1, the code at the bound.  A record that holds [maxRetries] attempts
    (the first one included) is refused a further retry: [retry] marks it
    failed, returns [MAX_RETRIES_EXCEEDED] and adds no attempt, although
    the record holds fewer than [maxRetries + 1] attempts. *)
Theorem retry_stops_at_maxRetries_attempts `{Runtime}
    (deliveryId : JsString) (payload : WebhookPayload) (config : WebhookConfig)
    (context : IntegrationContext) (env : Env) (this : WebhookProcessor)
    (l : nat) (d : WebhookDelivery) :
  getDelivery deliveryId this = Some (l, d) →
  Z.of_nat (length (attempts d)) = maxRetries (policy_of config) →
  retry deliveryId payload config context env this =
    (failure {| code := js "MAX_RETRIES_EXCEEDED";
                message := js "Maximum retry attempts ("
                             ++ decimal (maxRetries (policy_of config))
                             ++ js ") exceeded";
                details := None;
                retryable := Some false |} None,
     mutate l (set_status failed) this).
Proof. intros Hget Heq. apply (retry_refused _ _ _ _ _ _ l d); [done|lia]. Qed.

(** Under [maxRetries = 1] the first retry of a delivery that has just
    been recorded is refused. *)
Lemma retry_stops_at_maxRetries_attempts_witness :
  let rt := Toy.runtime in
  let config :=
    with_retryPolicy
      {| maxRetries := 1; backoffStrategy := linear;
         baseDelay := 1000; maxDelay := 5000 |} (push_only None) in
  let payload := github_payload (js "push") None in
  let recorded := (process payload config no_context (env_at 1) push_processor).2 in
  (retry (generateDeliveryId (env_at 1)) payload config no_context (env_at 2) recorded).1 =
    failure {| code := js "MAX_RETRIES_EXCEEDED";
               message := js "Maximum retry attempts (1) exceeded";
               details := None;
               retryable := Some false |} None.
Proof.
  intros rt config payload recorded.
  assert (getDelivery (generateDeliveryId (env_at 1)) recorded =
            Some (0%nat, new_delivery payload config (env_at 1) (js "push")
                           (rejecting_handler payload no_context (env_at 1)))) as Hget
    by (vm_compute; reflexivity).
  by rewrite (retry_stops_at_maxRetries_attempts _ payload config no_context
                (env_at 2) _ _ _ Hget eq_refl).
Defined.

(** C2, the code on a length mismatch.  When the byte length of the
    candidate signature differs from that of the expected signature,
    [HmacSha256Validator.validate] and [HmacSha1Validator.validate] do not
    return [false]: [crypto.timingSafeEqual] throws a [RangeError] and the
    call raises it. *)
Theorem validate_length_mismatch_throws `{Runtime}
    (m : SignatureMethod) (payload signature secret : JsString) :
  length (Buffer_from signature) ≠
    length (Buffer_from (generate (signatureValidators m) payload secret)) →
  validate (signatureValidators m) payload signature secret =
    Throw (ErrorObject "RangeError"
             (js "Input buffers must have the same byte length")).
Proof.
  intros Hl. rewrite validate_unfold. by apply timingSafeEqual_throws.
Qed.

(** The signature ["x"] for the payload ["{}"] under the secret ["s"]. *)
Lemma validate_length_mismatch_throws_witness :
  @validate (@signatureValidators Toy.runtime hmac_sha256) (js "{}") (js "x") (js "s") =
    Throw (ErrorObject "RangeError"
             (js "Input buffers must have the same byte length")).
Proof.
  apply (@validate_length_mismatch_throws Toy.runtime hmac_sha256).
  vm_compute. lia.
Defined.

(** C3, as the code has it.  For both validators, every payload [P] and
    secret [S]: [validate(P, generate(P, S), S)] returns [true]; the
    generated signature is the algorithm name, ["="] and the digest in
    lowercase hexadecimal; replacing one character of the signature by a
    different ASCII character makes [validate] return [false]; and for a
    changed payload [P'] it returns [false] exactly when the HMAC digest
    of the UTF-8 encoding of [P'] differs from that of [P]. *)
Theorem verify_generate_roundtrip `{Runtime}
    (m : SignatureMethod) (P S : JsString) :
  let v := signatureValidators m in
  let a := algorithm_of m in
  let digest := λ Q, hmac_digest a (Buffer_from S) (Buffer_from Q) in
  let sig := generate v P S in
  validate v P sig S = Normal true
  ∧ sig = algorithm_name a ++ js "=" ++ toString_hex (digest P)
  ∧ length (toString_hex (digest P)) = (2 * digest_size a)%nat
  ∧ Forall (λ c, is_lower_hex c = true) (toString_hex (digest P))
  ∧ (∀ (i : nat) (c : N),
       is_ascii c = true → (i < length sig)%nat → sig !! i ≠ Some c →
       validate v P (<[i := c]> sig) S = Normal false)
  ∧ (∀ P', validate v P' sig S = Normal (bool_decide (digest P' = digest P))).
Proof.
  intros v a digest sig. subst v a digest sig. split_and!.
  - rewrite validate_unfold. apply timingSafeEqual_refl.
  - apply generate_format.
  - by rewrite toString_hex_length, hmac_digest_length.
  - apply toString_hex_lower.
  - intros i c Hc Hi Hne.
    pose proof (generate_ascii m P S) as Hascii.
    assert (Forall (λ c, is_ascii c = true)
              (<[i := c]> (generate (signatureValidators m) P S))) as Hascii'
      by (by apply Forall_insert).
    rewrite validate_same_length; last first.
    { rewrite !Buffer_from_ascii_length by done. apply length_insert. }
    f_equal. apply bool_decide_eq_false_2. intros Heq.
    apply Buffer_from_ascii_inj in Heq; [|done..].
    apply Hne. rewrite <- Heq. by apply list_lookup_insert_eq.
  - intros P'.
    rewrite validate_same_length; last first.
    { rewrite !Buffer_from_ascii_length by apply generate_ascii.
      by rewrite !generate_length. }
    f_equal. apply bool_decide_ext. rewrite <- generate_eq_iff. split.
    + intros Heq. symmetry. eapply Buffer_from_ascii_inj; [apply generate_ascii..|done].
    + by intros ->.
Qed.

(** With the toy digest: the signature of ["{}"] under ["s"] verifies, a
    signature with its last character replaced by ["1"] does not, and the
    payload ["[]"] does not verify against it. *)
Lemma verify_generate_roundtrip_witness :
  let v := @signatureValidators Toy.runtime hmac_sha256 in
  let sig := generate v (js "{}") (js "s") in
  validate v (js "{}") sig (js "s") = Normal true
  ∧ validate v (js "{}") (<[70%nat := 49]> sig) (js "s") = Normal false
  ∧ validate v (js "[]") sig (js "s") = Normal false.
Proof.
  pose proof (@verify_generate_roundtrip Toy.runtime hmac_sha256 (js "{}") (js "s"))
    as (Hround & _ & _ & _ & Hsig & Hpayload).
  split_and!.
  - exact Hround.
  - apply Hsig; vm_compute; [done|lia|congruence].
  - rewrite (Hpayload (js "[]")). vm_compute. done.
Defined.

(** C3 as stated fails.  Two payloads that differ in one code unit, both an
    unpaired surrogate, have the same UTF-8 encoding, so the signature of
    one verifies for the other, whatever the digest function and the
    secret.  And a signature whose last character is replaced by U+00E9
    is one byte longer in UTF-8, so [validate] throws instead of returning
    [false]. *)
Lemma tampered_payload_still_verifies :
  ([0xD800] : JsString) ≠ [0xD801]
  ∧ (∀ (rt : Runtime) (m : SignatureMethod) (S : JsString),
       validate (signatureValidators m) [0xD801]
         (generate (signatureValidators m) [0xD800] S) S = Normal true)
  ∧ (∀ (rt : Runtime) (P S : JsString),
       validate (signatureValidators hmac_sha256) P
         (<[70%nat := 0xE9]> (generate (signatureValidators hmac_sha256) P S)) S =
         Throw (ErrorObject "RangeError"
                  (js "Input buffers must have the same byte length"))).
Proof.
  split_and!; [congruence| |].
  - intros rt m S. rewrite validate_unfold.
    rewrite (generate_format m [0xD801]), (generate_format m [0xD800]).
    change (Buffer_from [0xD801]) with (Buffer_from [0xD800]).
    apply timingSafeEqual_refl.
  - intros rt P S. rewrite validate_unfold. apply timingSafeEqual_throws.
    pose proof (generate_ascii hmac_sha256 P S) as Hascii.
    pose proof (generate_length hmac_sha256 P S) as Hlen.
    change (length (generate (signatureValidators hmac_sha256) P S) = 71%nat) in Hlen.
    generalize dependent (generate (signatureValidators hmac_sha256) P S).
    intros sig Hascii Hlen.
    assert (<[70%nat := 0xE9]> sig = take 70 sig ++ [0xE9]) as ->.
    { etransitivity; [apply insert_take_drop; lia|]. f_equal. f_equal.
      apply drop_ge. lia. }
    assert (length (Buffer_from [0xE9]) = 2%nat) as Hlast by reflexivity.
    rewrite Buffer_from_ascii_app by (by apply Forall_take).
    rewrite length_app, Hlast.
    rewrite !Buffer_from_ascii_length by (by try apply Forall_take).
    rewrite length_take. lia.
Qed.

(** C4, as the code has it.  Under a non-empty allow-list: when the payload
    check and the signature check pass and a non-empty event is classified
    that is not a member, the verdict is the rejection
    ["Unsupported event type: <event>"]; a valid verdict carries the
    classified event, which is a member of the allow-list unless it is
    absent or empty; and when nothing is classified the verdict is valid
    with no event, non-empty allow-list or not.  The outcome of the first
    three steps is the verdict under the same configuration with an empty
    allow-list. *)
Theorem allow_list_verdict `{Runtime}
    (payload : WebhookPayload) (config : WebhookConfig) :
  events config ≠ [] →
  let open := WebhookValidator_validate payload (accept_any_event config) in
  let verdict := WebhookValidator_validate payload config in
  (∀ e, isValid open = true → validation_event open = Some e → e ≠ [] →
        e ∉ events config →
        verdict = {| isValid := false;
                     validation_error := Some (js "Unsupported event type: " ++ e);
                     validation_event := None |})
  ∧ (isValid verdict = true →
       isValid open = true
       ∧ validation_event verdict = validation_event open
       ∧ (truthy (validation_event verdict) = true →
          default [] (validation_event verdict) ∈ events config))
  ∧ (isValid open = true → truthy (validation_event open) = false →
       verdict = open).
Proof.
  intros Hne open verdict. subst open verdict.
  rewrite (validate_from_accept_any payload config). simpl.
  set (open := WebhookValidator_validate payload (accept_any_event config)).
  assert ((0 <? length (events config))%nat = true) as ->
    by (destruct (events config); [done|reflexivity]).
  split_and!.
  - intros e Hvalid Hev He Hnot. rewrite Hvalid, Hev.
    apply includes_false in Hnot. destruct e as [|c e]; [done|].
    simpl. by rewrite Hnot.
  - destruct (isValid open) eqn:Hvalid; simpl; [|by rewrite Hvalid].
    destruct (truthy (validation_event open)) eqn:Hev; simpl.
    + destruct (includes _ _) eqn:Hin; simpl; [|done].
      intros _. split_and!; [done..|]. intros _. by apply includes_true.
    + intros _. split_and!; [done..|]. by rewrite Hev.
  - intros -> ->. by rewrite andb_false_r.
Qed.

(** Under the allow-list [push], an unsigned [pull_request] payload is
    rejected by name. *)
Lemma allow_list_verdict_witness :
  @WebhookValidator_validate Toy.runtime
    (github_payload (js "pull_request") None) (push_only None) =
    {| isValid := false;
       validation_error := Some (js "Unsupported event type: pull_request");
       validation_event := None |}.
Proof.
  refine (proj1 (@allow_list_verdict Toy.runtime
                   (github_payload (js "pull_request") None) (push_only None) _)
            (js "pull_request") _ _ _ _);
    vm_compute; first [done | congruence | idtac].
  intros Hin. apply list_elem_of_In in Hin. simpl in Hin. intuition congruence.
Defined.

(** C4 as stated fails: under the non-empty allow-list [push], a payload
    from which no event can be classified gets a valid verdict with no
    event. *)
Lemma valid_without_event_under_allow_list :
  events (push_only None) ≠ []
  ∧ ∀ rt : Runtime,
      @WebhookValidator_validate rt unclassified_payload (push_only None) =
        {| isValid := true; validation_error := None; validation_event := None |}.
Proof. split; [done|]. intros rt. reflexivity. Qed.

(** C5.  When the validator's verdict is invalid, [process] returns the
    failure [VALIDATION_FAILED] with [retryable: false] (its message is
    the validator's reason) and the processor is left as it was: no
    delivery record is created. *)
Theorem process_validation_failed `{Runtime}
    (payload : WebhookPayload) (config : WebhookConfig)
    (context : IntegrationContext) (env : Env) (this : WebhookProcessor) :
  isValid (WebhookValidator_validate payload config) = false →
  process payload config context env this =
    (Normal
       {| success := false;
          event := None;
          error :=
            Some {| code := js "VALIDATION_FAILED";
                    message :=
                      or_default
                        (validation_error (WebhookValidator_validate payload config))
                        (js "Webhook validation failed");
                    details := None;
                    retryable := Some false |};
          shouldRetry := None |},
     this).
Proof. intros Hinvalid. unfold process. by rewrite Hinvalid. Qed.

(** A [push] payload whose signature has its last character changed,
    under the secret ["s3cr3t"]: [VALIDATION_FAILED], store untouched. *)
Lemma process_validation_failed_witness :
  let rt := Toy.runtime in
  let tampered := <[70%nat := 49]> (HmacSha256Validator_generate (js "{}") (js "s3cr3t")) in
  process (github_payload (js "push") (Some tampered))
    (push_only (Some (js "s3cr3t"))) no_context (env_at 1) push_processor =
    (Normal
       {| success := false;
          event := None;
          error :=
            Some {| code := js "VALIDATION_FAILED";
                    message := js "Invalid signature";
                    details := None;
                    retryable := Some false |};
          shouldRetry := None |},
     push_processor).
Proof.
  intros rt tampered.
  rewrite (@process_validation_failed rt) by (vm_compute; reflexivity).
  vm_compute. reflexivity.
Defined.

(** C6, as the code has it.  The delay before the retry with 0-based index
    [n], computed in exact arithmetic, for a draw [rnd] of [Math.random()]
    (which lies in [[0, 1)]).  Linear strategy, for every policy:
    [min(baseDelay * (n + 1), maxDelay)].  Exponential strategy, for a
    policy whose [baseDelay] is not negative:
    [min(baseDelay * 2^n + jitter, maxDelay)] for a jitter between [0] and
    a tenth of [baseDelay * 2^n].  For a negative [baseDelay] and a draw
    other than [0] the jitter term is negative, and the delay lies below
    [baseDelay * 2^n].  With the linear strategy, [baseDelay = 1000] and
    [maxDelay = 5000], the delays at the indices 0 to 4 are 1000, 2000,
    3000, 4000 and 5000. *)
Theorem retry_delay_formula (n : nat) (policy : RetryPolicy) (rnd : Q) :
  (0 <= rnd)%Q → (rnd < 1)%Q →
  let exponentialDelay := (baseDelay policy * inject_Z (2 ^ Z.of_nat n))%Q in
  (backoffStrategy policy = linear →
     calculateRetryDelay n policy rnd =
       Qmin (baseDelay policy * inject_Z (Z.of_nat n + 1)) (maxDelay policy))
  ∧ (backoffStrategy policy = exponential → (0 <= baseDelay policy)%Q →
       ∃ jitter : Q,
         (0 <= jitter)%Q
         ∧ (jitter <= (1 # 10) * exponentialDelay)%Q
         ∧ calculateRetryDelay n policy rnd =
             Qmin (exponentialDelay + jitter) (maxDelay policy))
  ∧ (backoffStrategy policy = exponential → (baseDelay policy < 0)%Q → (0 < rnd)%Q →
       (calculateRetryDelay n policy rnd < exponentialDelay)%Q)
  ∧ (λ i, calculateRetryDelay i linear_1000_5000 rnd) <$> [0; 1; 2; 3; 4]%nat
      = [1000; 2000; 3000; 4000; 5000]%Q.
Proof.
  intros Hrnd0 Hrnd1 exponentialDelay. split_and!.
  - intros Hlin. unfold calculateRetryDelay. by rewrite Hlin.
  - intros Hexp Hbase. unfold calculateRetryDelay. rewrite Hexp.
    exists (rnd * (1 # 10) * exponentialDelay)%Q.
    assert (0 <= exponentialDelay)%Q as He
      by (apply Qmult_le_0_compat; [done|apply two_power_nonneg]).
    split_and!; [nra|nra|reflexivity].
  - intros Hexp Hbase Hrnd. unfold calculateRetryDelay. rewrite Hexp. cbv zeta.
    fold exponentialDelay.
    assert (0 < inject_Z (2 ^ Z.of_nat n))%Q as Hpow.
    { change 0%Q with (inject_Z 0). rewrite <-Zlt_Qlt. apply Z.pow_pos_nonneg; lia. }
    assert (exponentialDelay < 0)%Q as He by (subst exponentialDelay; nra).
    eapply Qle_lt_trans; [apply Q.le_min_l|]. nra.
  - reflexivity.
Qed.

(** The delay at index 2 under the default policy with the draw [1/2]. *)
Lemma retry_delay_formula_witness :
  ∃ jitter : Q,
    (0 <= jitter)%Q
    ∧ (jitter <= (1 # 10) * (1000 * inject_Z (2 ^ 2)))%Q
    ∧ calculateRetryDelay 2 getDefaultRetryPolicy (1 # 2) =
        Qmin (1000 * inject_Z (2 ^ 2) + jitter) 60000.
Proof.
  destruct (retry_delay_formula 2 getDefaultRetryPolicy (1 # 2))
    as (_ & Hexp & _); [done..|].
  exact (Hexp eq_refl ltac:(done)).
Defined.

(** C6 as stated fails for a policy with a negative [baseDelay], which
    [retry] accepts, since it reads the policy from a configuration that it
    does not validate.  Under [negative_baseDelay] (exponential,
    [baseDelay = -1000]) the delay at index 0 for the draw [1/2] is
    [-1050]: the jitter, [-50], has been subtracted, and no jitter that is
    not negative gives this delay. *)
Lemma negative_baseDelay_subtracts_the_jitter :
  let delay := calculateRetryDelay 0 negative_baseDelay (1 # 2) in
  let exponentialDelay := (baseDelay negative_baseDelay * inject_Z (2 ^ 0))%Q in
  backoffStrategy negative_baseDelay = exponential
  ∧ (delay == -1050)%Q
  ∧ (delay < exponentialDelay)%Q
  ∧ ¬ ∃ jitter : Q,
        (0 <= jitter)%Q
        ∧ (delay == Qmin (exponentialDelay + jitter) (maxDelay negative_baseDelay))%Q.
Proof.
  intros delay exponentialDelay.
  assert (delay == -1050)%Q as Hd by reflexivity.
  assert (exponentialDelay == -1000)%Q as He by reflexivity.
  split_and!; [reflexivity|done|reflexivity|].
  intros (jitter & Hjitter & Hdelay).
  change (maxDelay negative_baseDelay) with 60000%Q in Hdelay.
  destruct (Q.min_spec (exponentialDelay + jitter) 60000) as [[_ Hm]|[_ Hm]];
    rewrite Hm in Hdelay; lra.
Qed.

(** C7.  When the payload carries no extracted signature, the signature
    check is skipped whether or not a secret is configured: the verdict is
    the one the configuration without its secret gives, it is never
    ["Invalid signature"], and once the body and the headers are there it
    is decided by the classified event and the allow-list alone. *)
Theorem missing_signature_is_not_fatal `{Runtime}
    (payload : WebhookPayload) (config : WebhookConfig) :
  truthy (signature payload) = false →
  let verdict := WebhookValidator_validate payload config in
  verdict = WebhookValidator_validate payload (without_secret config)
  ∧ validation_error verdict ≠ Some (js "Invalid signature")
  ∧ (∀ hdrs, body_truthy (body payload) = true → headers payload = Some hdrs →
       let event := extractEventType payload hdrs config in
       verdict =
         if (0 <? length (events config))%nat && truthy event
            && negb (includes (events config) (default [] event))
         then {| isValid := false;
                 validation_error :=
                   Some (js "Unsupported event type: " ++ default [] event);
                 validation_event := None |}
         else {| isValid := true;
                 validation_error := None;
                 validation_event := event |}).
Proof.
  intros Hsig verdict. subst verdict.
  unfold WebhookValidator_validate.
  rewrite (validate_try_no_signature payload config) by done.
  split_and!; [done| |].
  - unfold validate_try. rewrite Hsig, andb_false_r. simpl.
    destruct (body_truthy (body payload)); [|done].
    destruct (headers payload) as [hdrs|]; [|done]. simpl.
    by destruct (_ && _ && _).
  - intros hdrs Hbody Hhdrs. unfold validate_try. rewrite Hbody, Hhdrs.
    rewrite Hsig, andb_false_r. simpl. by destruct (_ && _ && _).
Qed.

(** A [push] payload without signature, under a configuration with the
    secret ["s3cr3t"]: valid, event [push]. *)
Lemma missing_signature_is_not_fatal_witness :
  @WebhookValidator_validate Toy.runtime
    (github_payload (js "push") None) (push_only (Some (js "s3cr3t"))) =
    {| isValid := true; validation_error := None;
       validation_event := Some (js "push") |}.
Proof.
  rewrite (proj1 (@missing_signature_is_not_fatal Toy.runtime
                    (github_payload (js "push") None)
                    (push_only (Some (js "s3cr3t"))) eq_refl)).
  vm_compute. reflexivity.
Defined.

(** C8, as the code has it.  A payload that reaches a handler is processed
    once and then retried once per element of [envs], every retry passing
    the lookup and the max-retries check.  Every one of these runs of
    [process] stores a new record under the id generated for it, which is
    [delivery_<clock reading>_<nine characters of the random draw>]; two
    ids are the same exactly when both readings are.  When the readings
    of the runs differ pairwise, and from the readings behind the ids
    already in the store, the store ends with [length envs + 1] records
    more than it had: the first record, which holds [length envs + 1]
    attempts, and one record with a single attempt per retry. *)
Theorem retried_payload_leaves_a_record_per_run `{Runtime}
    (payload : WebhookPayload) (config : WebhookConfig)
    (context : IntegrationContext) (env0 : Env) (envs : list Env)
    (this : WebhookProcessor) (event : JsString) (handler : WebhookHandler) :
  dispatch payload config this = Some (event, handler) →
  (Z.of_nat (1 + length envs) ≤ maxRetries (policy_of config))%Z →
  NoDup (id_reading <$> env0 :: envs) →
  (∀ stored, is_Some (deliveries this !! generateDeliveryId stored) →
             id_reading stored ∉ id_reading <$> env0 :: envs) →
  let first := generateDeliveryId env0 in
  let recorded := (process payload config context env0 this).2 in
  let this' := retry_each first payload config context envs recorded in
  (∀ env1 env2,
     generateDeliveryId env1 = generateDeliveryId env2 ↔ id_reading env1 = id_reading env2)
  ∧ size (deliveries this') = (size (deliveries this) + (length envs + 1))%nat
  ∧ length (heap this') = (length (heap this) + (length envs + 1))%nat
  ∧ (∃ d, getDelivery first this' = Some (length (heap this), d)
          ∧ length (attempts d) = (length envs + 1)%nat)
  ∧ (∀ i env, envs !! i = Some env →
       ∃ d, getDelivery (generateDeliveryId env) this'
              = Some (length (heap this) + 1 + i, d)%nat
            ∧ id d = generateDeliveryId env
            ∧ length (attempts d) = 1%nat).
Proof.
  intros Hdisp Hmax Hreadings Hstored first recorded this'.
  split; [apply generateDeliveryId_inj|].
  assert (NoDup (generateDeliveryId <$> env0 :: envs)) as Hnodup
    by by apply generateDeliveryId_NoDup.
  assert (∀ env, env ∈ env0 :: envs → deliveries this !! generateDeliveryId env = None)
    as Hfresh.
  { intros env Hin. apply eq_None_not_Some. intros Hsome.
    apply (Hstored env Hsome). by apply list_elem_of_fmap_2. }
  clear Hreadings Hstored.
  subst first recorded this'.
  rewrite (process_dispatched payload config context env0 this event handler Hdisp).
  cbn [snd].
  set (nd := new_delivery payload config env0 event (handler payload context env0)).
  rewrite fmap_cons in Hnodup. apply NoDup_cons in Hnodup as [Hnotin Hnodup].
  assert (deliveries this !! generateDeliveryId env0 = None) as Hnew
    by (apply Hfresh; left).
  destruct (retry_each_records (generateDeliveryId env0) payload config context envs
              (recordDelivery nd this) (length (heap this)) nd event handler)
    as (Hsize & Hheap & (d & Hid & Hd & Hlen) & Hnews & _ & _).
  - simpl. apply lookup_insert_eq.
  - simpl. rewrite lookup_app_r by lia. by rewrite Nat.sub_diag.
  - by rewrite dispatch_recordDelivery.
  - done.
  - done.
  - intros env Hin. simpl. rewrite lookup_insert_ne.
    + apply Hfresh. by right.
    + intros Heq. apply Hnotin. rewrite Heq. by apply list_elem_of_fmap_2.
  - split_and!.
    + rewrite Hsize. simpl. rewrite map_size_insert_None by done. lia.
    + rewrite Hheap. simpl. rewrite length_app. simpl. lia.
    + exists d. split; [by apply getDelivery_Some|]. rewrite Hlen. simpl. lia.
    + intros i env Hi. destruct (Hnews i env Hi) as (d' & Hx & Hy & Hz & Hw).
      simpl in Hx, Hy. rewrite length_app in Hx, Hy. simpl in Hx, Hy.
      exists d'. split; [by apply getDelivery_Some|done].
Qed.

(** One [push] payload, processed at clock reading 1 and retried at 2 and
    3 under the default policy: three records in the store. *)
Lemma retried_payload_leaves_a_record_per_run_witness :
  let rt := Toy.runtime in
  let payload := github_payload (js "push") None in
  let config := push_only None in
  let recorded := (process payload config no_context (env_at 1) push_processor).2 in
  size (deliveries
          (retry_each (generateDeliveryId (env_at 1)) payload config no_context
             [env_at 2; env_at 3] recorded)) = 3%nat.
Proof.
  intros rt payload config recorded.
  apply (@retried_payload_leaves_a_record_per_run rt payload config no_context
           (env_at 1) [env_at 2; env_at 3] push_processor (js "push") rejecting_handler).
  - vm_compute. reflexivity.
  - vm_compute. congruence.
  - apply (bool_decide_unpack _). vm_compute. exact I.
  - intros stored Hsome. exfalso. revert Hsome.
    change (deliveries push_processor) with (∅ : gmap JsString nat).
    rewrite lookup_empty. apply is_Some_None.
Defined.

(** C8 as stated fails when two runs read the same clock value and the same
    random draw: a [push] payload processed and retried once, both at the
    clock reading 1 and with the draw [0.4fzyo82mvyr].  The retry finds the
    record, passes the max-retries check (1 attempt, [maxRetries = 3]) and
    reaches the handler; the run of [process] inside it generates the id
    [delivery_1_4fzyo82mv] again and stores its record under it, in place
    of the first record.  Two records have been made, the store holds
    one. *)
Lemma equal_readings_leave_one_record :
  let rt := Toy.runtime in
  let payload := github_payload (js "push") None in
  let config := push_only None in
  let first := generateDeliveryId (env_at 1) in
  let recorded := (process payload config no_context (env_at 1) push_processor).2 in
  let retried := retry first payload config no_context (env_at 1) recorded in
  let this' := retry_each first payload config no_context [env_at 1] recorded in
  dispatch payload config push_processor = Some (js "push", rejecting_handler)
  ∧ first = js "delivery_1_4fzyo82mv"
  ∧ (∃ d, getDelivery first recorded = Some (0%nat, d)
          ∧ (Z.of_nat (length (attempts d)) < maxRetries (policy_of config))%Z)
  ∧ (process payload config no_context (env_at 1)
       (mutate 0%nat (set_status retrying) recorded)).1 = Normal retried.1
  ∧ this' = retried.2
  ∧ length (heap this') = 2%nat
  ∧ size (deliveries this') = 1%nat
  ∧ deliveries this' !! first = Some 1%nat.
Proof.
  intros rt payload config first recorded retried this'.
  split_and!; try (vm_compute; reflexivity).
  eexists. split; [vm_compute; reflexivity|]. vm_compute. reflexivity.
Qed.

(** C9.  Whenever the provider's authorize URL parses,
    [getAuthorizationUrl] returns, and the state token it returns is the
    hexadecimal form of 16 bytes newly drawn from the random source, for
    every provider class and every input; the [state] field of the input
    has no influence on the result.  Hence [initializeOAuth], which
    produces a token whenever OAuth is configured, the authorize URL
    parses and no subscriber throws, produces different tokens in two
    calls whose draws differ, whatever the context. *)
Theorem authorization_state_is_fresh `{Runtime}
    (this : OAuthProvider) (st : OAuthState) (w : World) :
  (∀ u, URL_new (authUrl_of this) = Normal u →
        ∃ r w', getAuthorizationUrl this st w = (Normal r, w'))
  ∧ (∀ r w', getAuthorizationUrl this st w = (Normal r, w') →
             result_state r = toString_hex (next_bytes 16 w)
             ∧ (drawn w + 16 ≤ drawn w')%nat)
  ∧ (∀ supplied,
       getAuthorizationUrl this (with_state supplied st) w =
         getAuthorizationUrl this st w)
  ∧ (∀ (integration : Integration) (context : IntegrationContext) o u,
       oauth (config integration) = Some o →
       oauthProvider integration = Some this →
       URL_new (authUrl_of this) = Normal u →
       Forall quiet (integration_eventHandlers integration oauth_authorized) →
       state_token (initializeOAuth context integration w).1 =
         Some (toString_hex (next_bytes 16 w)))
  ∧ (∀ (integration : Integration) (context : IntegrationContext)
       (w1 w2 : World) (token1 token2 : JsString),
       state_token (initializeOAuth context integration w1).1 = Some token1 →
       state_token (initializeOAuth context integration w2).1 = Some token2 →
       next_bytes 16 w1 ≠ next_bytes 16 w2 →
       token1 ≠ token2).
Proof.
  split_and!.
  - intros u. apply getAuthorizationUrl_returns.
  - intros r w'. apply getAuthorizationUrl_state.
  - intros supplied. by rewrite getAuthorizationUrl_with_state.
  - intros integration context o u. apply initializeOAuth_succeeds.
  - intros integration context w1 w2 token1 token2 H1 H2 Hdraws Heq.
    apply initializeOAuth_state_token in H1, H2. subst token1 token2.
    by apply toString_hex_inj in Heq.
Qed.

(** The GitHub integration of the tests, once with a random source that
    yields [0x00] and once with one that yields [0x01]: the two tokens
    differ. *)
Lemma authorization_state_is_fresh_witness :
  let rt := Toy.runtime in
  let token w := state_token (initializeOAuth no_context github_integration w).1 in
  token (constant_world Byte.x00) = Some (js "00000000000000000000000000000000")
  ∧ token (constant_world Byte.x01) = Some (js "01010101010101010101010101010101")
  ∧ js "00000000000000000000000000000000" ≠ js "01010101010101010101010101010101".
Proof.
  intros rt token.
  assert (token (constant_world Byte.x00) = Some (js "00000000000000000000000000000000"))
    as H0 by (vm_compute; reflexivity).
  assert (token (constant_world Byte.x01) = Some (js "01010101010101010101010101010101"))
    as H1 by (vm_compute; reflexivity).
  split_and!; [done..|].
  refine (proj2 (proj2 (proj2 (proj2 (@authorization_state_is_fresh rt
            {| class := GitHubOAuth; provider_name := []; provider_config := github_oauth_config |}
            (with_state [] {| state := []; codeVerifier := None; state_redirectUri := [];
                              state_scopes := []; state_userId := None |})
            (constant_world Byte.x00)))))
          github_integration no_context _ _ _ _ H0 H1 _).
  vm_compute. congruence.
Defined.

(** C10.  [new CustomOAuth(name, config)] with a configuration that lacks
    [authUrl] or [tokenUrl] throws
    ["Custom OAuth provider requires authUrl and tokenUrl"]; the world is
    as before, with no request sent.  The same holds when the provider is
    built for an integration whose provider is [custom]. *)
Theorem custom_provider_requires_urls
    (name : JsString) (config : OAuthConfig) (w : World) :
  truthy (authUrl config) = false ∨ truthy (tokenUrl config) = false →
  CustomOAuth_new name config w =
    (Throw (ErrorObject "Error"
              (js "Custom OAuth provider requires authUrl and tokenUrl")), w)
  ∧ (∀ integration : IntegrationConfig,
       provider integration = custom → oauth integration = Some config →
       initializeOAuthProvider integration w =
         (Throw (ErrorObject "Error"
                   (js "Custom OAuth provider requires authUrl and tokenUrl")), w)).
Proof.
  intros Hlacks.
  assert (negb (truthy (authUrl config)) || negb (truthy (tokenUrl config)) = true)
    as Hcheck by (destruct Hlacks as [-> | ->]; [done|apply orb_true_r]).
  split.
  - unfold CustomOAuth_new. by rewrite Hcheck.
  - intros integration Hprovider Hoauth.
    unfold initializeOAuthProvider. rewrite Hoauth, Hprovider.
    unfold io_bind, CustomOAuth_new. by rewrite Hcheck.
Qed.

Lemma custom_provider_requires_urls_witness :
  CustomOAuth_new (js "my-custom-service") custom_without_tokenUrl
    (constant_world Byte.x00) =
    (Throw (ErrorObject "Error"
              (js "Custom OAuth provider requires authUrl and tokenUrl")),
     constant_world Byte.x00).
Proof.
  apply (custom_provider_requires_urls (js "my-custom-service")
           custom_without_tokenUrl (constant_world Byte.x00)).
  by right.
Defined.


(* ===================================================================== *)
(** * Further properties of the processor and the validators *)
(* ===================================================================== *)

(** X1.  For a policy with an integral [maxRetries], and calls of [on],
    [process] and [retry] made on a new processor one after another, each
    call completed before the next one starts, the retries being made
    under the policy: however many calls there are, and whatever their
    payloads, ids and handlers, no record comes to hold more than
    [max(1, maxRetries)] attempts, which for [maxRetries] at least 0 is at
    most [maxRetries + 1]. *)
Theorem attempts_never_exceed_limit `{Runtime} (policy : RetryPolicy) (calls : list Call) :
  Forall (retries_under policy) calls →
  let this := foldl perform WebhookProcessor_new calls in
  attempts_bounded policy this
  ∧ ((0 ≤ maxRetries policy)%Z →
     ∀ l d, heap this !! l = Some d →
            (Z.of_nat (length (attempts d)) ≤ maxRetries policy + 1)%Z).
Proof.
  intros Hcalls this.
  assert (attempts_bounded policy this) as Hbounded.
  { subst this.
    assert (attempts_bounded policy WebhookProcessor_new) as Hnew
      by (intros l d Hl; by destruct l).
    revert Hnew. generalize WebhookProcessor_new.
    induction Hcalls as [|call calls Hcall _ IH]; intros this Hthis; [done|].
    simpl. apply IH. destruct call as [event handler|payload config context env|
                                        deliveryId payload config context env]; simpl.
    - done.
    - by apply attempts_bounded_process.
    - simpl in Hcall. subst policy. by apply attempts_bounded_retry. }
  split; [done|]. intros Hmax l d Hl.
  specialize (Hbounded l d Hl). unfold attempts_limit in Hbounded. lia.
Qed.

(** A [push] whose handler rejects, processed and then retried four times
    under the default policy ([maxRetries = 3]): no record holds more than
    three attempts. *)
Lemma attempts_never_exceed_limit_witness :
  let rt := Toy.runtime in
  let payload := github_payload (js "push") None in
  let config := push_only None in
  let again t := CallRetry (generateDeliveryId (env_at 1)) payload config no_context
                   (env_at t) in
  attempts_bounded getDefaultRetryPolicy
    (foldl perform WebhookProcessor_new
       [CallOn (js "push") rejecting_handler;
        CallProcess payload config no_context (env_at 1);
        again 2%Z; again 3%Z; again 4%Z; again 5%Z]).
Proof.
  intros rt payload config again.
  apply (@attempts_never_exceed_limit rt getDefaultRetryPolicy).
  repeat constructor.
Defined.

(** X2.  A retry that finds the record and passes the max-retries check pushes
    exactly one attempt onto it, numbered one more than the attempts it
    held, and returns what [process] returned. *)
Theorem retry_pushes_exactly_one_attempt `{Runtime}
    (deliveryId : JsString) (payload : WebhookPayload) (config : WebhookConfig)
    (context : IntegrationContext) (env : Env) (this : WebhookProcessor)
    (l : nat) (d : WebhookDelivery) :
  getDelivery deliveryId this = Some (l, d) →
  (Z.of_nat (length (attempts d)) < maxRetries (policy_of config))%Z →
  ∃ d' a,
    heap (retry deliveryId payload config context env this).2 !! l = Some d'
    ∧ attempts d' = attempts d ++ [a]
    ∧ attempt a = (Z.of_nat (length (attempts d)) + 1)%Z
    ∧ (process payload config context env (mutate l (set_status retrying) this)).1 =
        Normal (retry deliveryId payload config context env this).1.
Proof.
  intros Hget Hlt.
  destruct (retry_passed deliveryId payload config context env this l d Hget Hlt)
    as (a & f & -> & Ha & Hf & Hres).
  apply getDelivery_Some in Hget as [_ Hd].
  pose proof (heap_mutate_eq l (set_status retrying) this d Hd) as Hd1.
  eapply prefix_lookup_Some in Hd1; [|apply process_heap_prefix].
  eexists _, a. split_and!; [by do 2 (apply heap_mutate_eq)| |done..].
  by destruct (Hf (push_attempt a (set_status retrying d))) as [-> _].
Qed.

(** Under the default policy, the first retry of a delivery that has just
    been recorded runs and leaves the record with two attempts. *)
Lemma retry_pushes_exactly_one_attempt_witness :
  let rt := Toy.runtime in
  let payload := github_payload (js "push") None in
  let config := push_only None in
  let recorded := (process payload config no_context (env_at 1) push_processor).2 in
  ∃ d',
    heap (retry (generateDeliveryId (env_at 1)) payload config no_context
            (env_at 2) recorded).2 !! 0%nat = Some d'
    ∧ length (attempts d') = 2%nat.
Proof.
  intros rt payload config recorded.
  assert (getDelivery (generateDeliveryId (env_at 1)) recorded =
            Some (0%nat, new_delivery payload config (env_at 1) (js "push")
                           (rejecting_handler payload no_context (env_at 1)))) as Hget
    by (vm_compute; reflexivity).
  destruct (retry_pushes_exactly_one_attempt _ payload config no_context (env_at 2)
              _ _ _ Hget) as (d' & a & Hd' & Hatt & _); [vm_compute; reflexivity|].
  exists d'. split; [done|]. by rewrite Hatt.
Defined.

(** X3.  With a secret configured and a signature on the payload, a signature
    header whose bytes are not those of the expected signature makes the
    verdict invalid, whatever its length. *)
Theorem tampered_signature_is_rejected `{Runtime}
    (payload : WebhookPayload) (config : WebhookConfig)
    (hdrs : gmap JsString JsString) (sig : JsString) :
  body_truthy (body payload) = true →
  headers payload = Some hdrs →
  truthy (secret config) = true →
  truthy (signature payload) = true →
  hdrs !! toLowerCase (or_default (signatureHeader config) (js "x-hub-signature-256"))
    = Some sig →
  Buffer_from sig ≠
    Buffer_from
      (generate (signatureValidators (default hmac_sha256 (signatureMethod config)))
         (match rawBody payload with
          | RawString s => s
          | RawBuffer b => Buffer_toString b
          end)
         (default [] (secret config))) →
  isValid (WebhookValidator_validate payload config) = false.
Proof. apply validate_try_tampered. Qed.

(** The mock payload of the test helpers: the signature ["mock_signature"]
    under the secret ["s3cr3t"]. *)
Lemma tampered_signature_is_rejected_witness :
  isValid (@WebhookValidator_validate Toy.runtime
             (github_payload (js "push") (Some (js "mock_signature")))
             (push_only (Some (js "s3cr3t")))) = false.
Proof.
  eapply (@tampered_signature_is_rejected Toy.runtime); try reflexivity.
  vm_compute. congruence.
Defined.

(** X4.  [WebhookManager.validateSignature], which compares the signature
    it is given with the generated one by [===], against the [validate]
    of the signature validator that the pipeline uses, which compares
    them with [timingSafeEqual].  Under a registered configuration with a
    non-empty secret the two give the same verdict whenever the validator
    returns one; the validator throws exactly when the byte lengths of the
    two signatures differ, and there the manager returns [false]; the
    manager returns [true] exactly for the generated signature. *)
Theorem manager_validateSignature_agrees_with_validator `{Runtime}
    (integrationId payload signature : JsString) (this : WebhookManager)
    (config : WebhookConfig) :
  configs this !! integrationId = Some config →
  truthy (secret config) = true →
  let validator := signatureValidators (default hmac_sha256 (signatureMethod config)) in
  let secret := default [] (secret config) in
  WebhookManager_validateSignature integrationId payload signature this =
    match validate validator payload signature secret with
    | Normal verdict => verdict
    | Throw _ => false
    end
  ∧ (WebhookManager_validateSignature integrationId payload signature this = true
     ↔ signature = generate validator payload secret)
  ∧ ((∃ e, validate validator payload signature secret = Throw e)
     ↔ length (Buffer_from signature)
         ≠ length (Buffer_from (generate validator payload secret))).
Proof.
  intros Hconfig Hsecret validator secret.
  assert (WebhookManager_validateSignature integrationId payload signature this =
            bool_decide (generate validator payload secret = signature)) as Hmanager.
  { unfold WebhookManager_validateSignature. by rewrite Hconfig, Hsecret. }
  subst validator. rewrite validate_unfold. unfold timingSafeEqual.
  set (expected := generate _ payload secret) in *.
  destruct (decide (length (Buffer_from signature) = length (Buffer_from expected)))
    as [Hlen|Hlen].
  - rewrite (bool_decide_eq_true_2 _ Hlen). split_and!.
    + rewrite Hmanager. apply bool_decide_ext. split; [by intros ->|].
      intros Heq. symmetry. apply Buffer_from_eq_ascii; [apply generate_ascii|done].
    + rewrite Hmanager, bool_decide_eq_true. split; by intros ->.
    + split; [by intros [e ?]|done].
  - rewrite (bool_decide_eq_false_2 _ Hlen). split_and!.
    + rewrite Hmanager. apply bool_decide_eq_false. by intros <-.
    + rewrite Hmanager, bool_decide_eq_true. split; by intros ->.
    + split; [done|]. intros _. by eexists.
Qed.

(** The secret ["s3cr3t"] and the signature ["forged"]: the validator
    throws, the manager answers [false]. *)
Lemma manager_validateSignature_agrees_with_validator_witness :
  let rt := Toy.runtime in
  WebhookManager_validateSignature (js "github-app") (js "{}") (js "forged")
    (push_manager (Some (js "s3cr3t"))) = false
  ∧ ∃ e, HmacSha256Validator_validate (js "{}") (js "forged") (js "s3cr3t") = Throw e.
Proof.
  intros rt.
  destruct (@manager_validateSignature_agrees_with_validator rt (js "github-app")
              (js "{}") (js "forged") (push_manager (Some (js "s3cr3t")))
              (push_only (Some (js "s3cr3t"))))
    as (Hagrees & _ & Hthrows); [vm_compute; reflexivity..|].
  apply proj2 in Hthrows.
  destruct Hthrows as [e He]; [vm_compute; lia|].
  split; [|by exists e].
  rewrite Hagrees. change (validate _ _ _ _) with
    (HmacSha256Validator_validate (js "{}") (js "forged") (js "s3cr3t")) in He |- *.
  by rewrite He.
Defined.

(** X5.  With a secret configured and a signature on the payload, a non-empty
    signature header whose byte length is not that of the expected
    signature makes [WebhookValidator.validate] catch the [RangeError]:
    the verdict is invalid and its reason is the error's message, not
    ["Invalid signature"]. *)
Theorem length_mismatch_is_a_validation_error `{Runtime}
    (payload : WebhookPayload) (config : WebhookConfig)
    (hdrs : gmap JsString JsString) (sig : JsString) :
  body_truthy (body payload) = true →
  headers payload = Some hdrs →
  truthy (secret config) = true →
  truthy (signature payload) = true →
  hdrs !! toLowerCase (or_default (signatureHeader config) (js "x-hub-signature-256"))
    = Some sig →
  sig ≠ [] →
  length (Buffer_from sig) ≠
    length
      (Buffer_from
         (generate (signatureValidators (default hmac_sha256 (signatureMethod config)))
            (match rawBody payload with
             | RawString s => s
             | RawBuffer b => Buffer_toString b
             end)
            (default [] (secret config)))) →
  WebhookValidator_validate payload config =
    {| isValid := false;
       validation_error :=
         Some (js "Validation error: Input buffers must have the same byte length");
       validation_event := None |}.
Proof.
  intros Hbody Hhdrs Hsecret Hsig Hheader Hne Hlen.
  unfold WebhookValidator_validate.
  by rewrite (validate_try_length_mismatch payload config hdrs sig).
Qed.

(** The mock payload of the test helpers again. *)
Lemma length_mismatch_is_a_validation_error_witness :
  @WebhookValidator_validate Toy.runtime
    (github_payload (js "push") (Some (js "mock_signature")))
    (push_only (Some (js "s3cr3t"))) =
    {| isValid := false;
       validation_error :=
         Some (js "Validation error: Input buffers must have the same byte length");
       validation_event := None |}.
Proof.
  eapply (@length_mismatch_is_a_validation_error Toy.runtime); try reflexivity.
  - vm_compute. congruence.
  - vm_compute. lia.
Defined.

(* --------------------------------------------------------------------- *)
(** ** The validator and the processor *)
(* --------------------------------------------------------------------- *)

(** X6.  How [extractEventType] classifies.  The event headers are tried in
    the order [x-github-event], [x-gitlab-event], [x-event-key],
    [x-event-type], [event-type]: the first one with a non-empty value
    gives the event, whatever the later headers and the body say.  The
    body is consulted only when none of the five headers has a non-empty
    value, and then its fields [event_type], [type], [action], [event]
    are tried in this order. *)
Theorem event_classification_priority
    (payload : WebhookPayload) (hdrs : gmap JsString JsString)
    (config : WebhookConfig) (i : nat) (name e : JsString) :
  e ≠ [] →
  (eventHeaders !! i = Some name →
   hdrs !! name = Some e →
   (∀ j earlier, (j < i)%nat → eventHeaders !! j = Some earlier →
                 truthy (hdrs !! earlier) = false) →
   extractEventType payload hdrs config = Some e)
  ∧ (∀ fields,
       (∀ header, header ∈ eventHeaders → truthy (hdrs !! header) = false) →
       body payload = BodyObject fields →
       eventBodyFields !! i = Some name →
       fields !! name = Some e →
       (∀ j earlier, (j < i)%nat → eventBodyFields !! j = Some earlier →
                     truthy (fields !! earlier) = false) →
       extractEventType payload hdrs config = Some e).
Proof.
  intros Hne. split.
  - intros Hi He Hearlier. unfold extractEventType.
    by rewrite (first_event_header_priority eventHeaders hdrs i name e
                  eventHeaders_lower Hi He Hne Hearlier).
  - intros fields Hnone Hbody Hi He Hearlier. unfold extractEventType.
    rewrite (first_event_header_none eventHeaders hdrs eventHeaders_lower Hnone).
    rewrite Hbody.
    assert (truthy (Some e) = true) as Ht by (by destruct e).
    assert (∀ a b, truthy a = true → or_else a b = a) as Hl
      by (intros a b Ha; unfold or_else; by rewrite Ha).
    assert (∀ a b, truthy a = false → or_else a b = b) as Hr
      by (intros a b Ha; unfold or_else; by rewrite Ha).
    destruct i as [|[|[|[|i]]]]; try done; apply (inj Some) in Hi; subst name.
    + rewrite He. by rewrite !(Hl (Some e)) by done.
    + rewrite (Hr (fields !! js "event_type")) by (apply (Hearlier 0%nat); done || lia).
      rewrite He. by rewrite !(Hl (Some e)) by done.
    + rewrite (Hr (fields !! js "event_type")) by (apply (Hearlier 0%nat); done || lia).
      rewrite (Hr (fields !! js "type")) by (apply (Hearlier 1%nat); done || lia).
      rewrite He. by rewrite !(Hl (Some e)) by done.
    + rewrite (Hr (fields !! js "event_type")) by (apply (Hearlier 0%nat); done || lia).
      rewrite (Hr (fields !! js "type")) by (apply (Hearlier 1%nat); done || lia).
      rewrite (Hr (fields !! js "action")) by (apply (Hearlier 2%nat); done || lia).
      done.
Qed.

(** A GitHub [push] whose body names the action [opened] is a [push]. *)
Lemma event_classification_priority_witness :
  extractEventType push_with_action {[ js "x-github-event" := js "push" ]}
    (push_only None) = Some (js "push").
Proof.
  apply (proj1 (event_classification_priority push_with_action
                  {[ js "x-github-event" := js "push" ]} (push_only None)
                  0%nat (js "x-github-event") (js "push") ltac:(done))).
  - reflexivity.
  - vm_compute. reflexivity.
  - intros j earlier Hj. lia.
Defined.




(** X9.  The record after a retry that finds it and passes the max-retries
    check.  It is [delivered] if the result reports success, [retrying] if
    the result asks for a retry, [failed] otherwise; the attempt pushed
    carries the error message of the result, and a time for the next
    retry (the clock reading plus the computed delay, truncated) exactly
    when the result asks for one. *)
Theorem retry_settles_the_status `{Runtime}
    (deliveryId : JsString) (payload : WebhookPayload) (config : WebhookConfig)
    (context : IntegrationContext) (env : Env) (this : WebhookProcessor)
    (l : nat) (d : WebhookDelivery) :
  getDelivery deliveryId this = Some (l, d) →
  (Z.of_nat (length (attempts d)) < maxRetries (policy_of config))%Z →
  let result := (retry deliveryId payload config context env this).1 in
  ∃ d' a,
    heap (retry deliveryId payload config context env this).2 !! l = Some d'
    ∧ status d' =
        (if success result then delivered
         else if default false (shouldRetry result) then retrying
         else failed)
    ∧ attempts d' = attempts d ++ [a]
    ∧ attempt_error a = error_message result
    ∧ nextRetry a =
        (if default false (shouldRetry result)
         then Some (Date_of (inject_Z (now env)
                             + calculateRetryDelay (length (attempts d))
                                 (policy_of config) (random env)))
         else None).
Proof.
  intros Hget Hlt result. subst result.
  destruct (retry_passed_state deliveryId payload config context env this l d Hget Hlt)
    as (result & Hproc & Hres & Hheap).
  rewrite Hres.
  by exists (set_status (status_after result)
            (push_attempt (retry_attempt config env d result) d)),
    (retry_attempt config env d result).
Qed.

(** A delivery whose handler rejects stays [retrying] after its first
    retry under the default policy. *)
Lemma retry_settles_the_status_witness :
  let rt := Toy.runtime in
  let payload := github_payload (js "push") None in
  let config := push_only None in
  let recorded := (process payload config no_context (env_at 1) push_processor).2 in
  ∃ d',
    heap (retry (generateDeliveryId (env_at 1)) payload config no_context
            (env_at 2) recorded).2 !! 0%nat = Some d'
    ∧ status d' = retrying.
Proof.
  intros rt payload config recorded.
  assert (getDelivery (generateDeliveryId (env_at 1)) recorded =
            Some (0%nat, new_delivery payload config (env_at 1) (js "push")
                           (rejecting_handler payload no_context (env_at 1)))) as Hget
    by (vm_compute; reflexivity).
  destruct (@retry_settles_the_status rt _ payload config no_context (env_at 2)
              _ _ _ Hget) as (d' & a & Hd' & Hstatus & _); [vm_compute; reflexivity|].
  exists d'. split; [done|]. rewrite Hstatus. vm_compute. reflexivity.
Defined.

(** X10.  A record that holds [maxRetries] attempts or more is exhausted for
    good: [retry] reports [MAX_RETRIES_EXCEEDED], marks the record
    failed, leaves its attempts, every other record and the number of
    records as they were, and every later retry of the same id under the
    same configuration, whatever the payload, does the same again. *)
Theorem exhausted_delivery_stays_failed `{Runtime}
    (deliveryId : JsString) (payload : WebhookPayload) (config : WebhookConfig)
    (context : IntegrationContext) (env : Env) (this : WebhookProcessor)
    (l : nat) (d : WebhookDelivery) :
  getDelivery deliveryId this = Some (l, d) →
  (maxRetries (policy_of config) ≤ Z.of_nat (length (attempts d)))%Z →
  let refused := retry deliveryId payload config context env this in
  error refused.1 =
    Some {| code := js "MAX_RETRIES_EXCEEDED";
            message := js "Maximum retry attempts ("
                         ++ decimal (maxRetries (policy_of config))
                         ++ js ") exceeded";
            details := None;
            retryable := Some false |}
  ∧ getDelivery deliveryId refused.2 = Some (l, set_status failed d)
  ∧ length (heap refused.2) = length (heap this)
  ∧ (∀ l' d', l' ≠ l → heap this !! l' = Some d' → heap refused.2 !! l' = Some d')
  ∧ (∀ payload' context' env',
       retry deliveryId payload' config context' env' refused.2 = refused).
Proof.
  intros Hget Hmax refused. subst refused.
  rewrite (retry_refused deliveryId payload config context env this l d Hget Hmax).
  cbn [fst snd].
  assert (getDelivery deliveryId (mutate l (set_status failed) this)
            = Some (l, set_status failed d)) as Hget'.
  { apply getDelivery_Some in Hget as [Hl Hd]. apply getDelivery_Some.
    split; [done|]. by apply heap_mutate_eq. }
  split_and!; try done.
  - simpl. by rewrite length_alter.
  - intros l' d' Hne Hd'. simpl. by rewrite list_lookup_alter_ne.
  - intros payload' context' env'.
    rewrite (retry_refused deliveryId payload' config context' env' _ l
               (set_status failed d) Hget' Hmax).
    f_equal. destruct this as [hs ds hp]. unfold mutate. simpl. f_equal.
    rewrite list_alter_alter_eq. by apply list_alter_ext.
Qed.

(** Under [maxRetries = 1], the delivery that has just been recorded. *)
Lemma exhausted_delivery_stays_failed_witness :
  let rt := Toy.runtime in
  let config :=
    with_retryPolicy
      {| maxRetries := 1; backoffStrategy := linear;
         baseDelay := 1000; maxDelay := 5000 |} (push_only None) in
  let payload := github_payload (js "push") None in
  let recorded := (process payload config no_context (env_at 1) push_processor).2 in
  let refused :=
    retry (generateDeliveryId (env_at 1)) payload config no_context (env_at 2) recorded in
  retry (generateDeliveryId (env_at 1)) unclassified_payload config no_context (env_at 3)
    refused.2 = refused.
Proof.
  intros rt config payload recorded refused.
  assert (getDelivery (generateDeliveryId (env_at 1)) recorded =
            Some (0%nat, new_delivery payload config (env_at 1) (js "push")
                           (rejecting_handler payload no_context (env_at 1)))) as Hget
    by (vm_compute; reflexivity).
  destruct (@exhausted_delivery_stays_failed rt _ payload config no_context (env_at 2)
              _ _ _ Hget) as (_ & _ & _ & _ & Hagain); [vm_compute; congruence|].
  apply Hagain.
Defined.

(** X11.  For a policy whose [baseDelay] is not negative and draws of
    [Math.random()] in [[0, 1)]: the delay never exceeds [maxDelay]; it is
    not negative when [maxDelay] is not; and it does not decrease from a
    retry index to a later one, under either strategy and whatever the
    two draws (the jitter, at most a tenth, is less than the doubling). *)
Theorem retry_delay_is_capped_and_grows
    (n m : nat) (policy : RetryPolicy) (rnd rnd' : Q) :
  (0 <= baseDelay policy)%Q →
  (0 <= rnd)%Q → (rnd < 1)%Q → (0 <= rnd')%Q →
  (calculateRetryDelay n policy rnd <= maxDelay policy)%Q
  ∧ ((0 <= maxDelay policy)%Q → (0 <= calculateRetryDelay n policy rnd)%Q)
  ∧ ((n < m)%nat →
     (calculateRetryDelay n policy rnd <= calculateRetryDelay m policy rnd')%Q).
Proof.
  intros Hbase Hrnd0 Hrnd1 Hrnd'.
  pose proof (two_power_nonneg n) as Hn.
  pose proof (two_power_nonneg m) as Hm.
  unfold calculateRetryDelay. destruct (backoffStrategy policy); split_and!.
  - apply Q.le_min_r.
  - intros Hmax. apply Q.min_glb; [|done].
    apply Qmult_le_0_compat; [done|].
    change 0%Q with (inject_Z 0). rewrite <-Zle_Qle. lia.
  - intros Hlt. apply Q.min_le_compat_r.
    assert (inject_Z (Z.of_nat n + 1) <= inject_Z (Z.of_nat m + 1))%Q as Hle
      by (rewrite <-Zle_Qle; lia).
    nra.
  - apply Q.le_min_r.
  - intros Hmax. apply Q.min_glb; [|done]. cbv zeta.
    assert (0 <= baseDelay policy * inject_Z (2 ^ Z.of_nat n))%Q as He
      by (by apply Qmult_le_0_compat).
    revert He. generalize (baseDelay policy * inject_Z (2 ^ Z.of_nat n))%Q.
    intros e He. nra.
  - intros Hlt. apply Q.min_le_compat_r. cbv zeta.
    assert (0 <= baseDelay policy * inject_Z (2 ^ Z.of_nat n))%Q as He
      by (by apply Qmult_le_0_compat).
    assert (2 * (baseDelay policy * inject_Z (2 ^ Z.of_nat n))
            <= baseDelay policy * inject_Z (2 ^ Z.of_nat m))%Q as He'
      by (pose proof (two_power_doubles n m Hlt); nra).
    revert He He'.
    generalize (baseDelay policy * inject_Z (2 ^ Z.of_nat n))%Q,
               (baseDelay policy * inject_Z (2 ^ Z.of_nat m))%Q.
    intros e e' He He'. nra.
Qed.

(** The default policy at the indices 0 (draw [1/2]) and 1 (draw [0]). *)
Lemma retry_delay_is_capped_and_grows_witness :
  (calculateRetryDelay 0 getDefaultRetryPolicy (1 # 2)
   <= calculateRetryDelay 1 getDefaultRetryPolicy 0)%Q.
Proof.
  apply (proj2 (proj2 (retry_delay_is_capped_and_grows 0 1 getDefaultRetryPolicy
                         (1 # 2) 0 ltac:(done) ltac:(done) ltac:(done) ltac:(done)))).
  lia.
Defined.

(* --------------------------------------------------------------------- *)
(** ** The webhook manager *)
(* --------------------------------------------------------------------- *)


(** X13.  [handleWebhook] normalises the headers for the validator but reads
    the signature from the headers as they came, under the lower-case
    name of the signature header.  When no header was sent under exactly
    that name (it was sent with capital letters, say, or not at all), the
    payload carries no signature, the signature check is skipped, and
    the outcome and the processor are what they would be had no secret
    been configured. *)
Theorem signature_header_is_looked_up_as_sent `{Runtime}
    (integrationId : JsString) (rawHeaders : list (JsString * JsString))
    (body : JsBody) (rawBody : RawBody) (context : IntegrationContext)
    (env : Env) (this : WebhookManager) (config : WebhookConfig) :
  configs this !! integrationId = Some config →
  toLowerCase (or_default (signatureHeader config) (js "x-hub-signature-256"))
    ∉ rawHeaders.*1 →
  let handled this := WebhookManager_handleWebhook integrationId rawHeaders body rawBody
                        context env this in
  (handled this).1 = (handled (register integrationId (without_secret config) this)).1
  ∧ processor (handled this).2
      = processor (handled (register integrationId (without_secret config) this)).2.
Proof.
  intros Hc Hnone handled. subst handled. cbn beta.
  destruct (handleWebhook_same_verdict integrationId rawHeaders body rawBody context env
              this config (without_secret config) Hc) as [-> ->]; try done.
  intros payload ->. unfold WebhookValidator_validate.
  rewrite (validate_try_no_signature _ config); [done|].
  unfold received_payload, extractSignature. cbn [signature].
  by rewrite (not_elem_of_list_to_map_1 _ _ Hnone).
Qed.

(** A [push] with the forged signature ["forged"] sent as
    [X-Hub-Signature-256], under the secret ["s3cr3t"]: accepted. *)
Lemma signature_header_is_looked_up_as_sent_witness :
  let rt := Toy.runtime in
  (WebhookManager_handleWebhook (js "github-app") (capitalised_headers (js "forged"))
     (BodyObject ∅) (RawString (js "{}")) no_context (env_at 1)
     (push_manager (Some (js "s3cr3t")))).1
    = Normal {| success := true; event := Some (js "push");
                error := None; shouldRetry := None |}.
Proof.
  intros rt.
  rewrite (proj1 (@signature_header_is_looked_up_as_sent rt (js "github-app")
                    (capitalised_headers (js "forged")) (BodyObject ∅)
                    (RawString (js "{}")) no_context (env_at 1)
                    (push_manager (Some (js "s3cr3t"))) (push_only (Some (js "s3cr3t")))
                    ltac:(vm_compute; reflexivity)
                    ltac:(apply (bool_decide_unpack _); vm_compute; exact I))).
  vm_compute. reflexivity.
Defined.

(** X14.  Round trip between [generateSignature] and [handleWebhook]: a
    request whose raw body is the string [raw] and which carries, under
    the lower-case name of the signature header, the signature that
    [generateSignature] gives for [raw] passes the signature check,
    when no two headers differ only in case: the outcome and the processor
    are those of the same request under the configuration without its
    secret. *)
Theorem signed_webhook_passes_the_signature_check `{Runtime}
    (integrationId : JsString) (rawHeaders : list (JsString * JsString))
    (body : JsBody) (raw : JsString) (context : IntegrationContext)
    (env : Env) (this : WebhookManager) (config : WebhookConfig) (sig : JsString) :
  configs this !! integrationId = Some config →
  WebhookManager_generateSignature integrationId raw this = Some sig →
  NoDup (toLowerCase <$> rawHeaders.*1) →
  (toLowerCase (or_default (signatureHeader config) (js "x-hub-signature-256")), sig)
    ∈ rawHeaders →
  let handled this := WebhookManager_handleWebhook integrationId rawHeaders body
                        (RawString raw) context env this in
  (handled this).1 = (handled (register integrationId (without_secret config) this)).1
  ∧ processor (handled this).2
      = processor (handled (register integrationId (without_secret config) this)).2.
Proof.
  intros Hc Hgen Hnd Hin handled. subst handled. cbn beta.
  unfold WebhookManager_generateSignature in Hgen. rewrite Hc in Hgen.
  destruct (truthy (secret config)) eqn:Hs; [|done]. simpl in Hgen.
  injection Hgen as Hgen.
  destruct (handleWebhook_same_verdict integrationId rawHeaders body (RawString raw)
              context env this config (without_secret config) Hc) as [-> ->]; try done.
  intros payload ->. unfold WebhookValidator_validate.
  rewrite (validate_signature_passes _ config (normalizeHeaders rawHeaders) sig raw);
    try done.
  rewrite <-(toLowerCase_idemp (or_default _ _)).
  by apply normalizeHeaders_unique.
Qed.

(** A [push] signed under the secret ["s3cr3t"]: accepted. *)
Lemma signed_webhook_passes_the_signature_check_witness :
  let rt := Toy.runtime in
  let sig := HmacSha256Validator_generate (js "{}") (js "s3cr3t") in
  (WebhookManager_handleWebhook (js "github-app") (lowercase_headers sig)
     (BodyObject ∅) (RawString (js "{}")) no_context (env_at 1)
     (push_manager (Some (js "s3cr3t")))).1
    = Normal {| success := true; event := Some (js "push");
                error := None; shouldRetry := None |}.
Proof.
  intros rt sig.
  rewrite (proj1 (@signed_webhook_passes_the_signature_check rt (js "github-app")
                    (lowercase_headers sig) (BodyObject ∅) (js "{}")
                    no_context (env_at 1)
                    (push_manager (Some (js "s3cr3t"))) (push_only (Some (js "s3cr3t")))
                    sig
                    ltac:(vm_compute; reflexivity)
                    ltac:(vm_compute; reflexivity)
                    ltac:(apply (bool_decide_unpack _); vm_compute; exact I)
                    ltac:(left))).
  vm_compute. reflexivity.
Defined.

(* --------------------------------------------------------------------- *)
(** ** OAuth providers *)
(* --------------------------------------------------------------------- *)

(** X15.  [validateTokens] never throws, whatever the [getUserInfo] of the
    subclass does.  Tokens whose expiry time has come are invalid, and no
    request is made for them; tokens that have not expired (or have no
    expiry time) are valid exactly when [getUserInfo] returns. *)
Theorem validateTokens_never_throws {A}
    (getUserInfo : OAuthTokens → IO A) (tokens : OAuthTokens) (w : World) :
  (∃ valid, (validateTokens getUserInfo tokens w).1 = Normal valid)
  ∧ (∀ t, expiresAt tokens = Some t → (t ≤ clock w)%Z →
       validateTokens getUserInfo tokens w = (Normal false, w))
  ∧ ((∀ t, expiresAt tokens = Some t → (clock w < t)%Z) →
       validateTokens getUserInfo tokens w =
         (Normal match (getUserInfo tokens w).1 with
                 | Normal _ => true
                 | Throw _ => false
                 end,
          (getUserInfo tokens w).2)).
Proof.
  unfold validateTokens, io_catch, io_bind, io_ret. split_and!.
  - destruct (expiresAt tokens) as [t|].
    + destruct (t <=? clock w)%Z; [by eexists|].
      destruct (getUserInfo tokens w) as [[a|e] w']; by eexists.
    + destruct (getUserInfo tokens w) as [[a|e] w']; by eexists.
  - intros t -> Ht. apply Z.leb_le in Ht. by rewrite Ht.
  - intros Hfresh. destruct (expiresAt tokens) as [t|].
    + specialize (Hfresh t eq_refl). apply Z.leb_gt in Hfresh. rewrite Hfresh.
      by destruct (getUserInfo tokens w) as [[a|e] w'].
    + by destruct (getUserInfo tokens w) as [[a|e] w'].
Qed.

(** X16.  What [exchangeCodeForTokens] of [CustomOAuth] sends: first the
    token request, to the token URL, then at most one further request
    (for the user), which has no body.  The token request holds the
    client secret exactly when PKCE is off and a non-empty secret is
    configured, and a code verifier exactly when the state it is given
    holds a non-empty one. *)
Theorem custom_exchange_token_request
    (this : OAuthProvider) (code : JsString) (st : OAuthState) (w : World) :
  ∃ fields rest,
    requests_since w (CustomOAuth_exchangeCodeForTokens this code st w).2
      = Post (tokenUrl_of this) fields :: rest
    ∧ sends (js "client_secret") (Post (tokenUrl_of this) fields) =
        negb (default false (usePKCE (provider_config this)))
        && truthy (clientSecret (provider_config this))
    ∧ sends (js "code_verifier") (Post (tokenUrl_of this) fields) =
        truthy (codeVerifier st)
    ∧ Forall (λ request, ∀ key, sends key request = false) rest
    ∧ (length rest ≤ 1)%nat.
Proof.
  destruct (CustomOAuth_exchange_requests this code st w)
    as (fields & rest & Hreq & Hrest).
  exists fields, rest. split; [|done]. by apply requests_since_app.
Qed.

(** X17.  [completeOAuth] builds the state it hands to the provider without
    a code verifier.  So, for a provider of class [CustomOAuth] or
    [GitHubOAuth], no request made during [completeOAuth] holds a code
    verifier, although [getAuthorizationUrl] has put a code challenge
    into the authorization URL when PKCE is on; and a [CustomOAuth]
    provider with PKCE on sends no client secret either. *)
Theorem completeOAuth_sends_no_code_verifier
    (code st : JsString) (context : IntegrationContext)
    (this : IntegrationInstance) (p : OAuthProvider) (w : World) :
  instance_oauthProvider this = Some p →
  let sent exchange :=
    requests_since w (completeOAuth exchange code st context this w).2 in
  (class p = CustomOAuth →
   Forall (λ request, sends (js "code_verifier") request = false)
     (sent CustomOAuth_exchangeCodeForTokens)
   ∧ (usePKCE (provider_config p) = Some true →
      Forall (λ request, sends (js "client_secret") request = false)
        (sent CustomOAuth_exchangeCodeForTokens)))
  ∧ (class p = GitHubOAuth →
     Forall (λ request, sends (js "code_verifier") request = false)
       (sent GitHubOAuth_exchangeCodeForTokens)).
Proof.
  intros Hp sent. subst sent. cbn beta.
  destruct (oauth (instance_config this)) as [o|] eqn:Ho.
  - split.
    + intros _.
      pose proof (completeOAuth_requests CustomOAuth_exchangeCodeForTokens
                    code st context this w o p Ho Hp) as Hreq.
      destruct (CustomOAuth_exchange_requests p code
                  {| state := st; codeVerifier := None;
                     state_redirectUri := redirectUri o;
                     state_scopes := scopes o;
                     state_userId := userId context |} w)
        as (fields & rest & Hsent & Hsecret & Hverifier & Hrest & _).
      rewrite Hsent in Hreq. rewrite (requests_since_app _ _ _ Hreq).
      split.
      * apply Forall_cons. split; [done|].
        eapply Forall_impl; [exact Hrest|]. by intros r Hr.
      * intros Hpkce. apply Forall_cons. split.
        -- rewrite Hsecret, Hpkce. done.
        -- eapply Forall_impl; [exact Hrest|]. by intros r Hr.
    + intros _.
      pose proof (completeOAuth_requests GitHubOAuth_exchangeCodeForTokens
                    code st context this w o p Ho Hp) as Hreq.
      destruct (GitHubOAuth_exchange_requests p code
                  {| state := st; codeVerifier := None;
                     state_redirectUri := redirectUri o;
                     state_scopes := scopes o;
                     state_userId := userId context |} w)
        as (fields & rest & Hsent & Hverifier & Hrest & _).
      rewrite Hsent in Hreq. rewrite (requests_since_app _ _ _ Hreq).
      apply Forall_cons. split; [done|].
      eapply Forall_impl; [exact Hrest|]. by intros r Hr.
  - assert (∀ exchange,
              requests_since w (completeOAuth exchange code st context this w).2 = [])
      as Hnone.
    { intros exchange. rewrite completeOAuth_not_configured by (by left).
      unfold requests_since. simpl. apply drop_all. }
    rewrite !Hnone. done.
Qed.

(** The custom integration of the examples, with PKCE on: the token
    request holds neither a code verifier nor the client secret. *)
Lemma completeOAuth_sends_no_code_verifier_witness :
  let rt := Toy.runtime in
  let sent :=
    requests_since (constant_world Byte.x00)
      (completeOAuth CustomOAuth_exchangeCodeForTokens (js "code") (js "state")
         no_context custom_instance (constant_world Byte.x00)).2 in
  Forall (λ request, sends (js "code_verifier") request = false) sent
  ∧ Forall (λ request, sends (js "client_secret") request = false) sent
  ∧ length sent = 1%nat.
Proof.
  intros rt sent.
  destruct (proj1 (completeOAuth_sends_no_code_verifier (js "code") (js "state")
                     no_context custom_instance custom_pkce_provider
                     (constant_world Byte.x00) eq_refl) eq_refl) as [Hverifier Hsecret].
  split_and!; [exact Hverifier|exact (Hsecret eq_refl)|vm_compute; reflexivity].
Defined.

Local Opaque toString_base64url toString_hex Buffer_from.

(** X18.  Where a PKCE challenge is added.  [getAuthorizationUrl] of
    [GitHubOAuth] and [CustomOAuth] reads [usePKCE]; the other three
    classes do not, so for them the result never holds a code verifier.
    When a challenge is added, the verifier is the URL-safe base-64 form
    of the 32 bytes drawn after the 16 bytes of the state token: 43
    characters of [A-Za-z0-9_-]; and the URL is the authorize URL with
    the five base parameters followed by [code_challenge], the URL-safe
    base-64 form of the SHA-256 digest of the verifier, and
    [code_challenge_method=S256]. *)
Theorem pkce_challenge_is_added_where_supported `{Runtime}
    (this : OAuthProvider) (st : OAuthState) (w w' : World)
    (r : OAuthAuthorizationResult) :
  getAuthorizationUrl this st w = (Normal r, w') →
  if adds_pkce this then
    ∃ verifier,
      result_codeVerifier r = Some verifier
      ∧ verifier = toString_base64url (entropy w <$> seq (drawn w + 16) 32)
      ∧ length verifier = 43%nat
      ∧ Forall (λ c, is_base64url c = true) verifier
      ∧ drawn w' = (drawn w + 48)%nat
      ∧ ∃ u, URL_new (authUrl_of this) = Normal u
             ∧ authorizationUrl r =
                 URL_toString
                   (foldl (λ u '(key, value), searchParams_append u key value) u
                      (base_params this st (js " ") (result_state r)
                       ++ [(js "code_challenge",
                            toString_base64url
                              (hash_digest sha256 (Buffer_from verifier)));
                           (js "code_challenge_method", js "S256")]))
  else
    result_codeVerifier r = None ∧ drawn w' = (drawn w + 16)%nat.
Proof.
  assert (∀ baseUrl params w0 r0 w1,
            buildAuthUrl baseUrl params w0 = (Normal r0, w1) →
            w1 = w0
            ∧ ∃ u, URL_new baseUrl = Normal u
                   ∧ r0 = URL_toString
                            (foldl (λ u '(key, value), searchParams_append u key value)
                               u params)) as Hbuild.
  { intros baseUrl params w0 r0 w1. unfold buildAuthUrl, io_bind, io_lift, io_ret.
    destruct (URL_new baseUrl) as [u|e]; [|done].
    intros [= <- <-]. split; [done|]. by exists u. }
  assert (∀ sep, getAuthorizationUrl_plain sep this st w = (Normal r, w') →
                 result_codeVerifier r = None ∧ drawn w' = (drawn w + 16)%nat) as Hplain.
  { intros sep. unfold getAuthorizationUrl_plain.
    rewrite (io_bind_Normal _ _ _ _ _ (generateState_spec w)). unfold io_bind at 1.
    destruct (buildAuthUrl _ _ _) as [[u|e] w3] eqn:Hurl; [|done].
    apply Hbuild in Hurl as [-> _]. unfold io_ret. by intros [= <- <-]. }
  assert (getAuthorizationUrl_pkce this st w = (Normal r, w') →
          if default false (usePKCE (provider_config this)) then
            ∃ verifier,
              result_codeVerifier r = Some verifier
              ∧ verifier = toString_base64url (entropy w <$> seq (drawn w + 16) 32)
              ∧ length verifier = 43%nat
              ∧ Forall (λ c, is_base64url c = true) verifier
              ∧ drawn w' = (drawn w + 48)%nat
              ∧ ∃ u, URL_new (authUrl_of this) = Normal u
                     ∧ authorizationUrl r =
                         URL_toString
                           (foldl (λ u '(key, value), searchParams_append u key value) u
                              (base_params this st (js " ") (result_state r)
                               ++ [(js "code_challenge",
                                    toString_base64url
                                      (hash_digest sha256 (Buffer_from verifier)));
                                   (js "code_challenge_method", js "S256")]))
          else result_codeVerifier r = None ∧ drawn w' = (drawn w + 16)%nat) as Hpkce.
  { unfold getAuthorizationUrl_pkce.
    rewrite (io_bind_Normal _ _ _ _ _ (generateState_spec w)).
    set (w1 := {| entropy := entropy w; drawn := drawn w + 16;
                  requests := requests w; server := server w;
                  clock := clock w; clock36 := clock36 w;
                  math_random36 := math_random36 w |}).
    destruct (default false (usePKCE (provider_config this))).
    - rewrite (io_bind_Normal _ _ _ _ _ (generatePKCEChallenge_spec w1)).
      cbn [codeChallenge codeChallengeMethod pkce_codeVerifier].
      unfold io_bind at 1.
      match goal with
      | |- context [buildAuthUrl ?b ?p ?w2] =>
          destruct (buildAuthUrl b p w2) as [[u|e] w3] eqn:Hurl; [|done]
      end.
      apply Hbuild in Hurl as [-> (u0 & Hu0 & ->)].
      unfold io_ret. intros [= <- <-].
      exists (toString_base64url (next_bytes 32 w1)).
      cbn [result_codeVerifier result_state authorizationUrl drawn].
      split_and!.
      + done.
      + done.
      + by rewrite toString_base64url_length, next_bytes_length.
      + apply toString_base64url_alphabet.
      + lia.
      + by exists u0.
    - unfold io_bind at 1.
      destruct (buildAuthUrl _ _ w1) as [[u|e] w3] eqn:Hurl; [|done].
      apply Hbuild in Hurl as [-> _]. unfold io_ret. by intros [= <- <-]. }
  unfold getAuthorizationUrl, adds_pkce.
  destruct (class this); eauto.
Qed.

Local Transparent toString_base64url toString_hex Buffer_from.

(** The custom provider of the examples: a verifier of 43 characters. *)
Lemma pkce_challenge_is_added_where_supported_witness :
  let rt := Toy.runtime in
  let st := {| state := []; codeVerifier := None; state_redirectUri := [];
               state_scopes := []; state_userId := None |} in
  match (getAuthorizationUrl custom_pkce_provider st (constant_world Byte.x00)).1 with
  | Normal r => (length <$> result_codeVerifier r) = Some 43%nat
  | Throw _ => False
  end.
Proof.
  intros rt st.
  destruct (getAuthorizationUrl custom_pkce_provider st (constant_world Byte.x00))
    as [[r|e] w'] eqn:Hrun.
  - destruct (@pkce_challenge_is_added_where_supported rt _ _ _ _ _ Hrun)
      as (verifier & Hr & _ & Hlen & _).
    cbn [fst]. by rewrite Hr, <-Hlen.
  - vm_compute in Hrun. discriminate Hrun.
Defined.

(* --------------------------------------------------------------------- *)
(** ** The integration façade *)
(* --------------------------------------------------------------------- *)

(** X19.  [initializeOAuth], [completeOAuth] and [refreshTokens] of an
    integration never throw: whatever the provider, the remote side and
    the subscribers do, they return a result, and a result that is not a
    success carries [OAUTH_NOT_CONFIGURED], not retryable, or the failure
    code of the operation ([OAUTH_INIT_FAILED], [OAUTH_EXCHANGE_FAILED],
    [TOKEN_REFRESH_FAILED]), retryable. *)
Theorem facade_reports_failures_as_results `{Runtime}
    (exchangeCodeForTokens : OAuthProvider → JsString → OAuthState → IO OAuthTokenResult)
    (authorizationCode st refreshToken : JsString) (context : IntegrationContext)
    (this : IntegrationInstance) (w : World) :
  (∃ r, (initializeOAuth context (as_Integration this) w).1 = Normal r
        ∧ (result_success r = false →
           ∃ e, result_error r = Some e
                ∧ (code e = js "OAUTH_NOT_CONFIGURED" ∧ retryable e = Some false
                   ∨ code e = js "OAUTH_INIT_FAILED" ∧ retryable e = Some true)))
  ∧ (∃ r, (completeOAuth exchangeCodeForTokens authorizationCode st context this w).1 = Normal r
          ∧ (outcome_success r = false →
             ∃ e, outcome_error r = Some e
                  ∧ (code e = js "OAUTH_NOT_CONFIGURED" ∧ retryable e = Some false
                     ∨ code e = js "OAUTH_EXCHANGE_FAILED" ∧ retryable e = Some true)))
  ∧ (∃ r, (Integration_refreshTokens refreshToken context this w).1 = Normal r
          ∧ (outcome_success r = false →
             ∃ e, outcome_error r = Some e
                  ∧ (code e = js "OAUTH_NOT_CONFIGURED" ∧ retryable e = Some false
                     ∨ code e = js "TOKEN_REFRESH_FAILED" ∧ retryable e = Some true))).
Proof.
  split_and!.
  - unfold initializeOAuth. cbn [as_Integration config oauthProvider].
    destruct (oauth (instance_config this)) as [o|];
      [destruct (instance_oauthProvider this) as [p|]|].
    + unfold io_catch. rewrite io_bind_run.
      unfold Integration_generateState at 1. rewrite io_bind_run.
      destruct (getAuthorizationUrl p _ w) as [[result|e] w1].
      * rewrite io_bind_run. unfold emitEvent, io_lift.
        destruct (call_subscribers _ _ _ _) as [[]|e].
        -- eexists. split; [reflexivity|]. done.
        -- eexists. split; [reflexivity|]. intros _. eexists. split; [reflexivity|].
           by right.
      * eexists. split; [reflexivity|]. intros _. eexists. split; [reflexivity|].
        by right.
    + eexists. split; [reflexivity|]. intros _. eexists. split; [reflexivity|]. by left.
    + eexists. split; [reflexivity|]. intros _. eexists. split; [reflexivity|]. by left.
  - unfold completeOAuth.
    destruct (oauth (instance_config this)) as [o|];
      [destruct (instance_oauthProvider this) as [p|]|].
    + unfold io_catch. cbv zeta. rewrite io_bind_run.
      destruct (exchangeCodeForTokens p _ _ w) as [[result|e] w1].
      * rewrite io_bind_run. unfold Integration_emitEvent, io_lift.
        destruct (notify _ _ _ _) as [[]|e].
        -- eexists. split; [reflexivity|]. done.
        -- eexists. split; [reflexivity|]. intros _. eexists. split; [reflexivity|].
           by right.
      * eexists. split; [reflexivity|]. intros _. eexists. split; [reflexivity|].
        by right.
    + eexists. split; [reflexivity|]. intros _. eexists. split; [reflexivity|]. by left.
    + eexists. split; [reflexivity|]. intros _. eexists. split; [reflexivity|]. by left.
  - unfold Integration_refreshTokens.
    destruct (instance_oauthProvider this) as [p|].
    + unfold io_catch. rewrite io_bind_run.
      destruct (refreshTokens p _ w) as [[tokens|e] w1].
      * rewrite io_bind_run. unfold Integration_emitEvent, io_lift.
        destruct (notify _ _ _ _) as [[]|e].
        -- eexists. split; [reflexivity|]. done.
        -- eexists. split; [reflexivity|]. intros _. eexists. split; [reflexivity|].
           by right.
      * eexists. split; [reflexivity|]. intros _. eexists. split; [reflexivity|].
        by right.
    + eexists. split; [reflexivity|]. intros _. eexists. split; [reflexivity|]. by left.
Qed.

(** X20.  The provider that the constructor of [Integration] builds is
    ready for use, and building it touches nothing: its authorize URL and
    its token URL are present (and the user-info URL, except for a custom
    provider), a URL that the configuration gives is kept and not
    replaced by the default of the class, the client id and secret are
    those of the configuration; hence [refreshTokens] on it never fails
    for want of a token URL: it sends exactly one request, to the token
    URL. *)
Theorem facade_provider_is_ready
    (config : IntegrationConfig) (w w' : World) (p : OAuthProvider) :
  initializeOAuthProvider config w = (Normal (Some p), w') →
  w' = w
  ∧ truthy (authUrl (provider_config p)) = true
  ∧ truthy (tokenUrl (provider_config p)) = true
  ∧ (class p ≠ CustomOAuth → truthy (userInfoUrl (provider_config p)) = true)
  ∧ (∃ o, oauth config = Some o
          ∧ clientId (provider_config p) = clientId o
          ∧ clientSecret (provider_config p) = clientSecret o
          ∧ (truthy (authUrl o) = true → authUrl (provider_config p) = authUrl o)
          ∧ (truthy (tokenUrl o) = true → tokenUrl (provider_config p) = tokenUrl o)
          ∧ (truthy (userInfoUrl o) = true →
             userInfoUrl (provider_config p) = userInfoUrl o))
  ∧ (∀ refreshToken w1,
       ∃ fields,
         requests (refreshTokens p refreshToken w1).2
           = requests w1 ++ [Post (tokenUrl_of p) fields]).
Proof.
  intros Hinit.
  pose proof (initializeOAuthProvider_world config w) as Hw.
  rewrite Hinit in Hw. simpl in Hw. subst w'. split; [done|].
  assert (truthy (authUrl (provider_config p)) = true
          ∧ truthy (tokenUrl (provider_config p)) = true
          ∧ (class p ≠ CustomOAuth → truthy (userInfoUrl (provider_config p)) = true)
          ∧ (∃ o, oauth config = Some o
                ∧ clientId (provider_config p) = clientId o
                ∧ clientSecret (provider_config p) = clientSecret o
                ∧ (truthy (authUrl o) = true → authUrl (provider_config p) = authUrl o)
                ∧ (truthy (tokenUrl o) = true → tokenUrl (provider_config p) = tokenUrl o)
                ∧ (truthy (userInfoUrl o) = true →
                   userInfoUrl (provider_config p) = userInfoUrl o)))
    as (Ha & Ht & Hu & Ho).
  { revert Hinit. unfold initializeOAuthProvider.
    destruct (oauth config) as [o|]; [|done].
    destruct (provider config); try done.
    1-4: intros [= <-]; cbn [provider_config class with_default_urls authUrl tokenUrl
                             userInfoUrl clientId clientSecret];
         split_and!;
         [by apply or_default_truthy|by apply or_default_truthy
         |intros _; by apply or_default_truthy
         |exists o; split_and!; try done; apply or_default_keeps].
    unfold io_bind, CustomOAuth_new.
    destruct (truthy (authUrl o)) eqn:Ha; destruct (truthy (tokenUrl o)) eqn:Ht;
      try done. simpl.
    intros [= <-]. cbn [provider_config class]. split_and!; try done.
    by exists o. }
  split_and!; try done.
  intros refreshToken w1. unfold refreshTokens. rewrite Ht. cbn [negb].
  rewrite io_bind_run. unfold http at 1. cbn [requests].
  eexists. by destruct (server w1 _).
Qed.

(** The GitHub provider of the tests refreshes at the default token URL. *)
Lemma facade_provider_is_ready_witness :
  let rt := Toy.runtime in
  ∃ p fields,
    oauthProvider github_integration = Some p
    ∧ requests (refreshTokens p (js "refresh-token") (constant_world Byte.x00)).2
        = [] ++ [Post (js "https://github.com/login/oauth/access_token") fields].
Proof.
  intros rt.
  destruct (oauthProvider github_integration) as [p|] eqn:Hp; [|discriminate Hp].
  destruct (facade_provider_is_ready (config github_integration)
              (constant_world Byte.x00) (constant_world Byte.x00) p)
    as (_ & _ & _ & _ & _ & Hrefresh).
  - injection Hp as <-. reflexivity.
  - destruct (Hrefresh (js "refresh-token") (constant_world Byte.x00)) as [fields Hsent].
    exists p, fields. split; [done|]. injection Hp as <-. exact Hsent.
Defined.

(** X21.  When [new Integration(config)] succeeds, for a configuration
    without [description] and [api]: exactly when the schema accepts the
    configuration and, if it has an [oauth] part, the provider is not
    [discord] and a custom provider has its authorize and token URLs.
    Construction makes no request and
    draws no random bytes.  The instance holds the configuration, has a
    provider exactly when OAuth is configured, has its webhook
    configuration registered under its name, and the retry policy of that
    configuration obeys the bounds of the schema. *)
Theorem Integration_new_succeeds_iff `{Runtime}
    (issues : JsString) (config : IntegrationConfig) (w : World) :
  ((∃ this, (Integration_new issues config w).1 = Normal this)
   ↔ IntegrationConfigSchema_safeParse config = true
     ∧ ∀ o, oauth config = Some o →
            provider config ≠ discord
            ∧ (provider config = custom →
               truthy (authUrl o) = true ∧ truthy (tokenUrl o) = true))
  ∧ (Integration_new issues config w).2 = w
  ∧ (∀ this, (Integration_new issues config w).1 = Normal this →
       instance_config this = config
       ∧ (is_Some (instance_oauthProvider this) ↔ is_Some (oauth config))
       ∧ webhooks_registered this
       ∧ (∀ c policy, webhooks config = Some c → retryPolicy c = Some policy →
            RetryPolicySchema policy)).
Proof.
  rewrite Integration_new_run. split_and!.
  - destruct (IntegrationConfigSchema_safeParse config); cbn [negb].
    + pose proof (initializeOAuthProvider_throws config w) as Hthrows.
      destruct (initializeOAuthProvider config w).1 as [p|e] eqn:Hp.
      * split; [|by eexists]. intros _. split; [done|].
        intros o Ho. split.
        -- intros Hd. assert (∃ e, Normal p = Throw e) as [e ?]; [|done].
           apply Hthrows. exists o. split; [done|]. by left.
        -- intros Hc.
           destruct (truthy (authUrl o)) eqn:Ha; destruct (truthy (tokenUrl o)) eqn:Ht;
             try done.
           all: assert (∃ e, Normal p = Throw e) as [e ?]; [|done].
           all: apply Hthrows; exists o; split; [done|]; right; split; [done|];
             by (left + right).
      * split; [by intros [this ?]|]. intros [_ Hok].
        destruct (proj1 Hthrows) as (o & Ho & Hbad); [by eexists|].
        destruct (Hok o Ho) as [Hd Hc].
        destruct Hbad as [?|[Hcustom Hbad]]; [done|].
        destruct (Hc Hcustom) as [Ha Ht]. destruct Hbad; congruence.
    + split; [by intros [this ?]|]. by intros [? _].
  - destruct (negb _); [done|]. by destruct (initializeOAuthProvider config w).1.
  - intros this.
    destruct (IntegrationConfigSchema_safeParse config) eqn:Hschema; cbn [negb]; [|done].
    destruct (initializeOAuthProvider config w).1 as [p|e] eqn:Hp; [|done].
    intros [= <-]. cbn [instance_config instance_oauthProvider].
    split_and!.
    + done.
    + revert Hp. unfold initializeOAuthProvider.
      destruct (oauth config) as [o|].
      * destruct (provider config); simpl; try (intros [= <-]; by split; eexists).
        unfold io_bind, CustomOAuth_new. destruct (_ || _); [done|].
        simpl. intros [= <-]. by split; eexists.
      * simpl. intros [= <-]. split; by intros [? ?].
    + unfold webhooks_registered, initializeWebhooks. cbn [webhookManager instance_config].
      destruct (webhooks config) as [c|]; simpl.
      * apply lookup_insert_eq.
      * apply lookup_empty.
    + intros c policy Hc Hpol. apply RetryPolicy_safeParse_Schema.
      unfold IntegrationConfigSchema_safeParse in Hschema.
      rewrite Hc in Hschema. apply andb_true_iff in Hschema as [_ Hschema].
      cbn in Hschema. apply andb_true_iff in Hschema as [_ Hschema].
      by rewrite Hpol in Hschema.
Qed.

(** X22.  Webhooks through the façade.  For an integration whose manager
    holds its webhook configuration (as after construction),
    [handleWebhook] runs [process] under that configuration on the
    manager's processor and keeps what [process] stored; its result is
    the success flag and the error of the result of [process], or, when a
    subscriber of the manager throws, [WEBHOOK_PROCESSING_FAILED],
    retryable, the record of the delivery being stored all the same; the
    subscribers registered with [on] of the integration itself play no
    part. *)
Theorem integration_webhooks_reach_the_processor `{Runtime}
    (rawHeaders : list (JsString * JsString)) (body : JsBody) (rawBody : RawBody)
    (context : IntegrationContext) (env : Env)
    (this : IntegrationInstance) (c : WebhookConfig) :
  webhooks_registered this →
  webhooks (instance_config this) = Some c →
  let payload := received_payload rawHeaders body rawBody c env in
  let processed := process payload c context env (processor (webhookManager this)) in
  let handle this := Integration_handleWebhook rawHeaders body rawBody context env this in
  processor (webhookManager (handle this).2) = processed.2
  ∧ webhooks_registered (handle this).2
  ∧ (∃ result,
       processed.1 = Normal result
       ∧ let passed_on r :=
           outcome_success r = success result ∧ outcome_error r = error result in
         (passed_on (handle this).1
          ∨ ∃ e, outcome_success (handle this).1 = false
                 ∧ outcome_error (handle this).1 =
                     Some {| code := js "WEBHOOK_PROCESSING_FAILED";
                             message := message_or e (js "Webhook processing failed");
                             details := Some e;
                             retryable := Some true |})
         ∧ ((∀ event, Forall quiet_subscriber
                        (manager_eventHandlers (webhookManager this) event)) →
            passed_on (handle this).1))
  ∧ (∀ event handler, (handle (Integration_on event handler this)).1 = (handle this).1).
Proof.
  intros Hreg Hc payload processed handle. subst handle. cbn beta.
  assert (∀ event handler,
            (Integration_handleWebhook rawHeaders body rawBody context env
               (Integration_on event handler this)).1
            = (Integration_handleWebhook rawHeaders body rawBody context env this).1)
    as Hsame.
  { intros event handler. unfold Integration_handleWebhook.
    cbn [Integration_on instance_config webhookManager].
    destruct (webhooks (instance_config this)); [|done]. cbv zeta.
    by destruct (WebhookManager_handleWebhook _ _ _ _ _ _ _).1. }
  revert Hsame.
  unfold webhooks_registered in Hreg. rewrite Hc in Hreg.
  unfold Integration_handleWebhook. cbn [Integration_on instance_config webhookManager].
  rewrite Hc. cbv zeta.
  unfold WebhookManager_handleWebhook. rewrite Hreg. cbv zeta.
  fold payload. fold processed. cbn [fst snd].
  destruct (process_returns payload c context env (processor (webhookManager this)))
    as [result Hresult].
  fold processed in Hresult. rewrite Hresult. cbn [bind].
  match goal with
  | |- context [bind ?emit (λ _, Normal result)] => set (emitted := emit)
  end.
  intros Hsame. split_and!; [| | |exact Hsame].
  - by destruct emitted as [[]|e].
  - unfold webhooks_registered. destruct emitted as [[]|e]; simpl; congruence.
  - exists result. split; [done|]. cbv zeta. split.
    + destruct emitted as [[]|e]; cbn [bind fst]; [by left|].
      right. by exists e.
    + intros Hquiet. subst emitted.
      unfold WebhookManager_emitEvent. cbn [manager_eventHandlers].
      rewrite !notify_quiet by apply Hquiet.
      by destruct (success result && truthy (event result)), (negb (success result)).
Qed.

(** The integration of the examples: a [push] leaves one record in the
    processor of its manager. *)
Lemma integration_webhooks_reach_the_processor_witness :
  let rt := Toy.runtime in
  length (heap (processor (webhookManager
    (Integration_handleWebhook (lowercase_headers []) (BodyObject ∅)
       (RawString (js "{}")) no_context (env_at 1) custom_instance).2))) = 1%nat.
Proof.
  intros rt.
  rewrite (proj1 (@integration_webhooks_reach_the_processor rt (lowercase_headers [])
                    (BodyObject ∅) (RawString (js "{}")) no_context (env_at 1)
                    custom_instance (push_only None)
                    ltac:(vm_compute; reflexivity) eq_refl)).
  vm_compute. reflexivity.
Defined.

(* --------------------------------------------------------------------- *)
(** ** The API client *)
(* --------------------------------------------------------------------- *)
(** X23.  [executeWithRetry] of the API client, for a policy with an
    integral [maxRetries] that is not negative: it makes one request and
    then one more after every retryable failure, [maxRetries + 1] at
    most; before the retry with index [i] it sleeps for the delay
    computed for [i], and not after the last request; it returns the
    first response, or throws the first failure that is not retryable,
    or the failure of request [maxRetries + 1].  For a negative
    [maxRetries] it makes no request and throws [undefined]. *)
Theorem executeWithRetry_makes_maxRetries_plus_one_attempts {R}
    (retryPolicy : option RetryPolicy) (t : Transport R) :
  let policy := default ApiClient_getDefaultRetryPolicy retryPolicy in
  let run := executeWithRetry retryPolicy t in
  ((0 ≤ maxRetries policy)%Z →
   ∃ retries : nat,
     sent run.2 = (sent t + retries + 1)%nat
     ∧ (Z.of_nat retries ≤ maxRetries policy)%Z
     ∧ slept run.2 = slept t ++ pauses policy t 0 retries
     ∧ (∀ i, (i < retries)%nat →
          ∃ error, answer t (sent t + i)%nat = inr error
                   ∧ isRetryableError error = true)
     ∧ match run.1 with
       | inl response => answer t (sent t + retries)%nat = inl response
       | inr (Some error) =>
           answer t (sent t + retries)%nat = inr error
           ∧ (isRetryableError error = false ∨ Z.of_nat retries = maxRetries policy)
       | inr None => False
       end)
  ∧ ((maxRetries policy < 0)%Z → run = (inr None, t)).
Proof.
  intros policy run. split; [|intros Hneg; subst run; unfold executeWithRetry;
    fold policy; by replace (Z.to_nat (maxRetries policy + 1)) with 0%nat by lia].
  intros Hmax. subst run. unfold executeWithRetry. fold policy.
  destruct (Z.to_nat (maxRetries policy + 1)) as [|fuel] eqn:Hfuel; [lia|].
  destruct (executeWithRetry_loop_spec policy fuel 0 None t)
    as (n & Hn & Hsent & _ & _ & Hslept & Hearlier & Hlast); [lia|].
  exists n. split_and!; try done.
  - rewrite Hsent. lia.
  - lia.
  - revert Hlast. destruct (executeWithRetry_loop _ _ _ _ _).1 as [response|[e|]];
      try done.
    intros [He [Hr|Hr]]; (split; [done|]); [by left|right; lia].
Qed.

(** A remote side that fails twice with status 503 and then answers,
    under the default policy: three requests, two pauses, the answer. *)
Lemma executeWithRetry_makes_maxRetries_plus_one_attempts_witness :
  ∃ retries : nat,
    sent (executeWithRetry None flaky_transport).2 = (0 + retries + 1)%nat
    ∧ (executeWithRetry None flaky_transport).1 = inl (js "ok")
    ∧ retries = 2%nat.
Proof.
  destruct (proj1 (executeWithRetry_makes_maxRetries_plus_one_attempts
                     None flaky_transport)) as (retries & Hsent & _); [done|].
  exists retries. split; [exact Hsent|]. split; [reflexivity|].
  change (sent (executeWithRetry None flaky_transport).2) with 3%nat in Hsent.
  change (sent flaky_transport) with 0%nat in Hsent. lia.
Defined.
